(** * Provider selection and result normalisation of [modules/llm_integration.py]

    A shallow embedding of the module and of the parts of the Python runtime
    it calls ([str.strip], [str.lower], [dict.setdefault], [json.loads],
    [json.dumps]), followed by the properties of the selector
    [analyze_with_llm], of the provider adapters and of the normaliser
    [_parse_llm_json].

    Layout: Python strings and values; exceptions and the effect monad; the
    JSON decoder; the module itself; the JSON encoder used to state the
    round trip; lemmas; the properties. *)

From Stdlib Require Import List String Ascii NArith ZArith Bool Arith Lia.
Import ListNotations.

Local Open Scope string_scope.
Local Open Scope list_scope.
Local Open Scope N_scope.

(** ** Python strings

    A [str] is a sequence of Unicode code points.  String literals of the
    source are written as Rocq strings and read through [lit]. *)

Definition char := N.
Definition str := list char.

Definition lit (s : string) : str :=
  List.map N_of_ascii (list_ascii_of_string s).

Coercion lit : string >-> str.

Fixpoint str_eqb (a b : str) : bool :=
  match a, b with
  | [], [] => true
  | x :: a', y :: b' => N.eqb x y && str_eqb a' b'
  | _, _ => false
  end.

(** Characters with a role in the JSON grammar. *)
Definition QUOTE : char := 34.
Definition BACKSLASH : char := 92.
Definition SLASH : char := 47.
Definition LBRACE : char := 123.
Definition RBRACE : char := 125.
Definition LBRACKET : char := 91.
Definition RBRACKET : char := 93.
Definition COMMA : char := 44.
Definition COLON : char := 58.
Definition MINUS : char := 45.
Definition PLUS : char := 43.
Definition DOT : char := 46.
Definition SPACE : char := 32.

(** [Py_UNICODE_ISSPACE]: the characters [str.strip()] removes. *)
Definition isspace (c : char) : bool :=
  ((9 <=? c) && (c <=? 13)) || ((28 <=? c) && (c <=? 32))
  || (c =? 133) || (c =? 160) || (c =? 5760)
  || ((8192 <=? c) && (c <=? 8202))
  || (c =? 8232) || (c =? 8233) || (c =? 8239) || (c =? 8287)
  || (c =? 12288).

Fixpoint lstrip (s : str) : str :=
  match s with
  | c :: s' => if isspace c then lstrip s' else s
  | [] => []
  end.

Definition rstrip (s : str) : str := rev (lstrip (rev s)).

(** [str.strip()] with no argument. *)
Definition strip (s : str) : str := rstrip (lstrip s).

Definition is_ascii_upper (c : char) : bool := (65 <=? c) && (c <=? 90).

(** The lowercase mapping, on the ASCII range.  A character outside ASCII
    is left as it is, which changes nothing in what the selector decides:
    it compares the lowered name with three ASCII literals, and the
    characters outside ASCII whose lowercase has an ASCII letter (KELVIN
    SIGN gives k, CAPITAL I WITH DOT ABOVE gives i and a combining dot)
    give a letter that none of the three has.  Only the name written in
    the log record of an unknown model can differ. *)
Definition to_lower (c : char) : char :=
  if is_ascii_upper c then c + 32 else c.

(** [str.lower()]. *)
Definition lower (s : str) : str := List.map to_lower s.

(** Truth value of a string: only the empty string is falsy. *)
Definition truthy (s : str) : bool :=
  match s with [] => false | _ => true end.

(** [a or b] on strings. *)
Definition py_or (a b : str) : str := if truthy a then a else b.

(** ** Python values

    The values the module handles: [None], and what a JSON text decodes
    to.  [bytes] and [bytearray] are not among them: no adapter hands one
    to the normaliser. *)

#[warnings="-register-all"]
Inductive pyval : Type :=
| PNone
| PBool (b : bool)
| PInt (z : Z)
| PFloat (lexeme : str)   (* the float that [float(lexeme)] denotes *)
| PStr (s : str)
| PList (l : list pyval)
| PDict (d : list (str * pyval)).

(** A [dict] keeps its items in insertion order. *)
Definition dict := list (str * pyval).

Fixpoint dict_get (k : str) (d : dict) : option pyval :=
  match d with
  | [] => None
  | (k', v) :: d' => if str_eqb k k' then Some v else dict_get k d'
  end.

Definition dict_contains (k : str) (d : dict) : bool :=
  match dict_get k d with Some _ => true | None => false end.

(** [d[k] = v]: an existing key keeps its position, a new key goes last. *)
Fixpoint dict_setitem (k : str) (v : pyval) (d : dict) : dict :=
  match d with
  | [] => [(k, v)]
  | (k', v') :: d' =>
      if str_eqb k k' then (k', v) :: d' else (k', v') :: dict_setitem k v d'
  end.

(** [d.setdefault(k, v)], as a statement: the returned value is unused. *)
Definition setdefault (k : str) (v : pyval) (d : dict) : dict :=
  if dict_contains k d then d else d ++ [(k, v)].

(** ** Exceptions

    Every class below derives from [Exception], which is what the [except]
    clauses of the module catch.  What stops the process from outside
    ([KeyboardInterrupt], [SystemExit]) is not an error of a call and is
    left out. *)

Inductive exception : Type :=
| ImportError
| TypeError
| ValueError
| AttributeError
| IndexError
| RecursionError
| JSONDecodeError
| Timeout
| ConnectionError
| HTTPError (status : Z)
| AuthenticationError
| APIError (status : Z).

Inductive outcome (A : Type) : Type :=
| Return (a : A)
| Raise (e : exception).

Arguments Return {A} a.
Arguments Raise {A} e.

(** ** The JSON decoder: [json.loads]

    The decoder follows CPython's scanner ([scan_once], [scanstring],
    [_match_number], [_parse_object], [_parse_array]) on a string given as
    the list of the characters still to read.  [strict] mode is on and no
    hook is installed, as in the module's call [json.loads(text)].

    Two limits of the interpreter are parameters of the decoder: the number
    of nested containers the scanner may still enter before the recursion
    check raises [RecursionError], and the digit limit of the conversion
    from text to [int] (0 switches the limit off). *)

Record interpreter : Type := {
  recursion_budget : nat;
  int_max_str_digits : N
}.

(** Result of a scanner: the value read and the text after it. *)
Inductive scanned (A : Type) : Type :=
| Scanned (a : A) (rest : str)
| Failed (e : exception)
| Exhausted.   (* loop counter used up; never the case, see [scan_once_total] *)

Arguments Scanned {A} a rest.
Arguments Failed {A} e.
Arguments Exhausted {A}.

(** The decoder's whitespace: space, tab, line feed, carriage return. *)
Definition is_json_ws (c : char) : bool :=
  (c =? 32) || (c =? 9) || (c =? 10) || (c =? 13).

Fixpoint skip_ws (s : str) : str :=
  match s with
  | c :: s' => if is_json_ws c then skip_ws s' else s
  | [] => []
  end.

Definition is_digit (c : char) : bool := (48 <=? c) && (c <=? 57).

Definition hex_value (c : char) : option N :=
  if is_digit c then Some (c - 48)
  else if (97 <=? c) && (c <=? 102) then Some (c - 87)
  else if (65 <=? c) && (c <=? 70) then Some (c - 55)
  else None.

(** The four hexadecimal digits of a [\uXXXX] escape. *)
Definition hex4 (a b c d : char) : option N :=
  match hex_value a, hex_value b, hex_value c, hex_value d with
  | Some x, Some y, Some z, Some w =>
      Some (N.lor (N.shiftl (N.lor (N.shiftl (N.lor (N.shiftl x 4) y) 4) z) 4) w)
  | _, _, _, _ => None
  end.

Definition is_high_surrogate (c : N) : bool := (55296 <=? c) && (c <=? 56319).
Definition is_low_surrogate (c : N) : bool := (56320 <=? c) && (c <=? 57343).

(** [Py_UNICODE_JOIN_SURROGATES]. *)
Definition join_surrogates (hi lo : N) : N :=
  65536 + N.lor (N.shiftl (N.land hi 1023) 10) (N.land lo 1023).

(** The one-letter escapes. *)
Definition simple_escape (c : char) : option char :=
  if (c =? QUOTE) || (c =? BACKSLASH) || (c =? SLASH) then Some c
  else if c =? 98 then Some 8
  else if c =? 102 then Some 12
  else if c =? 110 then Some 10
  else if c =? 114 then Some 13
  else if c =? 116 then Some 9
  else None.

(** [scanstring]: the text starts just after the opening quote. *)
Fixpoint scanstring (s : str) : scanned str :=
  match s with
  | [] => Failed JSONDecodeError                 (* unterminated string *)
  | c :: s1 =>
      if c =? QUOTE then Scanned [] s1
      else if c =? BACKSLASH then
        match s1 with
        | [] => Failed JSONDecodeError
        | e :: s2 =>
            if e =? 117 then
              match s2 with
              | h1 :: h2 :: h3 :: h4 :: s3 =>
                  match hex4 h1 h2 h3 h4 with
                  | None => Failed JSONDecodeError
                  | Some u =>
                      let alone :=
                        match scanstring s3 with
                        | Scanned r rest => Scanned (u :: r) rest
                        | other => other
                        end in
                      if is_high_surrogate u then
                        match s3 with
                        | b :: s4 =>
                            if b =? BACKSLASH then
                              match s4 with
                              | u' :: k1 :: k2 :: k3 :: k4 :: s5 =>
                                  if u' =? 117 then
                                    match hex4 k1 k2 k3 k4 with
                                    | None => Failed JSONDecodeError
                                    | Some u2 =>
                                        if is_low_surrogate u2 then
                                          match scanstring s5 with
                                          | Scanned r rest =>
                                              Scanned (join_surrogates u u2 :: r) rest
                                          | other => other
                                          end
                                        else alone
                                    end
                                  else alone
                              | _ => alone
                              end
                            else alone
                        | [] => alone
                        end
                      else alone
                  end
              | _ => Failed JSONDecodeError
              end
            else
              match simple_escape e with
              | Some c' =>
                  match scanstring s2 with
                  | Scanned r rest => Scanned (c' :: r) rest
                  | other => other
                  end
              | None => Failed JSONDecodeError
              end
        end
      else if c <=? 31 then Failed JSONDecodeError   (* control character *)
      else
        match scanstring s1 with
        | Scanned r rest => Scanned (c :: r) rest
        | other => other
        end
  end.

(** The longest prefix of digits, and what follows it. *)
Fixpoint span_digits (s : str) : str * str :=
  match s with
  | c :: s' =>
      if is_digit c then let (ds, rest) := span_digits s' in (c :: ds, rest)
      else ([], s)
  | [] => ([], [])
  end.

(** Value of a sequence of decimal digits. *)
Definition digits_value (ds : str) : N :=
  fold_left (fun acc c => 10 * acc + (c - 48)) ds 0.

(** [PyLong_FromString] on the digits of a JSON integer. *)
Definition int_of_digits (max_digits : N) (negative : bool) (ds : str)
  : outcome pyval :=
  if negb (max_digits =? 0) && (max_digits <? N.of_nat (List.length ds))
  then Raise ValueError
  else Return (PInt (if negative then Z.opp (Z.of_N (digits_value ds))
                     else Z.of_N (digits_value ds))).

(** An optional minus sign. *)
Definition scan_sign (s : str) : bool * str :=
  match s with
  | c :: s' => if c =? MINUS then (true, s') else (false, s)
  | [] => (false, s)
  end.

(** The integer part: one zero, or a digit from 1 to 9 and the digits
    that follow it. *)
Definition scan_int_part (s : str) : option (str * str) :=
  match s with
  | [] => None
  | c :: s' =>
      if (49 <=? c) && (c <=? 57) then
        let (ds, rest) := span_digits s' in Some (c :: ds, rest)
      else if c =? 48 then Some ([c], s')
      else None
  end.

(** The fraction: a dot and at least one digit, or nothing. *)
Definition scan_fraction (s : str) : str * str :=
  match s with
  | p :: d :: s' =>
      if (p =? DOT) && is_digit d then
        let (fs, rest) := span_digits s' in (p :: d :: fs, rest)
      else ([], s)
  | _ => ([], s)
  end.

(** The exponent: [e] or [E], an optional sign and at least one digit, or
    nothing. *)
Definition scan_exponent (s : str) : str * str :=
  match s with
  | e :: s' =>
      if (e =? 101) || (e =? 69) then
        let (sign, s'') :=
          match s' with
          | g :: t =>
              if (g =? MINUS) || (g =? PLUS) then ([g], t) else ([], s')
          | [] => ([], s')
          end in
        match span_digits s'' with
        | ([], _) => ([], s)
        | (es, rest) => (e :: sign ++ es, rest)
        end
      else ([], s)
  | [] => ([], s)
  end.

(** [_match_number]: sign, integer part, optional fraction, optional
    exponent.  A fraction or an exponent without a digit is left unread.
    The number is an [int] when it has neither, a [float] otherwise. *)
Definition match_number (max_digits : N) (s : str) : scanned pyval :=
  let (negative, s1) := scan_sign s in
  match scan_int_part s1 with
  | None => Failed JSONDecodeError
  | Some (ds, s3) =>
      let (frac, s4) := scan_fraction s3 in
      let (expo, s5) := scan_exponent s4 in
      match frac, expo with
      | [], [] =>
          match int_of_digits max_digits negative ds with
          | Return v => Scanned v s5
          | Raise e => Failed e
          end
      | _, _ =>
          Scanned
            (PFloat ((if negative then [MINUS] else []) ++ ds ++ frac ++ expo))
            s5
      end
  end.

(** [s] starts with the characters of [word]; the text after them. *)
Fixpoint strip_prefix (word s : str) : option str :=
  match word, s with
  | [], _ => Some s
  | w :: word', c :: s' => if w =? c then strip_prefix word' s' else None
  | _ :: _, [] => None
  end.

Section Containers.

(** The scanner for the values inside the container. *)
Variable scan : str -> scanned pyval.

(** [_parse_array] after the opening bracket and a first item is due:
    [s] is at an item; [acc] holds the items read so far, last first. *)
Fixpoint parse_array_items (n : nat) (acc : list pyval) (s : str)
  : scanned pyval :=
  match n with
  | O => Exhausted
  | S n' =>
      match scan s with
      | Scanned v s1 =>
          match skip_ws s1 with
          | c :: s2 =>
              if c =? RBRACKET then Scanned (PList (rev (v :: acc))) s2
              else if c =? COMMA then
                parse_array_items n' (v :: acc) (skip_ws s2)
              else Failed JSONDecodeError
          | [] => Failed JSONDecodeError
          end
      | Failed e => Failed e
      | Exhausted => Exhausted
      end
  end.

Definition parse_array (s : str) : scanned pyval :=
  match skip_ws s with
  | c :: s1 =>
      if c =? RBRACKET then Scanned (PList []) s1
      else parse_array_items (S (List.length s)) [] (skip_ws s)
  | [] => Failed JSONDecodeError
  end.

(** [_parse_object] where a property name is due; [d] holds the items
    set so far. *)
Fixpoint parse_object_items (n : nat) (d : dict) (s : str)
  : scanned pyval :=
  match n with
  | O => Exhausted
  | S n' =>
      match s with
      | q :: s1 =>
          if q =? QUOTE then
            match scanstring s1 with
            | Scanned key s2 =>
                match skip_ws s2 with
                | c :: s3 =>
                    if c =? COLON then
                      match scan (skip_ws s3) with
                      | Scanned v s4 =>
                          match skip_ws s4 with
                          | c' :: s5 =>
                              if c' =? RBRACE then
                                Scanned (PDict (dict_setitem key v d)) s5
                              else if c' =? COMMA then
                                parse_object_items n' (dict_setitem key v d)
                                                   (skip_ws s5)
                              else Failed JSONDecodeError
                          | [] => Failed JSONDecodeError
                          end
                      | Failed e => Failed e
                      | Exhausted => Exhausted
                      end
                    else Failed JSONDecodeError
                | [] => Failed JSONDecodeError
                end
            | Failed e => Failed e
            | Exhausted => Exhausted
            end
          else Failed JSONDecodeError
      | [] => Failed JSONDecodeError
      end
  end.

Definition parse_object (s : str) : scanned pyval :=
  match skip_ws s with
  | c :: s1 =>
      if c =? RBRACE then Scanned (PDict []) s1
      else parse_object_items (S (List.length s)) [] (skip_ws s)
  | [] => Failed JSONDecodeError
  end.

End Containers.

(** A literal of the grammar, when the text starts with it. *)
Definition constant (word : string) (v : pyval) (s : str)
  : option (scanned pyval) :=
  match strip_prefix word s with
  | Some rest => Some (Scanned v rest)
  | None => None
  end.

(** The values that are not strings or containers: the literals, then
    the numbers. *)
Definition scan_atom (max_digits : N) (s : str) : scanned pyval :=
  match constant "null" PNone s with Some r => r | None =>
  match constant "true" (PBool true) s with Some r => r | None =>
  match constant "false" (PBool false) s with Some r => r | None =>
  match constant "NaN" (PFloat "NaN") s with Some r => r | None =>
  match constant "Infinity" (PFloat "Infinity") s with Some r => r | None =>
  match constant "-Infinity" (PFloat "-Infinity") s with Some r => r | None =>
  match_number max_digits s
  end end end end end end.

(** [scan_once]: one value at the start of [s].  [depth] is the number of
    containers that may still be entered. *)
Fixpoint scan_once (max_digits : N) (depth : nat) (s : str)
  : scanned pyval :=
  match s with
  | [] => Failed JSONDecodeError
  | c :: s' =>
      if c =? QUOTE then
        match scanstring s' with
        | Scanned r rest => Scanned (PStr r) rest
        | Failed e => Failed e
        | Exhausted => Exhausted
        end
      else if c =? LBRACE then
        match depth with
        | O => Failed RecursionError
        | S depth' => parse_object (scan_once max_digits depth') s'
        end
      else if c =? LBRACKET then
        match depth with
        | O => Failed RecursionError
        | S depth' => parse_array (scan_once max_digits depth') s'
        end
      else scan_atom max_digits s
  end.

(** [JSONDecoder.decode]: whitespace, one value, whitespace, end of text. *)
Definition decode (py : interpreter) (s : str) : outcome pyval :=
  match scan_once (int_max_str_digits py) (recursion_budget py) (skip_ws s) with
  | Scanned v rest =>
      match skip_ws rest with
      | [] => Return v
      | _ :: _ => Raise JSONDecodeError          (* extra data *)
      end
  | Failed e => Raise e
  | Exhausted => Raise RecursionError
  end.

(** [json.loads(text)]: a value of [pyval] that is not a string is a
    [TypeError]; a string that starts with a byte order mark is refused.
    [json.loads] also decodes [bytes] and [bytearray], which [pyval] does
    not have. *)
Definition json_loads (py : interpreter) (text : pyval) : outcome pyval :=
  match text with
  | PStr s =>
      match s with
      | c :: _ => if c =? 65279 then Raise JSONDecodeError else decode py s
      | [] => decode py s
      end
  | _ => Raise TypeError
  end.

(** ** Effects

    What a call does besides returning: the records it sends to the logger
    and the calls it makes to the outside (client constructors, requests to
    a backend).  A computation yields the events in the order they happen
    and either a value or a raised exception. *)

Inductive level : Type := INFO | WARNING | ERROR.

Inductive logarg : Type :=
| ArgStr (s : str)
| ArgExc (e : exception).

Inductive event : Type :=
| Log (lvl : level) (format : string) (args : list logarg)
| NewOpenAI (api_key : str)
| NewAnthropic (api_key : str)
| ChatCompletionsCreate (api_key : str) (kwargs : pyval)
| MessagesCreate (api_key : str) (kwargs : pyval)
| RequestsPost (url : str) (payload : pyval) (timeout : N).

Definition M (A : Type) : Type := (list event * outcome A)%type.

Definition ret {A} (a : A) : M A := ([], Return a).

Definition raise {A} (e : exception) : M A := ([], Raise e).

Definition bind {A B} (m : M A) (f : A -> M B) : M B :=
  match m with
  | (t, Return a) => let (t', r) := f a in (t ++ t', r)
  | (t, Raise e) => (t, Raise e)
  end.

(** An external call: the event, then what the outside answered. *)
Definition call {A} (ev : event) (answer : outcome A) : M A := ([ev], answer).

Definition lift {A} (o : outcome A) : M A := ([], o).

(** [try: body  except Exception as e: handler]. *)
Definition try_except {A} (body : M A) (handler : exception -> M A) : M A :=
  match body with
  | (t, Return a) => (t, Return a)
  | (t, Raise e) => let (t', r) := handler e in (t ++ t', r)
  end.

Notation "x <- m ;; k" := (bind m (fun x => k))
  (at level 61, m at next level, right associativity).
Notation "m ;;; k" := (bind m (fun _ => k))
  (at level 61, right associativity).

Definition logger_info (format : string) (args : list logarg) : M unit :=
  ([Log INFO format args], Return tt).
Definition logger_warning (format : string) (args : list logarg) : M unit :=
  ([Log WARNING format args], Return tt).
Definition logger_exception (format : string) (args : list logarg) : M unit :=
  ([Log ERROR format args], Return tt).

(** A network request or a client construction. *)
Definition is_external (ev : event) : bool :=
  match ev with
  | Log _ _ _ => false
  | _ => true
  end.

(** ** The outside world

    What the module cannot decide by itself: the process environment, the
    two client libraries, the HTTP transport, and the interpreter limits the
    decoder depends on. *)

(** A block of an Anthropic message: its [text] attribute, when it has one. *)
Inductive content_block : Type :=
| Block (text : option pyval).

(** An HTTP response: the status and what [resp.json()] gives. *)
Record response : Type := {
  status_code : Z;
  json : outcome pyval
}.

Record world : Type := {
  py : interpreter;
  (** [os.environ] *)
  environ : str -> option str;
  (** [from openai import OpenAI; OpenAI(api_key=k)] *)
  openai_OpenAI : str -> outcome unit;
  (** [client.chat.completions.create(...)]: the [message.content] of each
      entry of [choices] *)
  chat_completions_create : str -> pyval -> outcome (list pyval);
  (** [import anthropic; anthropic.Anthropic(api_key=k)] *)
  anthropic_Anthropic : str -> outcome unit;
  (** [client.messages.create(...)]: the blocks of [msg.content] *)
  messages_create : str -> pyval -> outcome (list content_block);
  (** [requests.post(url, json=payload, timeout=t)] *)
  requests_post : str -> pyval -> N -> outcome response
}.

(** [os.getenv(name, default)]. *)
Definition os_getenv (w : world) (name default : str) : str :=
  match environ w name with
  | Some v => v
  | None => default
  end.

(** [resp.raise_for_status()]: client and server error statuses raise. *)
Definition raise_for_status (r : response) : outcome unit :=
  if ((400 <=? status_code r) && (status_code r <? 600))%Z
  then Raise (HTTPError (status_code r))
  else Return tt.

(** [data.get(key, default)]: only a dict has the method. *)
Definition py_get (data : pyval) (key : str) (default : pyval) : outcome pyval :=
  match data with
  | PDict d =>
      match dict_get key d with
      | Some v => Return v
      | None => Return default
      end
  | _ => Raise AttributeError
  end.

(** [choices[0]]. *)
Definition first_choice (choices : list pyval) : outcome pyval :=
  match choices with
  | c :: _ => Return c
  | [] => Raise IndexError
  end.

(** [sep.join(...)] with the empty separator: every item has to be a string. *)
Fixpoint join_texts (items : list pyval) : outcome str :=
  match items with
  | [] => Return []
  | PStr s :: items' =>
      match join_texts items' with
      | Return r => Return (s ++ r)
      | Raise e => Raise e
      end
  | _ :: _ => Raise TypeError
  end.

(** [block.text for block in content if hasattr(block, "text")]. *)
Fixpoint block_texts (content : list content_block) : list pyval :=
  match content with
  | [] => []
  | Block (Some t) :: rest => t :: block_texts rest
  | Block None :: rest => block_texts rest
  end.

(** ** The module [llm_integration] *)

(** The interface the four providers share: [analyze(prompt)]. *)
Class Provider (P : Type) : Type := {
  analyze : world -> P -> str -> M pyval
}.

Record MockProvider : Type := {}.

Record OpenAIProvider : Type := {
  openai_client : option str     (* the client, known by its key, or [None] *)
}.

Record AnthropicProvider : Type := {
  anthropic_client : option str
}.

Record OllamaProvider : Type := {
  base_url : str;
  model : str
}.

(** The response of [MockProvider.analyze]. *)
Definition example : pyval :=
  PDict
    [ ("summary" : str,
       PStr "Most requirements appear implemented with minor gaps.");
      ("traceability_matrix" : str,
       PDict [ ("R-1" : str, PStr "IMPLEMENTED");
               ("R-2" : str, PStr "PARTIALLY_IMPLEMENTED");
               ("R-3" : str, PStr "NOT_IMPLEMENTED") ]);
      ("missing_requirements" : str, PList [PStr "R-3"]);
      ("suggestions" : str,
       PList
         [ PStr "Add comprehensive error handling and unit tests for requirement R-2.";
           PStr "Implement data validation workflow for R-3." ]);
      ("detailed_analysis" : str,
       PStr "R-1 references found in module A; R-2 partially covered in module B with missing edge cases; R-3 no references found.") ].

Definition MockProvider_analyze (prompt : str) : M pyval :=
  logger_info "Returning mock LLM response." [] ;;;
  ret example.

#[export] Instance MockProvider_Provider : Provider MockProvider :=
  {| analyze := fun _ _ prompt => MockProvider_analyze prompt |}.

(** The result [_parse_llm_json] builds when the text is not a JSON object. *)
Definition heuristic (text : pyval) : pyval :=
  PDict
    [ ("summary" : str, PStr "Model returned non-JSON output.");
      ("traceability_matrix" : str, PDict []);
      ("missing_requirements" : str, PList []);
      ("suggestions" : str,
       PList [PStr "Ensure the model is instructed to output strict JSON."]);
      ("detailed_analysis" : str, text) ].

(** The five [setdefault] calls, in the order of the source. *)
Definition ensure_required_keys (result : dict) : dict :=
  setdefault "detailed_analysis" (PStr "")
    (setdefault "suggestions" (PList [])
       (setdefault "missing_requirements" (PList [])
          (setdefault "traceability_matrix" (PDict [])
             (setdefault "summary" (PStr "") result)))).

Section Module_.

Variable w : world.

(** [_parse_llm_json(text)].  The [try] block gives [Some] when it
    returns and [None] when control leaves it, normally or through the
    [except] clause. *)
Definition _parse_llm_json (text : pyval) : M pyval :=
  returned <-
    try_except
      (result <- lift (json_loads (py w) text) ;;
       match result with
       | PDict d => ret (Some (PDict (ensure_required_keys d)))
       | _ => ret None
       end)
      (fun _ => ret None) ;;
  match returned with
  | Some result => ret result
  | None =>
      logger_warning "LLM did not return valid JSON. Applying heuristic parse." [] ;;;
      ret (heuristic text)
  end.

(** [OpenAIProvider.__init__]. *)
Definition OpenAIProvider_init (api_key : str) : M OpenAIProvider :=
  try_except
    (call (NewOpenAI api_key) (openai_OpenAI w api_key) ;;;
     ret {| openai_client := Some api_key |})
    (fun e =>
       logger_exception "Failed to initialize OpenAI client: %s" [ArgExc e] ;;;
       ret {| openai_client := None |}).

Definition system_instruction : str :=
  "You are a strict requirements verification assistant.".

Definition openai_kwargs (prompt : str) : pyval :=
  PDict
    [ ("model" : str, PStr "gpt-4o");
      ("messages" : str,
       PList
         [ PDict [ ("role" : str, PStr "system");
                   ("content" : str, PStr system_instruction) ];
           PDict [ ("role" : str, PStr "user");
                   ("content" : str, PStr prompt) ] ]);
      ("temperature" : str, PFloat "0.2") ].

(** [OpenAIProvider.analyze]. *)
Definition OpenAIProvider_analyze (self : OpenAIProvider) (prompt : str)
  : M pyval :=
  match openai_client self with
  | None =>
      logger_warning "OpenAI client unavailable; falling back to mock." [] ;;;
      MockProvider_analyze prompt
  | Some key =>
      try_except
        (choices <- call (ChatCompletionsCreate key (openai_kwargs prompt))
                         (chat_completions_create w key (openai_kwargs prompt)) ;;
         text <- lift (first_choice choices) ;;
         _parse_llm_json text)
        (fun e =>
           logger_exception "OpenAI analysis failed: %s" [ArgExc e] ;;;
           MockProvider_analyze prompt)
  end.

(** [AnthropicProvider.__init__]. *)
Definition AnthropicProvider_init (api_key : str) : M AnthropicProvider :=
  try_except
    (call (NewAnthropic api_key) (anthropic_Anthropic w api_key) ;;;
     ret {| anthropic_client := Some api_key |})
    (fun e =>
       logger_exception "Failed to initialize Anthropic client: %s" [ArgExc e] ;;;
       ret {| anthropic_client := None |}).

Definition anthropic_kwargs (prompt : str) : pyval :=
  PDict
    [ ("model" : str, PStr "claude-3-5-sonnet-20241022");
      ("max_tokens" : str, PInt 2000);
      ("temperature" : str, PFloat "0.2");
      ("system" : str, PStr system_instruction);
      ("messages" : str,
       PList [ PDict [ ("role" : str, PStr "user");
                       ("content" : str, PStr prompt) ] ]) ].

(** [AnthropicProvider.analyze]. *)
Definition AnthropicProvider_analyze (self : AnthropicProvider) (prompt : str)
  : M pyval :=
  match anthropic_client self with
  | None =>
      logger_warning "Anthropic client unavailable; falling back to mock." [] ;;;
      MockProvider_analyze prompt
  | Some key =>
      try_except
        (content <- call (MessagesCreate key (anthropic_kwargs prompt))
                         (messages_create w key (anthropic_kwargs prompt)) ;;
         text <- lift (join_texts (block_texts content)) ;;
         _parse_llm_json (PStr text))
        (fun e =>
           logger_exception "Anthropic analysis failed: %s" [ArgExc e] ;;;
           MockProvider_analyze prompt)
  end.

(** [OllamaProvider.__init__] with its default arguments. *)
Definition OllamaProvider_init : OllamaProvider :=
  {| base_url := "http://localhost:11434"; model := "llama3" |}.

Definition ollama_payload (self : OllamaProvider) (prompt : str) : pyval :=
  PDict [ ("model" : str, PStr (model self));
          ("prompt" : str, PStr prompt);
          ("stream" : str, PBool false) ].

Definition ollama_url (self : OllamaProvider) : str :=
  base_url self ++ lit "/api/generate".

(** [OllamaProvider.analyze]. *)
Definition OllamaProvider_analyze (self : OllamaProvider) (prompt : str)
  : M pyval :=
  try_except
    (resp <- call (RequestsPost (ollama_url self) (ollama_payload self prompt) 120)
                  (requests_post w (ollama_url self) (ollama_payload self prompt) 120) ;;
     lift (raise_for_status resp) ;;;
     data <- lift (json resp) ;;
     text <- lift (py_get data "response" (PStr "")) ;;
     _parse_llm_json text)
    (fun e =>
       logger_exception "Ollama analysis failed (is Ollama running?): %s" [ArgExc e] ;;;
       MockProvider_analyze prompt).

(** [analyze_with_llm(prompt, model_name, api_key)]. *)
Definition analyze_with_llm (prompt model_name api_key : str) : M pyval :=
  let model_name := lower (strip (py_or model_name "")) in
  if str_eqb model_name "gpt-4o" then
    let key := py_or api_key (os_getenv w "OPENAI_API_KEY" "") in
    if negb (truthy key) then
      logger_info "No OpenAI API key provided; using mock response." [] ;;;
      MockProvider_analyze prompt
    else
      self <- OpenAIProvider_init key ;;
      OpenAIProvider_analyze self prompt
  else if str_eqb model_name "claude 3.5 sonnet" then
    let key := py_or api_key (os_getenv w "ANTHROPIC_API_KEY" "") in
    if negb (truthy key) then
      logger_info "No Anthropic API key provided; using mock response." [] ;;;
      MockProvider_analyze prompt
    else
      self <- AnthropicProvider_init key ;;
      AnthropicProvider_analyze self prompt
  else if str_eqb model_name "local llama 3" then
    OllamaProvider_analyze OllamaProvider_init prompt
  else
    logger_info "Unknown model '%s'; defaulting to mock." [ArgStr model_name] ;;;
    MockProvider_analyze prompt.

End Module_.

#[export] Instance OpenAIProvider_Provider : Provider OpenAIProvider :=
  {| analyze := OpenAIProvider_analyze |}.
#[export] Instance AnthropicProvider_Provider : Provider AnthropicProvider :=
  {| analyze := AnthropicProvider_analyze |}.
#[export] Instance OllamaProvider_Provider : Provider OllamaProvider :=
  {| analyze := OllamaProvider_analyze |}.

(** ** Results of the schema, and their JSON text: [json.dumps]

    An [AnalysisResult] is a result whose five fields have the types of
    the schema.  [json_dumps] is the text [json.dumps] writes for it with
    its default settings: ASCII output, [", "] between items and [": "]
    after a key, items in insertion order. *)

Record AnalysisResult : Type := {
  summary : str;
  traceability_matrix : list (str * str);
  missing_requirements : list str;
  suggestions : list str;
  detailed_analysis : str
}.

(** The mapping an [AnalysisResult] stands for. *)
Definition result_mapping (r : AnalysisResult) : pyval :=
  PDict
    [ ("summary" : str, PStr (summary r));
      ("traceability_matrix" : str,
       PDict (List.map (fun kv => (fst kv, PStr (snd kv))) (traceability_matrix r)));
      ("missing_requirements" : str, PList (List.map PStr (missing_requirements r)));
      ("suggestions" : str, PList (List.map PStr (suggestions r)));
      ("detailed_analysis" : str, PStr (detailed_analysis r)) ].

(** One lowercase hexadecimal digit. *)
Definition hex_digit (n : N) : char := if n <? 10 then 48 + n else 87 + n.

(** [\uXXXX] for a number below 65536. *)
Definition u_escape (n : N) : str :=
  [ BACKSLASH; 117;
    hex_digit (N.land (N.shiftr n 12) 15);
    hex_digit (N.land (N.shiftr n 8) 15);
    hex_digit (N.land (N.shiftr n 4) 15);
    hex_digit (N.land n 15) ].

(** The replacement [encode_basestring_ascii] makes for one character. *)
Definition escape_char (c : char) : str :=
  if c =? QUOTE then [BACKSLASH; QUOTE]
  else if c =? BACKSLASH then [BACKSLASH; BACKSLASH]
  else if c =? 10 then [BACKSLASH; 110]
  else if c =? 13 then [BACKSLASH; 114]
  else if c =? 9 then [BACKSLASH; 116]
  else if c =? 8 then [BACKSLASH; 98]
  else if c =? 12 then [BACKSLASH; 102]
  else if (32 <=? c) && (c <=? 126) then [c]
  else if c <? 65536 then u_escape c
  else
    let n := c - 65536 in
    u_escape (N.lor 55296 (N.land (N.shiftr n 10) 1023))
    ++ u_escape (N.lor 56320 (N.land n 1023)).

Definition encode_basestring_ascii (s : str) : str :=
  QUOTE :: flat_map escape_char s ++ [QUOTE].

(** [sep.join(items)]. *)
Fixpoint join (sep : str) (items : list str) : str :=
  match items with
  | [] => []
  | [x] => x
  | x :: rest => x ++ sep ++ join sep rest
  end.

(** A list whose items are already encoded. *)
Definition encode_list (items : list str) : str :=
  LBRACKET :: join ", " items ++ [RBRACKET].

(** A dict whose values are already encoded. *)
Definition encode_dict (items : list (str * str)) : str :=
  LBRACE
    :: join ", "
         (List.map (fun kv => encode_basestring_ascii (fst kv) ++ lit ": " ++ snd kv)
                   items)
    ++ [RBRACE].

Definition json_dumps (r : AnalysisResult) : str :=
  encode_dict
    [ ("summary" : str, encode_basestring_ascii (summary r));
      ("traceability_matrix" : str,
       encode_dict
         (List.map (fun kv => (fst kv, encode_basestring_ascii (snd kv)))
                   (traceability_matrix r)));
      ("missing_requirements" : str,
       encode_list (List.map encode_basestring_ascii (missing_requirements r)));
      ("suggestions" : str,
       encode_list (List.map encode_basestring_ascii (suggestions r)));
      ("detailed_analysis" : str, encode_basestring_ascii (detailed_analysis r)) ].

(** A code point of Unicode. *)
Definition is_code_point (c : char) : bool := c <? 1114112.

(** No high surrogate stands directly before a low surrogate. *)
Fixpoint no_surrogate_pair (s : str) : bool :=
  match s with
  | a :: (b :: _) as t =>
      negb (is_high_surrogate a && is_low_surrogate b) && no_surrogate_pair t
  | _ => true
  end.

(** The strings that JSON text carries unchanged: code points, where no
    two make a surrogate pair.  [json.dumps] writes a character above
    65535 as the two escapes of its surrogate pair and [json.loads] reads
    two such escapes as one character, so that a string holding the two
    surrogates themselves comes back as another string.  Every string of
    Unicode scalar values, which have no surrogate, is such a text. *)
Definition is_text (s : str) : bool :=
  forallb is_code_point s && no_surrogate_pair s.

(** The text ahead is the escape of a low surrogate, or a malformed
    escape: what [scanstring] looks for after a high surrogate. *)
Definition low_escape_ahead (s : str) : bool :=
  match s with
  | b :: s1 =>
      (b =? BACKSLASH)
      && match s1 with
         | u :: s2 =>
             (u =? 117)
             && match s2 with
                | k1 :: k2 :: k3 :: k4 :: _ =>
                    match hex4 k1 k2 k3 k4 with
                    | Some u2 => is_low_surrogate u2
                    | None => true
                    end
                | _ => false
                end
         | [] => false
         end
  | [] => false
  end.

(** The strings of a result are text and the keys of its matrix are
    distinct, as the keys of a dict are. *)
Definition well_formed (r : AnalysisResult) : Prop :=
  is_text (summary r) = true
  /\ Forall (fun kv => is_text (fst kv) = true /\ is_text (snd kv) = true)
            (traceability_matrix r)
  /\ NoDup (List.map fst (traceability_matrix r))
  /\ Forall (fun s => is_text s = true) (missing_requirements r)
  /\ Forall (fun s => is_text s = true) (suggestions r)
  /\ is_text (detailed_analysis r) = true.

(** ** Vocabulary of the properties *)

(** The five fields of the schema. *)
Definition has_required_keys (d : dict) : bool :=
  dict_contains "summary" d
  && dict_contains "traceability_matrix" d
  && dict_contains "missing_requirements" d
  && dict_contains "suggestions" d
  && dict_contains "detailed_analysis" d.

(** A computation that returns a mapping with the five fields. *)
Definition returns_result (m : M pyval) : Prop :=
  exists t d, m = (t, Return (PDict d)) /\ has_required_keys d = true.

(** No client was constructed and no request was sent. *)
Definition no_external_call (m : M pyval) : Prop :=
  existsb is_external (fst m) = false.

(** The default of each required field. *)
Definition default_of (k : str) : option pyval :=
  if str_eqb k "summary" then Some (PStr "")
  else if str_eqb k "traceability_matrix" then Some (PDict [])
  else if str_eqb k "missing_requirements" then Some (PList [])
  else if str_eqb k "suggestions" then Some (PList [])
  else if str_eqb k "detailed_analysis" then Some (PStr "")
  else None.

(** A computation that, when it returns, returns a result. *)
Definition result_if_returns (m : M pyval) : Prop :=
  forall t a, m = (t, Return a) ->
              exists d, a = PDict d /\ has_required_keys d = true.

(** The two halves [json.dumps] writes for a character above 65535. *)
Definition high_half (c : N) : N :=
  N.lor 55296 (N.land (N.shiftr (c - 65536) 10) 1023).
Definition low_half (c : N) : N :=
  N.lor 56320 (N.land (c - 65536) 1023).

(** The text of one value, as [scan] reads it: it does not start with
    whitespace and [scan] reads it whatever follows. *)
Definition reads (scan : str -> scanned pyval) (vtext : str) (v : pyval) : Prop :=
  forall rest, skip_ws (vtext ++ rest) = vtext ++ rest
               /\ scan (vtext ++ rest) = Scanned v rest.

(** The text of an item of a list of strings. *)
Definition item_text (s : str) : str := encode_basestring_ascii s.

(** The text of an item of a dict from strings to strings. *)
Definition pair_text (kv : str * str) : str :=
  encode_basestring_ascii (fst kv) ++ lit ": " ++ encode_basestring_ascii (snd kv).

(** [d[k] = v] for a pair of strings. *)
Definition set_pair (d : dict) (kv : str * str) : dict :=
  dict_setitem (fst kv) (PStr (snd kv)) d.

(** A scanner that reads at least one character and whose loop counter
    is never used up. *)
Definition productive {A} (scan : str -> scanned A) : Prop :=
  forall s,
    scan s <> Exhausted
    /\ forall v rest, scan s = Scanned v rest ->
                      (List.length rest < List.length s)%nat.

(** A text written with the apostrophe in place of the double quote. *)
Definition quoted (s : string) : str :=
  List.map (fun c => if c =? 39 then QUOTE else c) (lit s).





Definition is_ascii (c : char) : bool := c <? 128.

(** ** Sample environments *)

(** CPython's defaults, seen from a shallow call stack. *)
Definition cpython : interpreter :=
  {| recursion_budget := 900; int_max_str_digits := 4300 |}.

(** Nothing is installed, nothing is configured and nothing answers. *)
Definition offline : world :=
  {| py := cpython;
     environ := fun _ => None;
     openai_OpenAI := fun _ => Raise ImportError;
     chat_completions_create := fun _ _ => Raise ConnectionError;
     anthropic_Anthropic := fun _ => Raise ImportError;
     messages_create := fun _ _ => Raise ConnectionError;
     requests_post := fun _ _ _ => Raise Timeout |}.

(** Both client libraries are installed and every backend answers with
    the text [reply]; the local daemon answers with status 200. *)
Definition answering (reply : str) : world :=
  {| py := cpython;
     environ := fun _ => None;
     openai_OpenAI := fun _ => Return tt;
     chat_completions_create := fun _ _ => Return [PStr reply];
     anthropic_Anthropic := fun _ => Return tt;
     messages_create := fun _ _ => Return [Block (Some (PStr reply))];
     requests_post := fun _ _ _ =>
       Return {| status_code := 200;
                 json := Return (PDict [("response" : str, PStr reply)]) |} |}.

(** A result of the schema with every field filled; the summary ends with
    a character above 65535, which [json.dumps] writes as two escapes. *)
Definition sample_result : AnalysisResult :=
  {| summary := lit "2 of 3 met " ++ [128077];
     traceability_matrix :=
       [ ("R-1" : str, "IMPLEMENTED" : str);
         ("R-2" : str, "NOT_IMPLEMENTED" : str) ];
     missing_requirements := [ "R-2" : str ];
     suggestions := [ "Cover R-2." : str; "Add tests." : str ];
     detailed_analysis := "R-1 in module A; R-2 not found." |}.

(** An environment variable is unset or set to the empty string. *)
Definition unset_or_empty (w : world) (name : str) : Prop :=
  environ w name = None \/ environ w name = Some [].

(** ** Vocabulary of the further properties

    The definitions below are used by the properties that follow the
    numbered ones: they name parts of a trace, the two ways an adapter
    ends, and the callers of the selector in [main.py] and
    [ui/analysis_control_section.py]. *)

(** The same world with another process environment. *)
Definition with_environ (w : world) (env : str -> option str) : world :=
  {| py := py w;
     environ := env;
     openai_OpenAI := openai_OpenAI w;
     chat_completions_create := chat_completions_create w;
     anthropic_Anthropic := anthropic_Anthropic w;
     messages_create := messages_create w;
     requests_post := requests_post w |}.

(** A request sent to a backend. *)
Definition is_request (ev : event) : bool :=
  match ev with
  | ChatCompletionsCreate _ _ | MessagesCreate _ _ | RequestsPost _ _ _ => true
  | _ => false
  end.

(** What an adapter does with the text it extracted: the events so far,
    then the normaliser. *)
Definition normalised (w : world) (t : list event) (text : pyval) : M pyval :=
  (t ++ fst (_parse_llm_json w text), snd (_parse_llm_json w text)).

(** What an adapter does when a step of its [try] block raises. *)
Definition fallen_back (t : list event) (note : string) (e : exception)
  : M pyval :=
  (t ++ [Log ERROR note [ArgExc e]; Log INFO "Returning mock LLM response." []],
   Return example).

(** A result comes from the mock provider or from the normaliser. *)
Definition mock_or_normalised (w : world) (m : M pyval) : Prop :=
  snd m = Return example \/ exists text, snd m = snd (_parse_llm_json w text).

(** The text of the blocks of a message, block by block; [None] is a
    block that has no text. *)
Definition text_blocks (items : list (option str)) : list content_block :=
  List.map (fun o => Block (option_map PStr o)) items.

Definition joined (items : list (option str)) : str :=
  flat_map (fun o => match o with Some s => s | None => [] end) items.

(** [None], a bool, a number, a list or a dict: the values of [pyval]
    that are not a string. *)
Definition not_a_string (v : pyval) : bool :=
  match v with
  | PStr _ => false
  | _ => true
  end.

(** Every backend answers, with nothing in the answer. *)
Definition silent : world :=
  {| py := cpython;
     environ := fun _ => None;
     openai_OpenAI := fun _ => Return tt;
     chat_completions_create := fun _ _ => Return [];
     anthropic_Anthropic := fun _ => Return tt;
     messages_create := fun _ _ => Return [];
     requests_post := fun _ _ _ =>
       Return {| status_code := 200; json := Return (PList []) |} |}.

(** *** The callers: [main.py] and [ui/analysis_control_section.py] *)

(** [MODEL_OPTIONS], the choices of the select box. *)
Definition MODEL_OPTIONS : list str :=
  [ "GPT-4o" : str; "Claude 3.5 Sonnet" : str; "Local Llama 3" : str ].

(** The five arguments [main.py] reads from the result for
    [generate_report_text], each with the default of its [get]. *)
Definition report_arguments (llm_result : pyval)
  : outcome (pyval * pyval * pyval * pyval * pyval) :=
  match py_get llm_result "summary" (PStr "") with
  | Raise e => Raise e
  | Return summary =>
  match py_get llm_result "traceability_matrix" (PDict []) with
  | Raise e => Raise e
  | Return traceability_matrix =>
  match py_get llm_result "missing_requirements" (PList []) with
  | Raise e => Raise e
  | Return missing_requirements =>
  match py_get llm_result "suggestions" (PList []) with
  | Raise e => Raise e
  | Return suggestions =>
  match py_get llm_result "detailed_analysis" (PStr "") with
  | Raise e => Raise e
  | Return detailed_analysis =>
      Return (summary, traceability_matrix, missing_requirements, suggestions,
              detailed_analysis)
  end end end end end.

(** The record the selector writes for a name it does not know. *)
Definition is_unknown_model_record (ev : event) : bool :=
  match ev with
  | Log INFO format _ =>
      String.eqb format "Unknown model '%s'; defaulting to mock."
  | _ => false
  end.

(** ** The module [file_parser]: [read_source_code]

    The function walks a directory and reads the files whose extension is
    a supported one, up to a budget of characters.  What it meets of the
    file system is a [filesystem]: the directories [os.walk] yields with
    their files, in order, and the exception that ends the walk if one
    does; the functions of [os.path], which belong to the platform; the
    size of a file and its text, or the exception raised instead.  The
    file system is taken not to change during the call. *)

Definition SUPPORTED_EXTENSIONS : list str :=
  [ ".py" : str; ".js" : str; ".ts" : str; ".java" : str; ".cs" : str;
    ".cpp" : str; ".c" : str; ".h" : str; ".hpp" : str; ".go" : str;
    ".rb" : str; ".php" : str; ".swift" : str; ".kt" : str; ".rs" : str;
    ".m" : str; ".mm" : str; ".scala" : str ].

Definition MAX_FILE_SIZE_BYTES : N := 800 * 1024.
Definition MAX_TOTAL_CODE_CHARS : N := 200000.

(** An exception of the operating system or of a library.  The functions
    of this module log it or let it pass; they never look at it. *)
Inductive library_exception : Type :=
| FileNotFoundError
| PermissionError
| IsADirectoryError
| OSError
| PackageNotFoundError
| BadZipFile
| OtherException (class_name : str).

(** A value, or the exception raised instead. *)
Definition fallible (A : Type) : Type := (A + library_exception)%type.

Record filesystem : Type := {
  (** [os.walk(directory)]: the pairs of a directory and its files, and
      the exception that ends the walk, if any. *)
  os_walk : str -> list (str * list str) * option library_exception;
  os_path_splitext : str -> str * str;
  os_path_join : str -> str -> str;
  os_path_getsize : str -> fallible N;
  (** [open(path, "r", encoding="utf-8", errors="ignore")] and [f.read()]. *)
  read_text : str -> fallible str;
  (** [str.lower()] on a string that has a character outside ASCII. *)
  lower_beyond_ascii : str -> str
}.

(** [str.lower()], exact on every string. *)
Definition str_lower (fs : filesystem) (s : str) : str :=
  if forallb is_ascii s then lower s else lower_beyond_ascii fs s.

(** What the functions of the module do to the outside, and what they
    log. *)
Inductive fp_arg : Type :=
| FStr (s : str)
| FInt (n : N)
| FQuotient (a b : N)
| FExc (e : library_exception).

(** What [parse_requirements] is given: a file-like object, or the
    bytes of a file ([bytes] or [bytearray]). *)
Inductive upload : Type :=
| FileLike (handle : N)
| ByteString (data : list N).

(** What [Document] is called with: the upload itself, or
    [io.BytesIO(uploaded_file)]. *)
Inductive docx_source : Type :=
| Direct (uploaded_file : upload)
| BytesIO (data : list N).

Inductive fp_event : Type :=
| FLog (lvl : level) (format : string) (args : list fp_arg)
| Getsize (path : str)
| Open (path : str)
| NewDocument (source : docx_source).

(** [ext in SUPPORTED_EXTENSIONS], for the extension of [file]. *)
Definition supported (fs : filesystem) (file : str) : bool :=
  existsb (str_eqb (str_lower fs (snd (os_path_splitext fs file))))
          SUPPORTED_EXTENSIONS.

(** [{"path": path, "content": content}]. *)
Definition source_entry (path content : str) : pyval :=
  PDict [ ("path" : str, PStr path); ("content" : str, PStr content) ].

(** How an iteration of the inner loop ends. *)
Inductive step : Type := Next | Break.

(** The state of the two loops: [source_files] and [total_chars]. *)
Definition reading : Type := (list pyval * N)%type.

(** The body of the inner loop, for one file. *)
Definition read_file (fs : filesystem) (root file : str) (st : reading)
  : list fp_event * (reading * step) :=
  let '(source_files, total_chars) := st in
  if supported fs file then
    let path := os_path_join fs root file in
    match os_path_getsize fs path with
    | inr e =>
        ([Getsize path;
          FLog ERROR "Failed reading file %s: %s" [FStr path; FExc e]],
         (st, Next))
    | inl size =>
        if MAX_FILE_SIZE_BYTES <? size then
          ([Getsize path;
            FLog INFO "Skipping large file: %s (%.2f KB)"
                 [FStr path; FQuotient size 1024]],
           (st, Next))
        else
          match read_text fs path with
          | inr e =>
              ([Getsize path; Open path;
                FLog ERROR "Failed reading file %s: %s" [FStr path; FExc e]],
               (st, Next))
          | inl content =>
              let total_chars := total_chars + N.of_nat (List.length content) in
              if MAX_TOTAL_CODE_CHARS <? total_chars then
                ([Getsize path; Open path;
                  FLog INFO
                    "Reached max total code chars limit. Truncating further additions."
                    []],
                 ((source_files, total_chars), Break))
              else
                ([Getsize path; Open path],
                 ((source_files ++ [source_entry path content], total_chars),
                  Next))
          end
    end
  else ([], (st, Next)).

(** [for file in files: ...]: the inner loop, which a [break] leaves. *)
Fixpoint read_files (fs : filesystem) (root : str) (files : list str)
    (st : reading) : list fp_event * (reading * step) :=
  match files with
  | [] => ([], (st, Next))
  | file :: files' =>
      match read_file fs root file st with
      | (t, (st', Break)) => (t, (st', Break))
      | (t, (st', Next)) =>
          let '(t', r) := read_files fs root files' st' in (t ++ t', r)
      end
  end.

(** [for root, _, files in os.walk(directory): ...]: the outer loop.  The
    [else] of the inner loop continues it; after a [break] of the inner
    loop the test on [total_chars] decides. *)
Fixpoint read_directories (fs : filesystem) (walk : list (str * list str))
    (st : reading) : list fp_event * (reading * step) :=
  match walk with
  | [] => ([], (st, Next))
  | (root, files) :: walk' =>
      match read_files fs root files st with
      | (t, (st', Next)) =>
          let '(t', r) := read_directories fs walk' st' in (t ++ t', r)
      | (t, (st', Break)) =>
          if MAX_TOTAL_CODE_CHARS <? snd st' then (t, (st', Break))
          else let '(t', r) := read_directories fs walk' st' in (t ++ t', r)
      end
  end.

Definition read_source_code (fs : filesystem) (directory : str)
  : list fp_event * fallible (list pyval) :=
  let '(walk, failure) := os_walk fs directory in
  let '(t, ((source_files, _), s)) := read_directories fs walk ([], 0) in
  match s, failure with
  | Next, Some e => (t, inr e)
  | _, _ =>
      (t ++ [FLog INFO "Collected %d source files"
                  [FInt (N.of_nat (List.length source_files))]],
       inl source_files)
  end.

(** *** What the function is expected to collect *)

(** The paths the walk offers: the supported files, directory by
    directory. *)
Definition candidates (fs : filesystem) (directory : str) : list str :=
  flat_map (fun d => List.map (os_path_join fs (fst d))
                              (filter (supported fs) (snd d)))
           (fst (os_walk fs directory)).

(** The text of a file that can be read and is not too large. *)
Definition readable (fs : filesystem) (path : str) : option str :=
  match os_path_getsize fs path with
  | inl size =>
      if MAX_FILE_SIZE_BYTES <? size then None
      else match read_text fs path with
           | inl content => Some content
           | inr _ => None
           end
  | inr _ => None
  end.

(** The readable files among [paths], with their text. *)
Fixpoint readable_files (fs : filesystem) (paths : list str)
  : list (str * str) :=
  match paths with
  | [] => []
  | path :: paths' =>
      match readable fs path with
      | Some content => (path, content) :: readable_files fs paths'
      | None => readable_files fs paths'
      end
  end.

(** The longest prefix of [files] whose texts, added to [total], stay
    within the budget. *)
Fixpoint within_budget (total : N) (files : list (str * str))
  : list (str * str) :=
  match files with
  | [] => []
  | (path, content) :: files' =>
      let total := total + N.of_nat (List.length content) in
      if MAX_TOTAL_CODE_CHARS <? total then []
      else (path, content) :: within_budget total files'
  end.

(** Whether the texts of [files], added to [total], pass the budget. *)
Fixpoint exceeds_budget (total : N) (files : list (str * str)) : bool :=
  match files with
  | [] => false
  | (_, content) :: files' =>
      let total := total + N.of_nat (List.length content) in
      if MAX_TOTAL_CODE_CHARS <? total then true
      else exceeds_budget total files'
  end.

(** The number of characters of the entries of a result. *)
Definition content_chars (entry : pyval) : N :=
  match entry with
  | PDict d =>
      match dict_get "content" d with
      | Some (PStr content) => N.of_nat (List.length content)
      | _ => 0
      end
  | _ => 0
  end.

Definition total_content_chars (source_files : list pyval) : N :=
  fold_right (fun entry n => content_chars entry + n) 0 source_files.

(** The record of the limit. *)
Definition limit_record : fp_event :=
  FLog INFO "Reached max total code chars limit. Truncating further additions."
       [].

(** The two loops as one loop over the paths the walk offers, without
    the trace. *)
Fixpoint collect (fs : filesystem) (paths : list str) (st : reading)
  : reading * step :=
  match paths with
  | [] => (st, Next)
  | path :: paths' =>
      match readable fs path with
      | None => collect fs paths' st
      | Some content =>
          let total_chars := snd st + N.of_nat (List.length content) in
          if MAX_TOTAL_CODE_CHARS <? total_chars
          then ((fst st, total_chars), Break)
          else collect fs paths'
                 (fst st ++ [source_entry path content], total_chars)
      end
  end.

(** The events that touch a file. *)
Definition touches (path : str) (ev : fp_event) : Prop :=
  ev = Getsize path \/ ev = Open path.

(** *** A sample tree, on a POSIX platform *)

(** [posixpath.join] of two components. *)
Definition posix_join (a p : str) : str :=
  match p with
  | 47 :: _ => p
  | _ =>
      match rev a with
      | [] => p
      | 47 :: _ => a ++ p
      | _ => a ++ SLASH :: p
      end
  end.

(** The characters of [s] before the first dot or slash, and the rest
    from that character on. *)
Fixpoint span_name (s : str) : str * str :=
  match s with
  | c :: s' =>
      if (c =? DOT) || (c =? SLASH) then ([], s)
      else let '(a, b) := span_name s' in (c :: a, b)
  | [] => ([], [])
  end.

(** Whether the file name a reversed path begins with has a character
    that is not a dot. *)
Fixpoint has_name (s : str) : bool :=
  match s with
  | c :: s' =>
      if c =? SLASH then false
      else if c =? DOT then has_name s' else true
  | [] => false
  end.

(** [posixpath.splitext]: the extension starts at the last dot of the
    last component, unless only dots precede it there. *)
Definition posix_splitext (p : str) : str * str :=
  match span_name (rev p) with
  | (ext, 46 :: root) =>
      if has_name root then (rev root, DOT :: rev ext) else (p, [])
  | _ => (p, [])
  end.

Definition a_text (n : N) : str := List.repeat 97 (N.to_nat n).

(** A tree with two directories: a script, a picture and a file that
    cannot be measured in the first; two large texts and a short one in
    the second. *)
Definition sample_tree : filesystem :=
  {| os_walk := fun _ =>
       ([ ("/app" : str,
           [ "main.py" : str; "logo.png" : str; "gone.js" : str ]);
          ("/app/lib" : str,
           [ "big.C" : str; "huge.go" : str; "small.rs" : str ]) ],
        None);
     os_path_splitext := posix_splitext;
     os_path_join := posix_join;
     os_path_getsize := fun path =>
       if str_eqb path "/app/gone.js" then inr FileNotFoundError
       else inl 1000;
     read_text := fun path =>
       if str_eqb path "/app/main.py" then inl (lit "print(1)")
       else if str_eqb path "/app/lib/big.C" then inl (a_text 150000)
       else if str_eqb path "/app/lib/huge.go" then inl (a_text 60000)
       else inl (lit "fn main() {}");
     lower_beyond_ascii := fun s => s |}.

(** The same file system, with a walk that raises [e] after the
    directories it gives. *)
Definition interrupted (fs : filesystem) (e : library_exception) : filesystem :=
  {| os_walk := fun directory => (fst (os_walk fs directory), Some e);
     os_path_splitext := os_path_splitext fs;
     os_path_join := os_path_join fs;
     os_path_getsize := os_path_getsize fs;
     read_text := read_text fs;
     lower_beyond_ascii := lower_beyond_ascii fs |}.

(** The first directory of the sample tree alone. *)
Definition small_tree : filesystem :=
  {| os_walk := fun _ =>
       ([ ("/app" : str,
           [ "main.py" : str; "logo.png" : str; "gone.js" : str ]) ],
        None);
     os_path_splitext := os_path_splitext sample_tree;
     os_path_join := os_path_join sample_tree;
     os_path_getsize := os_path_getsize sample_tree;
     read_text := read_text sample_tree;
     lower_beyond_ascii := lower_beyond_ascii sample_tree |}.

(** ** The module [file_parser]: [parse_requirements] *)

(** *** Regular expressions

    The operators of [re] the pattern of [parse_requirements] is written
    with.  [a?] is [Opt a] and [a+] is [Plus a]. *)

Inductive regex : Type :=
| Char (c : char)
| OneOf (p : char -> bool)
| Empty
| Seq (r1 r2 : regex)
| Alt (r1 r2 : regex)
| Star (r : regex)
| Group (n : nat) (r : regex)
| Bol
| Eol.

Definition Opt (r : regex) : regex := Alt r Empty.
Definition Plus (r : regex) : regex := Seq r (Star r).

(** The groups matched so far, the last one first. *)
Definition groups : Type := list (nat * str).

(** [m.group(n)]: [None] for a group that took no part in the match. *)
Fixpoint group (n : nat) (gs : groups) : option str :=
  match gs with
  | [] => None
  | (i, s) :: gs' => if Nat.eqb i n then Some s else group n gs'
  end.

(** The matcher: [exec r pos s gs k] matches [r] at position [pos], where
    [s] is what is left of the subject, and hands what follows to [k]; it
    answers with the first match in the order of a backtracking matcher,
    the left alternative before the right one and one more repetition
    before none.  A repetition is not entered again by an iteration that
    consumed nothing.  [^] matches at the start of the subject, [$] at
    its end and before a newline that ends it. *)
Fixpoint exec (r : regex) (pos : nat) (s : str) (gs : groups)
    (k : nat -> str -> groups -> option groups) {struct r} : option groups :=
  match r with
  | Char c =>
      match s with
      | x :: s' => if x =? c then k (S pos) s' gs else None
      | [] => None
      end
  | OneOf p =>
      match s with
      | x :: s' => if p x then k (S pos) s' gs else None
      | [] => None
      end
  | Empty => k pos s gs
  | Seq r1 r2 =>
      exec r1 pos s gs (fun pos' s' gs' => exec r2 pos' s' gs' k)
  | Alt r1 r2 =>
      match exec r1 pos s gs k with
      | Some g => Some g
      | None => exec r2 pos s gs k
      end
  | Star r' =>
      (fix iterate (n : nat) (pos : nat) (s : str) (gs : groups)
         : option groups :=
         match n with
         | O => k pos s gs
         | S n' =>
             match exec r' pos s gs
                     (fun pos' s' gs' =>
                        if Nat.ltb pos pos' then iterate n' pos' s' gs'
                        else None) with
             | Some g => Some g
             | None => k pos s gs
             end
         end) (List.length s) pos s gs
  | Group n r' =>
      exec r' pos s gs
           (fun pos' s' gs' => k pos' s' ((n, firstn (pos' - pos) s) :: gs'))
  | Bol => if Nat.eqb pos 0 then k pos s gs else None
  | Eol =>
      match s with
      | [] => k pos s gs
      | [x] => if x =? 10 then k pos s gs else None
      | _ => None
      end
  end.

(** [pattern.match(subject)]. *)
Definition re_match (pattern : regex) (subject : str) : option groups :=
  exec pattern 0 subject [] (fun _ _ gs => Some gs).

(** *** The document and the pattern *)

(** What [parse_requirements] meets of its libraries: the texts of the
    paragraphs of the document [Document] opens, or the exception it
    raises; and the decimal digits of Unicode outside ASCII ([\d] matches
    the characters of the category Nd). *)
Record libraries : Type := {
  docx_Document : docx_source -> fallible (list str);
  decimal_beyond_ascii : char -> bool
}.

Definition is_decimal (h : libraries) (c : char) : bool :=
  if is_ascii c then is_digit c else decimal_beyond_ascii h c.

Definition is_ascii_letter (c : char) : bool :=
  ((65 <=? c) && (c <=? 90)) || ((97 <=? c) && (c <=? 122)).

Definition not_newline (c : char) : bool := negb (c =? 10).

Definition BULLET : char := 8226.

(** The pattern, as [re] reads the raw string of the source,
    [^(R-\d+|[A-Za-z]?\d+\.?|\\*|-|BULLET)\\s*(.+)$]: in it [\\*] is a
    backslash repeated and [\\s*] is a backslash and then the letter s
    repeated. *)
Definition id_pattern (h : libraries) : regex :=
  Alt (Seq (Char 82) (Seq (Char MINUS) (Plus (OneOf (is_decimal h)))))
 (Alt (Seq (Opt (OneOf is_ascii_letter))
           (Seq (Plus (OneOf (is_decimal h))) (Opt (Char DOT))))
 (Alt (Star (Char BACKSLASH))
 (Alt (Char MINUS)
      (Char BULLET)))).

Definition req_pattern (h : libraries) : regex :=
  Seq Bol
 (Seq (Group 1 (id_pattern h))
 (Seq (Char BACKSLASH)
 (Seq (Star (Char 115))
 (Seq (Group 2 (Plus (OneOf not_newline)))
      Eol)))).

(** *** The function *)

(** [str(n)] for a number that is not negative. *)
Fixpoint decimal_digits (fuel : nat) (n : N) (acc : str) : str :=
  match fuel with
  | O => acc
  | S fuel' =>
      let acc := (48 + n mod 10) :: acc in
      if n / 10 =? 0 then acc else decimal_digits fuel' (n / 10) acc
  end.

Definition decimal (n : nat) : str :=
  decimal_digits (S n) (N.of_nat n) [].

(** [{"id": id, "text": text}]. *)
Definition requirement (id text : str) : pyval :=
  PDict [ ("id" : str, PStr id); ("text" : str, PStr text) ].

Definition startswith (s prefix : str) : bool :=
  match strip_prefix prefix s with
  | Some _ => true
  | None => false
  end.

(** The [try] block that opens the document, with its handler. *)
Definition open_document (h : libraries) (uploaded_file : upload)
  : list fp_event * fallible (list str) :=
  match docx_Document h (Direct uploaded_file) with
  | inl paragraphs => ([NewDocument (Direct uploaded_file)], inl paragraphs)
  | inr e =>
      match uploaded_file with
      | ByteString data =>
          ([NewDocument (Direct uploaded_file); NewDocument (BytesIO data)],
           docx_Document h (BytesIO data))
      | FileLike _ => ([NewDocument (Direct uploaded_file)], inr e)
      end
  end.

(** The first loop: [temp_lines]. *)
Fixpoint non_blank (paragraphs : list str) : list str :=
  match paragraphs with
  | [] => []
  | para :: paragraphs' =>
      let text := strip para in
      if truthy text then text :: non_blank paragraphs'
      else non_blank paragraphs'
  end.

(** The second loop.  A method called on the [None] of a group that took
    no part raises an [AttributeError]. *)
Fixpoint match_lines (h : libraries) (lines : list str)
    (requirements : list pyval) : fallible (list pyval) :=
  match lines with
  | [] => inl requirements
  | line :: lines' =>
      match re_match (req_pattern h) line with
      | Some m =>
          match group 2 m, group 1 m with
          | Some text, Some id_candidate =>
              let text := strip text in
              let id_candidate :=
                if negb (startswith id_candidate "R-")
                then lit "R-" ++ decimal (List.length requirements + 1)
                else id_candidate in
              match_lines h lines'
                (requirements ++ [requirement id_candidate text])
          | _, _ => inr (OtherException "AttributeError")
          end
      | None => match_lines h lines' requirements
      end
  end.

(** The third loop: [enumerate(temp_lines, start=i)]. *)
Fixpoint number_lines (i : nat) (lines : list str) : list pyval :=
  match lines with
  | [] => []
  | line :: lines' =>
      requirement (lit "R-" ++ decimal i) line :: number_lines (S i) lines'
  end.

Definition parse_requirements (h : libraries) (uploaded_file : upload)
  : list fp_event * fallible (list pyval) :=
  match open_document h uploaded_file with
  | (t, inr e) => (t, inr e)
  | (t, inl paragraphs) =>
      let temp_lines := non_blank paragraphs in
      match match_lines h temp_lines [] with
      | inr e => (t, inr e)
      | inl requirements =>
          let requirements :=
            match requirements with
            | [] => number_lines 1 temp_lines
            | _ => requirements
            end in
          (t ++ [FLog INFO "Parsed %d requirements from document"
                      [FInt (N.of_nat (List.length requirements))]],
           inl requirements)
      end
  end.

(** *** Sample documents *)

(** A document the way requirements are usually written, and one whose
    lines carry the backslash the pattern asks for. *)
Definition usual_document : list str :=
  [ "Requirements" : str; "  " : str; "R-7 The system shall log in." : str;
    "2. It shall log out." : str ].

Definition backslash_document : list str :=
  [ "Requirements" : str; lit "R-7\ The system shall log in. " ;
    lit "2.\ssIt shall log out." ; lit "-\ " ].

Definition office (paragraphs : list str) : libraries :=
  {| docx_Document := fun source =>
       match source with
       | Direct (ByteString _) => inr (OtherException "AttributeError")
       | _ => inl paragraphs
       end;
     decimal_beyond_ascii := fun _ => false |}.

(** *** Vocabulary *)

(** The numbers of the groups of a pattern. *)
Fixpoint group_ids (r : regex) : list nat :=
  match r with
  | Seq r1 r2 | Alt r1 r2 => group_ids r1 ++ group_ids r2
  | Star r' => group_ids r'
  | Group n r' => n :: group_ids r'
  | _ => []
  end.

(** The texts a pattern describes, wherever they stand. *)
Inductive lang : regex -> str -> Prop :=
| lang_Char c : lang (Char c) [c]
| lang_OneOf (p : char -> bool) x : p x = true -> lang (OneOf p) [x]
| lang_Empty : lang Empty []
| lang_Seq r1 r2 a b : lang r1 a -> lang r2 b -> lang (Seq r1 r2) (a ++ b)
| lang_Alt_l r1 r2 a : lang r1 a -> lang (Alt r1 r2) a
| lang_Alt_r r1 r2 a : lang r2 a -> lang (Alt r1 r2) a
| lang_Star_nil r : lang (Star r) []
| lang_Star_more r a b : lang r a -> lang (Star r) b -> lang (Star r) (a ++ b)
| lang_Group n r a : lang r a -> lang (Group n r) a
| lang_Bol : lang Bol []
| lang_Eol : lang Eol [].

(** A text with a character that is not white space at each end. *)
Definition trimmed (text : str) : Prop := text <> [] /\ strip text = text.

(** The requirements the function is expected to return: an identifier
    that starts with [R-], and a text that is [trimmed]. *)
Definition labelled (r : pyval) : Prop :=
  exists id text,
    r = requirement id text /\ startswith id "R-" = true /\ trimmed text.

(** The identifier of a requirement. *)
Definition requirement_id (r : pyval) : option pyval :=
  match r with
  | PDict d => dict_get "id" d
  | _ => None
  end.

(** ** The module [report_generator]

    [generate_report_text] is modelled on arguments of the types its
    signature gives: strings, a dict from strings to strings in the order
    of its items, and lists of strings. *)

Definition NEWLINE : str := [10].

(** The lines of one section: an entry for each item, or the placeholder
    when there is none. *)
Definition section_lines {A} (items : list A) (entry : A -> str)
    (placeholder : str) : list str :=
  match items with
  | [] => [placeholder]
  | _ => List.map entry items
  end.

(** The list [lines] at the end of [generate_report_text]. *)
Definition report_lines (summary : str) (traceability_matrix : list (str * str))
    (missing_requirements suggestions : list str) (detailed_analysis : str)
  : list str :=
  [ "Requirements Verification Report" : str;
    List.repeat 61 35%nat;
    "" : str;
    "Summary:" : str;
    py_or summary "No summary provided.";
    "" : str;
    "Traceability Matrix:" : str ]
  ++ section_lines traceability_matrix
       (fun item => lit "- " ++ fst item ++ lit ": " ++ snd item)
       "(No traceability data)"
  ++ [ "" : str; "Missing/Unimplemented Requirements:" : str ]
  ++ section_lines missing_requirements (fun rid => lit "- " ++ rid) "(None)"
  ++ [ "" : str; "Actionable Suggestions:" : str ]
  ++ section_lines suggestions (fun s => lit "- " ++ s) "(No suggestions)"
  ++ [ "" : str;
       "Detailed Analysis:" : str;
       py_or detailed_analysis "(No detailed analysis)";
       "" : str ].

Definition generate_report_text (summary : str)
    (traceability_matrix : list (str * str))
    (missing_requirements suggestions : list str) (detailed_analysis : str)
  : str :=
  join NEWLINE
       (report_lines summary traceability_matrix missing_requirements
                     suggestions detailed_analysis).

(** The characters [str.splitlines()] splits at. *)
Definition is_line_boundary (c : char) : bool :=
  ((10 <=? c) && (c <=? 13)) || ((28 <=? c) && (c <=? 30))
  || (c =? 133) || (c =? 8232) || (c =? 8233).

(** [str.splitlines()]: a carriage return and the line feed after it are
    one boundary, and a boundary that ends the string opens no line. *)
Fixpoint splitlines (s : str) : list str :=
  match s with
  | [] => []
  | c :: s' =>
      if is_line_boundary c then
        [] :: match s' with
              | c' :: s'' =>
                  if (c =? 13) && (c' =? 10) then splitlines s''
                  else splitlines s'
              | [] => []
              end
      else
        match splitlines s' with
        | [] => [[c]]
        | line :: lines => (c :: line) :: lines
        end
  end.

Definition endswith (s suffix : str) : bool :=
  match strip_prefix (rev suffix) (rev s) with
  | Some _ => true
  | None => false
  end.

(** [line.replace(" ", "&nbsp;")]. *)
Definition nbsp (line : str) : str :=
  flat_map (fun c => if c =? SPACE then lit "&nbsp;" else [c]) line.

Inductive style : Type := Heading4 | BodyText.

Inductive flowable : Type :=
| Spacer (width height : N)
| Paragraph (text : str) (st : style).

(** What [export_to_pdf] meets of the platform and of reportlab.  The
    constructor of a [Paragraph] reads its text as markup and can raise;
    [None] is a call that returns. *)
Record reportlab : Type := {
  os_path_dirname : str -> str;
  os_makedirs : str -> option library_exception;
  new_Paragraph : str -> style -> option library_exception;
  doc_build : str -> list flowable -> option library_exception
}.

Inductive rg_event : Type :=
| MakeDirs (path : str)
| Build (filepath : str) (story : list flowable)
| RLog (lvl : level) (format : string) (args : list str).

(** The loop of [export_to_pdf] over the lines of the content. *)
Fixpoint add_lines (rl : reportlab) (lines : list str) (story : list flowable)
  : fallible (list flowable) :=
  match lines with
  | [] => inl story
  | line :: lines' =>
      if str_eqb (strip line) "" then
        add_lines rl lines' (story ++ [Spacer 1 8])
      else if endswith line ":" && negb (startswith line "-") then
        let text := lit "<b>" ++ line ++ lit "</b>" in
        match new_Paragraph rl text Heading4 with
        | Some e => inr e
        | None =>
            add_lines rl lines'
              (story ++ [Spacer 1 6; Paragraph text Heading4; Spacer 1 4])
        end
      else
        match new_Paragraph rl (nbsp line) BodyText with
        | Some e => inr e
        | None => add_lines rl lines' (story ++ [Paragraph (nbsp line) BodyText])
        end
  end.

Definition export_to_pdf (rl : reportlab) (content filepath : str)
  : list rg_event * fallible str :=
  let directory := os_path_dirname rl filepath in
  match os_makedirs rl directory with
  | Some e => ([MakeDirs directory], inr e)
  | None =>
      match add_lines rl (splitlines content) [] with
      | inr e => ([MakeDirs directory], inr e)
      | inl story =>
          match doc_build rl filepath story with
          | Some e => ([MakeDirs directory; Build filepath story], inr e)
          | None =>
              ([MakeDirs directory; Build filepath story;
                RLog INFO "PDF report saved: %s" [filepath]],
               inl filepath)
          end
      end
  end.

(** *** Vocabulary *)

(** The three ways a line is laid out. *)
Definition blank : list flowable := [Spacer 1 8].

Definition heading (line : str) : list flowable :=
  [ Spacer 1 6; Paragraph (lit "<b>" ++ line ++ lit "</b>") Heading4;
    Spacer 1 4 ].

Definition body (line : str) : list flowable := [Paragraph (nbsp line) BodyText].

(** The flowables of one line. *)
Definition laid_out (line : str) : list flowable :=
  if str_eqb (strip line) "" then blank
  else if endswith line ":" && negb (startswith line "-") then heading line
  else body line.

(** The exception of the first paragraph of a story that the
    constructor refuses, if it refuses one. *)
Fixpoint refused (rl : reportlab) (story : list flowable)
  : option library_exception :=
  match story with
  | [] => None
  | Spacer _ _ :: story' => refused rl story'
  | Paragraph text st :: story' =>
      match new_Paragraph rl text st with
      | Some e => Some e
      | None => refused rl story'
      end
  end.

(** A string with no line boundary in it. *)
Definition single_line (s : str) : bool :=
  forallb (fun c => negb (is_line_boundary c)) s.

(** A result of the schema whose strings are single lines. *)
Definition single_lined (r : AnalysisResult) : Prop :=
  single_line (summary r) = true
  /\ Forall (fun item => single_line (fst item) = true
                         /\ single_line (snd item) = true)
            (traceability_matrix r)
  /\ Forall (fun s => single_line s = true) (missing_requirements r)
  /\ Forall (fun s => single_line s = true) (suggestions r)
  /\ single_line (detailed_analysis r) = true.

(** The report of a result of the schema. *)
Definition report_of (r : AnalysisResult) : str :=
  generate_report_text (summary r) (traceability_matrix r)
    (missing_requirements r) (suggestions r) (detailed_analysis r).

(** [posixpath.dirname]: the path up to its last slash, without the
    slashes that end it unless it has nothing else. *)
Fixpoint drop_name (s : str) : str :=
  match s with
  | c :: s' => if c =? SLASH then s else drop_name s'
  | [] => []
  end.

Fixpoint drop_slashes (s : str) : str :=
  match s with
  | c :: s' => if c =? SLASH then drop_slashes s' else s
  | [] => []
  end.

Definition posix_dirname (p : str) : str :=
  let head := drop_name (rev p) in
  match drop_slashes head with
  | [] => rev head
  | stripped => rev stripped
  end.

(** A reportlab that refuses a body paragraph with a [<] in it, as markup
    it cannot read. *)
Definition strict : reportlab :=
  {| os_path_dirname := posix_dirname;
     os_makedirs := fun _ => None;
     new_Paragraph := fun text st =>
       match st with
       | BodyText =>
           if existsb (N.eqb 60) text then Some (OtherException "ValueError")
           else None
       | Heading4 => None
       end;
     doc_build := fun _ _ => None |}.

(** A reportlab that accepts everything, on a POSIX platform. *)
Definition accepting : reportlab :=
  {| os_path_dirname := posix_dirname;
     os_makedirs := fun _ => None;
     new_Paragraph := fun _ _ => None;
     doc_build := fun _ _ => None |}.

(** The story [export_to_pdf] is expected to build for the report of a
    result: the title and the rule as body text, then the five sections,
    each a blank, a heading and its lines. *)
Definition report_story (r : AnalysisResult) : list flowable :=
  body "Requirements Verification Report"
  ++ body (List.repeat 61 35%nat)
  ++ blank ++ heading "Summary:"
  ++ laid_out (py_or (summary r) "No summary provided.")
  ++ blank ++ heading "Traceability Matrix:"
  ++ flat_map body
       (section_lines (traceability_matrix r)
          (fun item => lit "- " ++ fst item ++ lit ": " ++ snd item)
          "(No traceability data)")
  ++ blank ++ heading "Missing/Unimplemented Requirements:"
  ++ flat_map body
       (section_lines (missing_requirements r) (fun rid => lit "- " ++ rid)
          "(None)")
  ++ blank ++ heading "Actionable Suggestions:"
  ++ flat_map body
       (section_lines (suggestions r) (fun s => lit "- " ++ s)
          "(No suggestions)")
  ++ blank ++ heading "Detailed Analysis:"
  ++ laid_out (py_or (detailed_analysis r) "(No detailed analysis)").

(** * Lemmas *)

(** ** Strings *)

Lemma str_eqb_eq (a b : str) : str_eqb a b = true <-> a = b.
Proof.
  revert b. induction a as [|x a IH]; intros [|y b]; simpl; split;
    try discriminate; try reflexivity.
  - intros H. apply andb_true_iff in H. destruct H as [Hx Hab].
    apply N.eqb_eq in Hx. apply IH in Hab. congruence.
  - intros H. injection H as -> ->. rewrite N.eqb_refl. simpl.
    apply IH. reflexivity.
Qed.

Lemma str_eqb_refl (a : str) : str_eqb a a = true.
Proof. apply str_eqb_eq. reflexivity. Qed.

Lemma str_eqb_neq (a b : str) : a <> b -> str_eqb a b = false.
Proof.
  intros H. destruct (str_eqb a b) eqn:E; [|reflexivity].
  apply str_eqb_eq in E. contradiction.
Qed.

Lemma py_or_empty (a : str) : py_or a "" = a.
Proof. destruct a; reflexivity. Qed.

(** Decides the comparisons of the goal that follow from the context. *)
Ltac decide_comparisons :=
  repeat match goal with
  | |- context [N.leb ?x ?y] =>
      first [ replace (N.leb x y) with true by (symmetry; apply N.leb_le; lia)
            | replace (N.leb x y) with false by (symmetry; apply N.leb_gt; lia) ]
  | |- context [N.ltb ?x ?y] =>
      first [ replace (N.ltb x y) with true by (symmetry; apply N.ltb_lt; lia)
            | replace (N.ltb x y) with false by (symmetry; apply N.ltb_ge; lia) ]
  | |- context [N.eqb ?x ?y] =>
      first [ replace (N.eqb x y) with true by (symmetry; apply N.eqb_eq; lia)
            | replace (N.eqb x y) with false by (symmetry; apply N.eqb_neq; lia) ]
  end.


(** *** Stripping *)

Lemma lstrip_spaces (ws : str) : forallb isspace ws = true -> lstrip ws = [].
Proof.
  induction ws as [|c ws IH]; simpl; [reflexivity|].
  intros H. apply andb_true_iff in H. destruct H as [-> H]. now apply IH.
Qed.

Lemma lstrip_app (a b : str) :
  lstrip (a ++ b) = if forallb isspace a then lstrip b else lstrip a ++ b.
Proof.
  induction a as [|c a IH]; simpl; [reflexivity|].
  destruct (isspace c); simpl; [exact IH | reflexivity].
Qed.

Lemma forallb_rev {A} (f : A -> bool) (l : list A) :
  forallb f (rev l) = forallb f l.
Proof.
  induction l as [|x l IH]; simpl; [reflexivity|].
  rewrite forallb_app, IH. simpl. rewrite andb_true_r. apply andb_comm.
Qed.

Lemma rstrip_app_spaces (s ws : str) :
  forallb isspace ws = true -> rstrip (s ++ ws) = rstrip s.
Proof.
  intros H. unfold rstrip. rewrite rev_app_distr, lstrip_app.
  now rewrite forallb_rev, H.
Qed.


(** *** Letter case *)










(** ** Dicts *)

Lemma dict_get_app (k : str) (d e : dict) :
  dict_get k (d ++ e) =
  match dict_get k d with Some v => Some v | None => dict_get k e end.
Proof.
  induction d as [|[k' v'] d IH]; simpl; [reflexivity|].
  destruct (str_eqb k k'); [reflexivity | exact IH].
Qed.

Lemma dict_get_In (k : str) (v : pyval) (d : dict) :
  dict_get k d = Some v -> In (k, v) d.
Proof.
  induction d as [|[k' v'] d IH]; simpl; [discriminate|].
  destruct (str_eqb k k') eqn:E.
  - intros H. injection H as ->. apply str_eqb_eq in E. subst. now left.
  - intros H. right. now apply IH.
Qed.

Lemma setdefault_extends (k : str) (v : pyval) (d : dict) :
  exists extra, setdefault k v d = d ++ extra.
Proof.
  unfold setdefault. destruct (dict_contains k d).
  - exists []. now rewrite app_nil_r.
  - now exists [(k, v)].
Qed.

Lemma setdefault_present (k : str) (v : pyval) (d : dict) :
  dict_contains k d = true -> setdefault k v d = d.
Proof. unfold setdefault. now intros ->. Qed.

Lemma dict_get_setdefault_kept (k k' : str) (v v' : pyval) (d : dict) :
  dict_get k d = Some v -> dict_get k (setdefault k' v' d) = Some v.
Proof.
  intros H. destruct (setdefault_extends k' v' d) as [extra ->].
  rewrite dict_get_app, H. reflexivity.
Qed.

Lemma dict_get_setdefault_filled (k : str) (v : pyval) (d : dict) :
  dict_get k d = None -> dict_get k (setdefault k v d) = Some v.
Proof.
  intros H. unfold setdefault, dict_contains. rewrite H.
  rewrite dict_get_app, H. simpl. now rewrite str_eqb_refl.
Qed.

Lemma dict_get_setdefault_other (k k' : str) (v' : pyval) (d : dict) :
  str_eqb k k' = false -> dict_get k (setdefault k' v' d) = dict_get k d.
Proof.
  intros H. unfold setdefault. destruct (dict_contains k' d); [reflexivity|].
  rewrite dict_get_app. simpl. rewrite H. now destruct (dict_get k d).
Qed.

Lemma dict_contains_setdefault (k : str) (v : pyval) (d : dict) :
  dict_contains k (setdefault k v d) = true.
Proof.
  unfold dict_contains at 1. destruct (dict_get k d) eqn:E.
  - now rewrite (dict_get_setdefault_kept k k p v d E).
  - now rewrite (dict_get_setdefault_filled k v d E).
Qed.

Lemma dict_contains_setdefault_kept (k k' : str) (v' : pyval) (d : dict) :
  dict_contains k d = true -> dict_contains k (setdefault k' v' d) = true.
Proof.
  unfold dict_contains. destruct (dict_get k d) eqn:E; [|discriminate].
  intros _. now rewrite (dict_get_setdefault_kept k k' p v' d E).
Qed.

Create HintDb setdefault.

#[local] Hint Resolve dict_contains_setdefault dict_contains_setdefault_kept
  : setdefault.

(** ** The five [setdefault] calls *)

Lemma ensure_required_keys_complete (d : dict) :
  has_required_keys (ensure_required_keys d) = true.
Proof.
  unfold has_required_keys, ensure_required_keys.
  repeat (apply andb_true_iff; split); auto 10 with setdefault.
Qed.

Lemma ensure_required_keys_extends (d : dict) :
  exists extra, ensure_required_keys d = d ++ extra.
Proof.
  unfold ensure_required_keys.
  destruct (setdefault_extends "summary" (PStr "") d) as [e1 ->].
  destruct (setdefault_extends "traceability_matrix" (PDict []) (d ++ e1)) as [e2 ->].
  destruct (setdefault_extends "missing_requirements" (PList []) ((d ++ e1) ++ e2))
    as [e3 ->].
  destruct (setdefault_extends "suggestions" (PList []) (((d ++ e1) ++ e2) ++ e3))
    as [e4 ->].
  destruct (setdefault_extends "detailed_analysis" (PStr "")
              ((((d ++ e1) ++ e2) ++ e3) ++ e4)) as [e5 ->].
  exists (e1 ++ e2 ++ e3 ++ e4 ++ e5). now rewrite <- !app_assoc.
Qed.

Lemma ensure_required_keys_kept (k : str) (v : pyval) (d : dict) :
  dict_get k d = Some v -> dict_get k (ensure_required_keys d) = Some v.
Proof.
  intros H. destruct (ensure_required_keys_extends d) as [extra ->].
  now rewrite dict_get_app, H.
Qed.

Lemma ensure_required_keys_id (d : dict) :
  has_required_keys d = true -> ensure_required_keys d = d.
Proof.
  unfold has_required_keys, ensure_required_keys. intros H.
  repeat (apply andb_true_iff in H; destruct H as [H ?]).
  rewrite (setdefault_present "summary") by assumption.
  rewrite (setdefault_present "traceability_matrix") by assumption.
  rewrite (setdefault_present "missing_requirements") by assumption.
  rewrite (setdefault_present "suggestions") by assumption.
  now rewrite (setdefault_present "detailed_analysis") by assumption.
Qed.

Lemma ensure_required_keys_filled (k : str) (dv : pyval) (d : dict) :
  default_of k = Some dv -> dict_get k d = None ->
  dict_get k (ensure_required_keys d) = Some dv.
Proof.
  unfold default_of, ensure_required_keys. intros Hk Hd.
  destruct (str_eqb k "summary") eqn:E1.
  { apply str_eqb_eq in E1. subst k. injection Hk as <-.
    do 4 apply dict_get_setdefault_kept. now apply dict_get_setdefault_filled. }
  destruct (str_eqb k "traceability_matrix") eqn:E2.
  { apply str_eqb_eq in E2. subst k. injection Hk as <-.
    do 3 apply dict_get_setdefault_kept. apply dict_get_setdefault_filled.
    now rewrite dict_get_setdefault_other. }
  destruct (str_eqb k "missing_requirements") eqn:E3.
  { apply str_eqb_eq in E3. subst k. injection Hk as <-.
    do 2 apply dict_get_setdefault_kept. apply dict_get_setdefault_filled.
    now rewrite !dict_get_setdefault_other. }
  destruct (str_eqb k "suggestions") eqn:E4.
  { apply str_eqb_eq in E4. subst k. injection Hk as <-.
    apply dict_get_setdefault_kept. apply dict_get_setdefault_filled.
    now rewrite !dict_get_setdefault_other. }
  destruct (str_eqb k "detailed_analysis") eqn:E5; [|discriminate].
  apply str_eqb_eq in E5. subst k. injection Hk as <-.
  apply dict_get_setdefault_filled. now rewrite !dict_get_setdefault_other.
Qed.

(** ** The normaliser, case by case *)

Lemma parse_llm_json_mapping (w : world) (text : pyval) (d : dict) :
  json_loads (py w) text = Return (PDict d) ->
  _parse_llm_json w text = ([], Return (PDict (ensure_required_keys d))).
Proof. intros H. unfold _parse_llm_json, lift, bind, try_except. now rewrite H. Qed.

Lemma parse_llm_json_heuristic (w : world) (text : pyval) :
  (forall d, json_loads (py w) text <> Return (PDict d)) ->
  _parse_llm_json w text =
  ([Log WARNING "LLM did not return valid JSON. Applying heuristic parse." []],
   Return (heuristic text)).
Proof.
  intros H. unfold _parse_llm_json, lift, bind, try_except.
  destruct (json_loads (py w) text) as [[]|]; try reflexivity.
  now contradiction (H d).
Qed.

Lemma parse_llm_json_returns (w : world) (text : pyval) :
  returns_result (_parse_llm_json w text).
Proof.
  destruct (json_loads (py w) text) as [v|e] eqn:E.
  - destruct v;
      try (rewrite parse_llm_json_heuristic by (rewrite E; discriminate);
           eexists _, _; split; [reflexivity | reflexivity]).
    rewrite (parse_llm_json_mapping w text d E).
    eexists _, _. split; [reflexivity | apply ensure_required_keys_complete].
  - rewrite parse_llm_json_heuristic by (rewrite E; discriminate).
    eexists _, _; split; reflexivity.
Qed.

(** ** The decoder and the recursion budget

    A value read within a budget is read the same within a larger one. *)

Section Containers_mono.

Variables scan1 scan2 : str -> scanned pyval.
Hypothesis scan_mono :
  forall s v rest, scan1 s = Scanned v rest -> scan2 s = Scanned v rest.

Lemma parse_array_items_mono (n : nat) :
  forall acc s v rest,
    parse_array_items scan1 n acc s = Scanned v rest ->
    parse_array_items scan2 n acc s = Scanned v rest.
Proof.
  induction n as [|n IH]; intros acc s v rest; simpl; [discriminate|].
  destruct (scan1 s) as [x s1| |] eqn:E; try discriminate.
  rewrite (scan_mono _ _ _ E).
  destruct (skip_ws s1) as [|c s2]; [discriminate|].
  destruct (c =? RBRACKET); [trivial|].
  destruct (c =? COMMA); [apply IH | discriminate].
Qed.

Lemma parse_object_items_mono (n : nat) :
  forall d s v rest,
    parse_object_items scan1 n d s = Scanned v rest ->
    parse_object_items scan2 n d s = Scanned v rest.
Proof.
  induction n as [|n IH]; intros d s v rest; simpl; [discriminate|].
  destruct s as [|q s1]; [discriminate|].
  destruct (q =? QUOTE); [|discriminate].
  destruct (scanstring s1) as [key s2| |]; try discriminate.
  destruct (skip_ws s2) as [|c s3]; [discriminate|].
  destruct (c =? COLON); [|discriminate].
  destruct (scan1 (skip_ws s3)) as [x s4| |] eqn:E; try discriminate.
  rewrite (scan_mono _ _ _ E).
  destruct (skip_ws s4) as [|c' s5]; [discriminate|].
  destruct (c' =? RBRACE); [trivial|].
  destruct (c' =? COMMA); [apply IH | discriminate].
Qed.

End Containers_mono.

(** [scan_once], one step unfolded, at any depth. *)
Lemma scan_once_cons (max_digits : N) (depth : nat) (c : char) (s' : str) :
  scan_once max_digits depth (c :: s') =
  if c =? QUOTE then
    match scanstring s' with
    | Scanned r rest => Scanned (PStr r) rest
    | Failed e => Failed e
    | Exhausted => Exhausted
    end
  else if c =? LBRACE then
    match depth with
    | O => Failed RecursionError
    | S depth' => parse_object (scan_once max_digits depth') s'
    end
  else if c =? LBRACKET then
    match depth with
    | O => Failed RecursionError
    | S depth' => parse_array (scan_once max_digits depth') s'
    end
  else scan_atom max_digits (c :: s').
Proof. destruct depth; reflexivity. Qed.

Lemma scan_once_S (max_digits : N) (depth : nat) (s : str) (v : pyval)
    (rest : str) :
  scan_once max_digits depth s = Scanned v rest ->
  scan_once max_digits (S depth) s = Scanned v rest.
Proof.
  revert s v rest. induction depth as [|depth IH]; intros s v rest;
    (destruct s as [|c s']; [discriminate|]); rewrite !scan_once_cons;
    (destruct (c =? QUOTE); [trivial|]).
  - destruct (c =? LBRACE); [discriminate|].
    destruct (c =? LBRACKET); [discriminate | trivial].
  - destruct (c =? LBRACE).
    { unfold parse_object. destruct (skip_ws s') as [|c1 s1]; [trivial|].
      destruct (c1 =? RBRACE); [trivial|].
      apply parse_object_items_mono. exact IH. }
    destruct (c =? LBRACKET); [|trivial].
    unfold parse_array. destruct (skip_ws s') as [|c1 s1]; [trivial|].
    destruct (c1 =? RBRACKET); [trivial|].
    apply parse_array_items_mono. exact IH.
Qed.

Lemma scan_once_mono (max_digits : N) (d d' : nat) (s : str) (v : pyval)
    (rest : str) :
  (d <= d')%nat ->
  scan_once max_digits d s = Scanned v rest ->
  scan_once max_digits d' s = Scanned v rest.
Proof.
  induction 1 as [|d' _ IH]; [trivial|]. intros H. now apply scan_once_S, IH.
Qed.

(** A text that decodes within some budget decodes to the same value in
    every interpreter that has at least that budget and the same digit
    limit. *)
Lemma json_loads_mono (py py' : interpreter) (text : str) (v : pyval) :
  (recursion_budget py <= recursion_budget py')%nat ->
  int_max_str_digits py = int_max_str_digits py' ->
  json_loads py (PStr text) = Return v -> json_loads py' (PStr text) = Return v.
Proof.
  intros Hb Hl. unfold json_loads.
  assert (Hd : decode py text = Return v -> decode py' text = Return v).
  { unfold decode. rewrite <- Hl.
    destruct (scan_once _ (recursion_budget py) (skip_ws text))
      as [x rest| |] eqn:E; try discriminate.
    now rewrite (scan_once_mono _ _ _ _ _ _ Hb E). }
  destruct text as [|c ?]; [exact Hd|].
  destruct (c =? 65279); [discriminate | exact Hd].
Qed.

(** ** The decoder reads on

    Every scanner consumes at least one character of what it reads, so
    the loops of [parse_array] and [parse_object], which start with more
    rounds than there are characters, end before the rounds do. *)

Lemma skip_ws_length (s : str) :
  (List.length (skip_ws s) <= List.length s)%nat.
Proof.
  induction s as [|c s IH]; simpl; [lia|].
  destruct (is_json_ws c); simpl; lia.
Qed.

Lemma span_digits_length (s : str) :
  (List.length (snd (span_digits s)) <= List.length s)%nat.
Proof.
  induction s as [|c s IH]; simpl; [lia|].
  destruct (is_digit c); [|simpl; lia].
  destruct (span_digits s) as [ds rest]. simpl in *. lia.
Qed.

Lemma scan_sign_length (s : str) :
  (List.length (snd (scan_sign s)) <= List.length s)%nat.
Proof.
  destruct s as [|c s]; simpl; [lia|]. destruct (c =? MINUS); simpl; lia.
Qed.

Lemma scan_int_part_length (s ds rest : str) :
  scan_int_part s = Some (ds, rest) ->
  (List.length rest < List.length s)%nat.
Proof.
  destruct s as [|c s]; simpl; [discriminate|].
  destruct ((49 <=? c) && (c <=? 57)).
  - pose proof (span_digits_length s) as H.
    destruct (span_digits s) as [ds' rest']. intros E. injection E as _ <-.
    simpl in H. lia.
  - destruct (c =? 48); [|discriminate]. intros E. injection E as _ <-. lia.
Qed.

Lemma scan_fraction_length (s : str) :
  (List.length (snd (scan_fraction s)) <= List.length s)%nat.
Proof.
  destruct s as [|p [|d s]]; simpl; try lia.
  destruct ((p =? DOT) && is_digit d); [|simpl; lia].
  pose proof (span_digits_length s) as H.
  destruct (span_digits s) as [fs rest]. simpl in *. lia.
Qed.

Lemma scan_exponent_length (s : str) :
  (List.length (snd (scan_exponent s)) <= List.length s)%nat.
Proof.
  destruct s as [|e s]; simpl; [lia|].
  destruct ((e =? 101) || (e =? 69)); [|simpl; lia].
  destruct s as [|g t].
  - simpl. lia.
  - destruct ((g =? MINUS) || (g =? PLUS)).
    + pose proof (span_digits_length t) as H.
      destruct (span_digits t) as [[|x es] rest]; simpl in *; lia.
    + pose proof (span_digits_length (g :: t)) as H.
      destruct (span_digits (g :: t)) as [[|x es] rest]; simpl in *; lia.
Qed.

Lemma match_number_productive (max_digits : N) :
  productive (match_number max_digits).
Proof.
  intros s. unfold match_number.
  pose proof (scan_sign_length s) as H1.
  destruct (scan_sign s) as [negative s1]. simpl in H1.
  destruct (scan_int_part s1) as [[ds s3]|] eqn:E; [|split; discriminate].
  apply scan_int_part_length in E.
  pose proof (scan_fraction_length s3) as H3.
  destruct (scan_fraction s3) as [frac s4]. simpl in H3.
  pose proof (scan_exponent_length s4) as H4.
  destruct (scan_exponent s4) as [expo s5]. simpl in H4.
  assert (Hlen : (List.length s5 < List.length s)%nat) by lia.
  destruct frac, expo; try destruct (int_of_digits max_digits negative ds);
    (split; [discriminate | intros v rest Heq; try discriminate Heq;
                            injection Heq as _ <-; exact Hlen]).
Qed.

Lemma strip_prefix_length (word s rest : str) :
  strip_prefix word s = Some rest ->
  (List.length rest + List.length word = List.length s)%nat.
Proof.
  revert s. induction word as [|w word IH]; intros s; simpl.
  - intros E. injection E as <-. lia.
  - destruct s as [|c s]; [discriminate|].
    destruct (w =? c); [|discriminate]. intros E. apply IH in E. simpl. lia.
Qed.

Lemma constant_productive (word : string) (v : pyval) (s : str)
    (r : scanned pyval) :
  (0 < List.length (lit word))%nat ->
  constant word v s = Some r ->
  r <> Exhausted
  /\ forall v' rest, r = Scanned v' rest ->
                     (List.length rest < List.length s)%nat.
Proof.
  intros Hw. unfold constant.
  destruct (strip_prefix word s) as [rest|] eqn:E; [|discriminate].
  apply strip_prefix_length in E. intros H. injection H as <-.
  split; [discriminate|]. intros v' rest' H. injection H as _ <-. lia.
Qed.

Lemma scan_atom_productive (max_digits : N) : productive (scan_atom max_digits).
Proof.
  intros s. unfold scan_atom.
  repeat match goal with
  | |- context [constant ?word ?v s] =>
      destruct (constant word v s) as [r|] eqn:?;
        [ now apply (constant_productive word v s r); [simpl; lia|] | ]
  end.
  apply match_number_productive.
Qed.

(** [scanstring] reads at least the closing quote. *)
Lemma scanstring_productive_within (n : nat) :
  forall s, (List.length s <= n)%nat ->
    scanstring s <> Exhausted
    /\ forall r rest, scanstring s = Scanned r rest ->
                      (List.length rest < List.length s)%nat.
Proof.
  induction n as [|n IH]; intros s Hn.
  - destruct s; [|simpl in Hn; lia]. split; discriminate.
  - destruct s as [|c s1]; [split; discriminate|]. simpl in Hn.
    assert (tail :
      forall x s', (List.length s' <= n)%nat ->
                   (List.length s' < List.length (c :: s1))%nat ->
        match scanstring s' with
        | Scanned r rest => Scanned (x :: r) rest
        | other => other
        end <> Exhausted
        /\ forall r rest,
             match scanstring s' with
             | Scanned r rest => Scanned (x :: r) rest
             | other => other
             end = Scanned r rest ->
             (List.length rest < List.length (c :: s1))%nat).
    { intros x s' Hs' Hlt. destruct (IH s' Hs') as [Hne Hlen].
      destruct (scanstring s') as [r0 rest0| |]; [|split; discriminate|contradiction].
      split; [discriminate|]. intros r rest E. injection E as _ <-.
      specialize (Hlen r0 rest0 eq_refl). lia. }
    cbn [scanstring].
    repeat first
      [ match goal with
        | |- context [if ?b then _ else _] => destruct b
        | |- context [match hex4 ?a ?b ?c ?d with _ => _ end] =>
            destruct (hex4 a b c d)
        | |- context [match simple_escape ?e with _ => _ end] =>
            destruct (simple_escape e)
        | |- context [match ?l with [] => _ | _ :: _ => _ end] =>
            is_var l; destruct l
        end ];
    try (split; [discriminate | intros r rest E; try discriminate E;
                               injection E as _ <-; simpl; lia]);
    try (apply tail; simpl in *; lia).
Qed.

Lemma scanstring_productive : productive scanstring.
Proof. intros s. now apply (scanstring_productive_within (List.length s)). Qed.

Section Containers_productive.

Variable scan : str -> scanned pyval.
Hypothesis scan_productive : productive scan.

Lemma parse_array_items_productive (n : nat) :
  forall acc s, (List.length s < n)%nat ->
    parse_array_items scan n acc s <> Exhausted
    /\ forall v rest, parse_array_items scan n acc s = Scanned v rest ->
                      (List.length rest < List.length s)%nat.
Proof.
  induction n as [|n IH]; intros acc s Hn; [lia|]. cbn [parse_array_items].
  destruct (scan_productive s) as [Hne Hlen].
  destruct (scan s) as [x s1| |]; [|split; discriminate|contradiction].
  specialize (Hlen x s1 eq_refl).
  pose proof (skip_ws_length s1) as Hw.
  destruct (skip_ws s1) as [|c s2]; [split; discriminate|]. simpl in Hw.
  destruct (c =? RBRACKET).
  { split; [discriminate|]. intros v rest E. injection E as _ <-. lia. }
  destruct (c =? COMMA); [|split; discriminate].
  pose proof (skip_ws_length s2) as Hw2.
  destruct (IH (x :: acc) (skip_ws s2)) as [Hne' Hlen']; [lia|].
  split; [exact Hne'|]. intros v rest E. specialize (Hlen' v rest E). lia.
Qed.

Lemma parse_array_productive (s : str) :
  parse_array scan s <> Exhausted
  /\ forall v rest, parse_array scan s = Scanned v rest ->
                    (List.length rest <= List.length s)%nat.
Proof.
  unfold parse_array. pose proof (skip_ws_length s) as Hw.
  destruct (skip_ws s) as [|c s1] eqn:E; [split; discriminate|].
  destruct (c =? RBRACKET).
  { split; [discriminate|]. intros v rest H. injection H as _ <-.
    simpl in Hw. lia. }
  destruct (parse_array_items_productive (S (List.length s)) [] (c :: s1))
    as [Hne Hlen]; [lia|].
  split; [exact Hne|]. intros v rest H. specialize (Hlen v rest H). lia.
Qed.

Lemma parse_object_items_productive (n : nat) :
  forall d s, (List.length s < n)%nat ->
    parse_object_items scan n d s <> Exhausted
    /\ forall v rest, parse_object_items scan n d s = Scanned v rest ->
                      (List.length rest < List.length s)%nat.
Proof.
  induction n as [|n IH]; intros d s Hn; [lia|]. cbn [parse_object_items].
  destruct s as [|q s1]; [split; discriminate|]. simpl in Hn.
  destruct (q =? QUOTE); [|split; discriminate].
  destruct (scanstring_productive s1) as [Hne1 Hlen1].
  destruct (scanstring s1) as [key s2| |]; [|split; discriminate|contradiction].
  specialize (Hlen1 key s2 eq_refl).
  pose proof (skip_ws_length s2) as Hw2.
  destruct (skip_ws s2) as [|c s3]; [split; discriminate|]. simpl in Hw2.
  destruct (c =? COLON); [|split; discriminate].
  pose proof (skip_ws_length s3) as Hw3.
  destruct (scan_productive (skip_ws s3)) as [Hne Hlen].
  destruct (scan (skip_ws s3)) as [x s4| |]; [|split; discriminate|contradiction].
  specialize (Hlen x s4 eq_refl).
  pose proof (skip_ws_length s4) as Hw4.
  destruct (skip_ws s4) as [|c' s5]; [split; discriminate|]. simpl in Hw4.
  destruct (c' =? RBRACE).
  { split; [discriminate|]. intros v rest E. injection E as _ <-. simpl. lia. }
  destruct (c' =? COMMA); [|split; discriminate].
  pose proof (skip_ws_length s5) as Hw5.
  destruct (IH (dict_setitem key x d) (skip_ws s5)) as [Hne' Hlen']; [lia|].
  split; [exact Hne'|]. intros v rest E. specialize (Hlen' v rest E).
  simpl. lia.
Qed.

Lemma parse_object_productive (s : str) :
  parse_object scan s <> Exhausted
  /\ forall v rest, parse_object scan s = Scanned v rest ->
                    (List.length rest <= List.length s)%nat.
Proof.
  unfold parse_object. pose proof (skip_ws_length s) as Hw.
  destruct (skip_ws s) as [|c s1] eqn:E; [split; discriminate|].
  destruct (c =? RBRACE).
  { split; [discriminate|]. intros v rest H. injection H as _ <-.
    simpl in Hw. lia. }
  destruct (parse_object_items_productive (S (List.length s)) [] (c :: s1))
    as [Hne Hlen]; [lia|].
  split; [exact Hne|]. intros v rest H. specialize (Hlen v rest H). lia.
Qed.

End Containers_productive.

(** The scanner reads at least one character of every value, and the
    loop counters of the containers are never used up. *)
Lemma scan_once_productive (max_digits : N) (depth : nat) :
  productive (scan_once max_digits depth).
Proof.
  induction depth as [|depth IH]; intros s;
    (destruct s as [|c s']; [split; discriminate|]); rewrite scan_once_cons;
    (destruct (c =? QUOTE);
     [ destruct (scanstring_productive s') as [Hne Hlen];
       destruct (scanstring s') as [r rest| |];
       [ split; [discriminate|]; intros v rest' E; injection E as _ <-;
         specialize (Hlen r rest eq_refl); simpl; lia
       | split; discriminate
       | contradiction ] |]).
  - destruct (c =? LBRACE); [split; discriminate|].
    destruct (c =? LBRACKET); [split; discriminate|].
    apply scan_atom_productive.
  - destruct (c =? LBRACE).
    { destruct (parse_object_productive _ IH s') as [Hne Hlen].
      split; [exact Hne|]. intros v rest E. specialize (Hlen v rest E).
      simpl. lia. }
    destruct (c =? LBRACKET).
    { destruct (parse_array_productive _ IH s') as [Hne Hlen].
      split; [exact Hne|]. intros v rest E. specialize (Hlen v rest E).
      simpl. lia. }
    apply scan_atom_productive.
Qed.

(** The decoder never runs out of loop counter: what it raises is one of
    the exceptions of [json.loads]. *)
Lemma scan_once_total (max_digits : N) (depth : nat) (s : str) :
  scan_once max_digits depth s <> Exhausted.
Proof. apply scan_once_productive. Qed.

(** One more opening bracket than the budget allows is a
    [RecursionError], whatever follows. *)
Lemma scan_once_too_deep (max_digits : N) (depth : nat) (rest : str) :
  scan_once max_digits depth (repeat LBRACKET (S depth) ++ rest)
  = Failed RecursionError.
Proof.
  induction depth as [|depth IH]; [reflexivity|].
  change (repeat LBRACKET (S (S depth)) ++ rest)
    with (LBRACKET :: repeat LBRACKET (S depth) ++ rest).
  rewrite scan_once_cons. change (LBRACKET =? QUOTE) with false.
  change (LBRACKET =? LBRACE) with false. change (LBRACKET =? LBRACKET) with true.
  cbv iota. unfold parse_array.
  change (skip_ws (repeat LBRACKET (S depth) ++ rest))
    with (LBRACKET :: repeat LBRACKET depth ++ rest).
  change (LBRACKET =? RBRACKET) with false. cbv iota.
  cbn [parse_array_items].
  change (LBRACKET :: repeat LBRACKET depth ++ rest)
    with (repeat LBRACKET (S depth) ++ rest).
  now rewrite IH.
Qed.

Lemma json_loads_too_deep (py : interpreter) (rest : str) :
  json_loads py (PStr (repeat LBRACKET (S (recursion_budget py)) ++ rest))
  = Raise RecursionError.
Proof.
  unfold json_loads.
  change (repeat LBRACKET (S (recursion_budget py)) ++ rest)
    with (LBRACKET :: repeat LBRACKET (recursion_budget py) ++ rest) at 1.
  change (LBRACKET =? 65279) with false. cbv iota. unfold decode.
  change (skip_ws (repeat LBRACKET (S (recursion_budget py)) ++ rest))
    with (repeat LBRACKET (S (recursion_budget py)) ++ rest).
  now rewrite scan_once_too_deep.
Qed.

(** ** The encoder against the decoder *)

(** *** Strings *)

Lemma scanstring_plain (c : char) (s1 : str) :
  c <> QUOTE -> c <> BACKSLASH -> 31 < c ->
  scanstring (c :: s1) =
  match scanstring s1 with
  | Scanned r rest => Scanned (c :: r) rest
  | other => other
  end.
Proof.
  intros H1 H2 H3. simpl.
  rewrite (proj2 (N.eqb_neq c QUOTE) H1), (proj2 (N.eqb_neq c BACKSLASH) H2).
  rewrite (proj2 (N.leb_gt c 31) H3). reflexivity.
Qed.

Lemma scanstring_simple_escape (e c' : char) (s2 : str) :
  e <> 117 -> simple_escape e = Some c' ->
  scanstring (BACKSLASH :: e :: s2) =
  match scanstring s2 with
  | Scanned r rest => Scanned (c' :: r) rest
  | other => other
  end.
Proof.
  intros H1 H2. simpl. rewrite (proj2 (N.eqb_neq e 117) H1), H2. reflexivity.
Qed.

Lemma scanstring_u (h1 h2 h3 h4 : char) (u : N) (s3 : str) :
  hex4 h1 h2 h3 h4 = Some u -> is_high_surrogate u = false ->
  scanstring (BACKSLASH :: 117 :: h1 :: h2 :: h3 :: h4 :: s3) =
  match scanstring s3 with
  | Scanned r rest => Scanned (u :: r) rest
  | other => other
  end.
Proof.
  intros H1 H2. simpl. rewrite H1, H2. reflexivity.
Qed.

Lemma scanstring_pair (h1 h2 h3 h4 k1 k2 k3 k4 : char) (u u2 : N) (s5 : str) :
  hex4 h1 h2 h3 h4 = Some u -> is_high_surrogate u = true ->
  hex4 k1 k2 k3 k4 = Some u2 -> is_low_surrogate u2 = true ->
  scanstring (BACKSLASH :: 117 :: h1 :: h2 :: h3 :: h4
              :: BACKSLASH :: 117 :: k1 :: k2 :: k3 :: k4 :: s5) =
  match scanstring s5 with
  | Scanned r rest => Scanned (join_surrogates u u2 :: r) rest
  | other => other
  end.
Proof.
  intros H1 H2 H3 H4. simpl. rewrite H1, H2, H3, H4. reflexivity.
Qed.

(** *** Hexadecimal digits and surrogate halves *)

Lemma land_shiftl_low (x d k : N) : d < 2 ^ k -> N.land (N.shiftl x k) d = 0.
Proof.
  intros H. apply N.bits_inj_0. intros i. rewrite N.land_spec.
  destruct (N.lt_ge_cases i k) as [Hi|Hi].
  - now rewrite N.shiftl_spec_low.
  - destruct (N.eq_dec d 0) as [->|Hd].
    + now rewrite N.bits_0, andb_false_r.
    + rewrite (N.bits_above_log2 d i), andb_false_r; [reflexivity|].
      apply N.lt_le_trans with k; [|exact Hi].
      apply N.log2_lt_pow2; lia.
Qed.

Lemma lor_shiftl (x d k : N) :
  d < 2 ^ k -> N.lor (N.shiftl x k) d = x * 2 ^ k + d.
Proof.
  intros H. rewrite <- N.lxor_lor by now apply land_shiftl_low.
  rewrite <- N.add_nocarry_lxor by now apply land_shiftl_low.
  now rewrite N.shiftl_mul_pow2.
Qed.

Lemma hex_value_hex_digit (d : N) : d < 16 -> hex_value (hex_digit d) = Some d.
Proof.
  intros H. unfold hex_digit, hex_value, is_digit.
  destruct (N.ltb_spec d 10).
  - decide_comparisons. cbn [andb]. f_equal. lia.
  - decide_comparisons. cbn [andb]. f_equal. lia.
Qed.

Lemma nibble (n k : N) : N.land (N.shiftr n k) 15 = (n / 2 ^ k) mod 16.
Proof.
  rewrite N.shiftr_div_pow2. change 15 with (N.ones 4). now rewrite N.land_ones.
Qed.

Ltac Zify.zify_post_hook ::= Z.to_euclidean_division_equations.

Lemma hex4_u_escape (n : N) :
  n < 65536 ->
  hex4 (hex_digit (N.land (N.shiftr n 12) 15))
       (hex_digit (N.land (N.shiftr n 8) 15))
       (hex_digit (N.land (N.shiftr n 4) 15))
       (hex_digit (N.land n 15)) = Some n.
Proof.
  intros H. unfold hex4.
  rewrite !nibble. change 15 with (N.ones 4). rewrite N.land_ones.
  rewrite !hex_value_hex_digit by (apply N.mod_lt; lia).
  f_equal.
  rewrite !(lor_shiftl _ _ 4) by (apply N.mod_lt; lia).
  change (2 ^ 12) with 4096. change (2 ^ 8) with 256. change (2 ^ 4) with 16.
  lia.
Qed.


Lemma scanstring_u_escape (n : N) (s3 : str) :
  n < 65536 -> is_high_surrogate n = false ->
  scanstring (u_escape n ++ s3) =
  match scanstring s3 with
  | Scanned r rest => Scanned (n :: r) rest
  | other => other
  end.
Proof.
  intros H1 H2. unfold u_escape. cbn [app].
  apply scanstring_u; [now apply hex4_u_escape | exact H2].
Qed.

Lemma high_half_eq (c : N) :
  65536 <= c < 1114112 -> high_half c = 55296 + (c - 65536) / 1024.
Proof.
  intros H. unfold high_half.
  change 55296 with (N.shiftl 54 10) at 1.
  change 1023 with (N.ones 10). rewrite N.land_ones, N.shiftr_div_pow2.
  rewrite lor_shiftl by (apply N.mod_lt; discriminate).
  change (2 ^ 10) with 1024. lia.
Qed.

Lemma low_half_eq (c : N) :
  low_half c = 56320 + (c - 65536) mod 1024.
Proof.
  unfold low_half.
  change 56320 with (N.shiftl 55 10) at 1.
  change 1023 with (N.ones 10). rewrite N.land_ones.
  rewrite lor_shiftl by (apply N.mod_lt; discriminate).
  change (2 ^ 10) with 1024. lia.
Qed.

Lemma join_halves (c : N) :
  65536 <= c < 1114112 -> join_surrogates (high_half c) (low_half c) = c.
Proof.
  intros H. unfold join_surrogates.
  rewrite high_half_eq, low_half_eq by exact H.
  change 1023 with (N.ones 10). rewrite !N.land_ones.
  rewrite lor_shiftl by (apply N.mod_lt; discriminate).
  change (2 ^ 10) with 1024. lia.
Qed.

Lemma high_half_range (c : N) :
  65536 <= c < 1114112 -> 55296 <= high_half c <= 56319.
Proof. intros H. rewrite high_half_eq by exact H. lia. Qed.

Lemma low_half_range (c : N) : 56320 <= low_half c <= 57343.
Proof. rewrite low_half_eq. lia. Qed.

Lemma scanstring_u_alone (h1 h2 h3 h4 : char) (u : N) (s3 : str) :
  hex4 h1 h2 h3 h4 = Some u -> low_escape_ahead s3 = false ->
  scanstring (BACKSLASH :: 117 :: h1 :: h2 :: h3 :: h4 :: s3) =
  match scanstring s3 with
  | Scanned r rest => Scanned (u :: r) rest
  | other => other
  end.
Proof.
  intros H1 H2. cbn [scanstring]. change (BACKSLASH =? QUOTE) with false.
  change (BACKSLASH =? BACKSLASH) with true. change (117 =? 117) with true.
  cbv iota. rewrite H1. destruct (is_high_surrogate u); [|reflexivity].
  destruct s3 as [|b [|u' [|k1 [|k2 [|k3 [|k4 s5]]]]]];
    try reflexivity; try (destruct (b =? BACKSLASH); reflexivity).
  cbn [low_escape_ahead] in H2.
  destruct (b =? BACKSLASH); [|reflexivity].
  destruct (u' =? 117); [|reflexivity].
  destruct (hex4 k1 k2 k3 k4) as [u2|]; [|discriminate H2].
  cbn [andb] in H2. now rewrite H2.
Qed.

Lemma is_code_point_range (c : char) : is_code_point c = true -> c < 1114112.
Proof. apply N.ltb_lt. Qed.

Lemma is_high_surrogate_range (c : char) :
  is_high_surrogate c = true -> 55296 <= c <= 56319.
Proof.
  unfold is_high_surrogate. intros H. apply andb_true_iff in H.
  destruct H as [H1 H2]. apply N.leb_le in H1, H2. lia.
Qed.

(** What [json.dumps] writes for a character that is not a high
    surrogate is read back as that character, whatever follows. *)
Lemma scanstring_escape_char (c : char) (tail r rest : str) :
  is_code_point c = true -> is_high_surrogate c = false ->
  scanstring tail = Scanned r rest ->
  scanstring (escape_char c ++ tail) = Scanned (c :: r) rest.
Proof.
  intros Hc Hh Ht. apply is_code_point_range in Hc. unfold escape_char.
  destruct (N.eqb_spec c QUOTE) as [->|H1].
  { cbn [app]. rewrite (scanstring_simple_escape QUOTE QUOTE) by (reflexivity || discriminate). now rewrite Ht. }
  destruct (N.eqb_spec c BACKSLASH) as [->|H2].
  { cbn [app]. rewrite (scanstring_simple_escape BACKSLASH BACKSLASH) by (reflexivity || discriminate). now rewrite Ht. }
  destruct (N.eqb_spec c 10) as [->|H3].
  { cbn [app]. rewrite (scanstring_simple_escape 110 10) by (reflexivity || discriminate). now rewrite Ht. }
  destruct (N.eqb_spec c 13) as [->|H4].
  { cbn [app]. rewrite (scanstring_simple_escape 114 13) by (reflexivity || discriminate). now rewrite Ht. }
  destruct (N.eqb_spec c 9) as [->|H5].
  { cbn [app]. rewrite (scanstring_simple_escape 116 9) by (reflexivity || discriminate). now rewrite Ht. }
  destruct (N.eqb_spec c 8) as [->|H6].
  { cbn [app]. rewrite (scanstring_simple_escape 98 8) by (reflexivity || discriminate). now rewrite Ht. }
  destruct (N.eqb_spec c 12) as [->|H7].
  { cbn [app]. rewrite (scanstring_simple_escape 102 12) by (reflexivity || discriminate). now rewrite Ht. }
  destruct ((32 <=? c) && (c <=? 126)) eqn:Hp.
  { apply andb_true_iff in Hp. destruct Hp as [Hp1 Hp2].
    apply N.leb_le in Hp1, Hp2. cbn [app].
    rewrite scanstring_plain by (assumption || lia). now rewrite Ht. }
  destruct (N.ltb_spec c 65536) as [Hlt|Hge].
  { rewrite scanstring_u_escape; [now rewrite Ht | exact Hlt | exact Hh]. }
  assert (Hr : 65536 <= c < 1114112) by lia.
  fold (high_half c). fold (low_half c).
  pose proof (high_half_range c Hr) as Hhi. pose proof (low_half_range c) as Hlo.
  unfold u_escape. cbn [app].
  rewrite (scanstring_pair _ _ _ _ _ _ _ _ (high_half c) (low_half c)).
  - rewrite Ht. now rewrite join_halves.
  - apply hex4_u_escape. lia.
  - unfold is_high_surrogate. decide_comparisons. reflexivity.
  - apply hex4_u_escape. lia.
  - unfold is_low_surrogate. decide_comparisons. reflexivity.
Qed.

(** A high surrogate is written as one escape, and read back alone when
    the escape of a low surrogate does not follow. *)
Lemma scanstring_escape_high (c : char) (tail r rest : str) :
  is_high_surrogate c = true -> low_escape_ahead tail = false ->
  scanstring tail = Scanned r rest ->
  scanstring (escape_char c ++ tail) = Scanned (c :: r) rest.
Proof.
  intros Hh Ha Ht. apply is_high_surrogate_range in Hh.
  unfold escape_char, QUOTE, BACKSLASH. decide_comparisons. cbn [andb].
  unfold u_escape. cbn [app].
  rewrite (scanstring_u_alone _ _ _ _ c); [now rewrite Ht | | exact Ha].
  apply hex4_u_escape. lia.
Qed.

(** What [json.dumps] writes for a character that is not a low surrogate
    does not look like the escape of one. *)
Lemma low_escape_ahead_escape_char (c : char) (tail : str) :
  is_code_point c = true -> is_low_surrogate c = false ->
  low_escape_ahead (escape_char c ++ tail) = false.
Proof.
  intros Hc Hl. apply is_code_point_range in Hc. unfold escape_char.
  destruct (c =? QUOTE); [reflexivity|].
  destruct (N.eqb_spec c BACKSLASH) as [->|Hb]; [reflexivity|].
  destruct (c =? 10); [reflexivity|].
  destruct (c =? 13); [reflexivity|].
  destruct (c =? 9); [reflexivity|].
  destruct (c =? 8); [reflexivity|].
  destruct (c =? 12); [reflexivity|].
  destruct ((32 <=? c) && (c <=? 126)).
  { cbn [app low_escape_ahead].
    now rewrite (proj2 (N.eqb_neq c BACKSLASH) Hb). }
  destruct (N.ltb_spec c 65536) as [Hlt|Hge].
  { unfold u_escape. cbn [app low_escape_ahead].
    rewrite hex4_u_escape by exact Hlt. exact Hl. }
  assert (Hr : 65536 <= c < 1114112) by lia.
  fold (high_half c). fold (low_half c).
  pose proof (high_half_range c Hr) as Hhi.
  unfold u_escape. cbn [app low_escape_ahead].
  rewrite hex4_u_escape by lia.
  unfold is_low_surrogate. decide_comparisons. reflexivity.
Qed.

Lemma low_escape_ahead_encoded (s rest : str) :
  forallb is_code_point s = true ->
  match s with c :: _ => is_low_surrogate c = false | [] => True end ->
  low_escape_ahead (flat_map escape_char s ++ QUOTE :: rest) = false.
Proof.
  destruct s as [|c s]; [reflexivity|]. cbn [forallb flat_map].
  intros Hc Hl. apply andb_true_iff in Hc. destruct Hc as [Hc _].
  rewrite <- app_assoc. now apply low_escape_ahead_escape_char.
Qed.

(** [json.loads] reads back the string [json.dumps] wrote. *)
Lemma scanstring_encoded (s rest : str) :
  is_text s = true ->
  scanstring (flat_map escape_char s ++ QUOTE :: rest) = Scanned s rest.
Proof.
  unfold is_text. induction s as [|c s IH]; intros H; [reflexivity|].
  apply andb_true_iff in H. destruct H as [Hcp Hpair].
  assert (Hs : forallb is_code_point s = true /\ no_surrogate_pair s = true).
  { cbn [forallb] in Hcp. apply andb_true_iff in Hcp.
    destruct s as [|c' s']; [now split|].
    cbn [no_surrogate_pair] in Hpair. apply andb_true_iff in Hpair. tauto. }
  cbn [forallb] in Hcp. apply andb_true_iff in Hcp. destruct Hcp as [Hc _].
  specialize (IH (proj2 (andb_true_iff _ _) Hs)).
  cbn [flat_map]. rewrite <- app_assoc.
  destruct (is_high_surrogate c) eqn:Hh.
  - apply scanstring_escape_high; [exact Hh | | exact IH].
    apply low_escape_ahead_encoded; [tauto|].
    destruct s as [|c' s']; [exact I|].
    cbn [no_surrogate_pair] in Hpair. rewrite Hh in Hpair.
    apply andb_true_iff in Hpair. destruct Hpair as [Hpair _].
    now destruct (is_low_surrogate c').
  - now apply scanstring_escape_char.
Qed.

(** The condition on surrogates is needed: the two surrogates of U+1F600,
    held as two characters, are written as two escapes and read back as
    one character. *)
Lemma surrogate_pair_is_joined (rest : str) :
  scanstring (flat_map escape_char [55357; 56832] ++ QUOTE :: rest)
  = Scanned [128512] rest.
Proof. reflexivity. Qed.

Lemma scan_once_string (max_digits : N) (depth : nat) (s rest : str) :
  is_text s = true ->
  scan_once max_digits depth (encode_basestring_ascii s ++ rest)
  = Scanned (PStr s) rest.
Proof.
  intros H. unfold encode_basestring_ascii. cbn [app].
  rewrite scan_once_cons. cbn [N.eqb QUOTE Pos.eqb].
  rewrite <- app_assoc. cbn [app]. now rewrite scanstring_encoded.
Qed.

(** *** One item of a container *)

Lemma scan_once_array (max_digits : N) (depth : nat) (s : str) :
  scan_once max_digits (S depth) (LBRACKET :: s)
  = parse_array (scan_once max_digits depth) s.
Proof. reflexivity. Qed.

Lemma scan_once_object (max_digits : N) (depth : nat) (s : str) :
  scan_once max_digits (S depth) (LBRACE :: s)
  = parse_object (scan_once max_digits depth) s.
Proof. reflexivity. Qed.

Lemma skip_ws_encoded (s rest : str) :
  skip_ws (encode_basestring_ascii s ++ rest) = encode_basestring_ascii s ++ rest.
Proof. reflexivity. Qed.

Section Containers_steps.

Variable scan : str -> scanned pyval.

Lemma parse_array_items_fuel (n : nat) :
  forall m acc s v rest,
    parse_array_items scan n acc s = Scanned v rest -> (n <= m)%nat ->
    parse_array_items scan m acc s = Scanned v rest.
Proof.
  induction n as [|n IH]; intros m acc s v rest; simpl; [discriminate|].
  intros H Hm. destruct m as [|m]; [lia|]. simpl.
  destruct (scan s) as [x s1| |]; try discriminate.
  destruct (skip_ws s1) as [|c s2]; [discriminate|].
  destruct (c =? RBRACKET); [exact H|].
  destruct (c =? COMMA); [|discriminate]. apply IH; [exact H | lia].
Qed.

Lemma parse_object_items_fuel (n : nat) :
  forall m d s v rest,
    parse_object_items scan n d s = Scanned v rest -> (n <= m)%nat ->
    parse_object_items scan m d s = Scanned v rest.
Proof.
  induction n as [|n IH]; intros m d s v rest; simpl; [discriminate|].
  intros H Hm. destruct m as [|m]; [lia|]. simpl.
  destruct s as [|q s1]; [discriminate|].
  destruct (q =? QUOTE); [|discriminate].
  destruct (scanstring s1) as [key s2| |]; try discriminate.
  destruct (skip_ws s2) as [|c s3]; [discriminate|].
  destruct (c =? COLON); [|discriminate].
  destruct (scan (skip_ws s3)) as [x s4| |]; try discriminate.
  destruct (skip_ws s4) as [|c' s5]; [discriminate|].
  destruct (c' =? RBRACE); [exact H|].
  destruct (c' =? COMMA); [|discriminate]. apply IH; [exact H | lia].
Qed.

Lemma parse_array_items_last (n : nat) (acc : list pyval) (vtext : str)
    (v : pyval) (rest : str) :
  reads scan vtext v ->
  parse_array_items scan (S n) acc (vtext ++ RBRACKET :: rest)
  = Scanned (PList (rev (v :: acc))) rest.
Proof.
  intros Hv. cbn [parse_array_items].
  now rewrite (proj2 (Hv (RBRACKET :: rest))).
Qed.

Lemma parse_array_items_more (n : nat) (acc : list pyval) (vtext : str)
    (v : pyval) (tail : str) :
  reads scan vtext v -> skip_ws tail = tail ->
  parse_array_items scan (S n) acc (vtext ++ lit ", " ++ tail)
  = parse_array_items scan n (v :: acc) tail.
Proof.
  intros Hv Ht. cbn [parse_array_items].
  rewrite (proj2 (Hv (lit ", " ++ tail))).
  change (lit ", " ++ tail) with (COMMA :: SPACE :: tail).
  change (skip_ws (COMMA :: SPACE :: tail)) with (COMMA :: SPACE :: tail).
  change (COMMA =? RBRACKET) with false. change (COMMA =? COMMA) with true.
  cbv iota. change (skip_ws (SPACE :: tail)) with (skip_ws tail).
  now rewrite Ht.
Qed.

Lemma parse_object_items_last (n : nat) (d : dict) (key vtext : str)
    (v : pyval) (rest : str) :
  is_text key = true -> reads scan vtext v ->
  parse_object_items scan (S n) d
    (encode_basestring_ascii key ++ lit ": " ++ vtext ++ RBRACE :: rest)
  = Scanned (PDict (dict_setitem key v d)) rest.
Proof.
  intros Hk Hv. unfold encode_basestring_ascii.
  cbn [parse_object_items app]. change (QUOTE =? QUOTE) with true. cbv iota.
  rewrite <- app_assoc. cbn [app]. rewrite scanstring_encoded by exact Hk.
  change (lit ": " ++ vtext ++ RBRACE :: rest)
    with (COLON :: SPACE :: vtext ++ RBRACE :: rest).
  change (skip_ws (COLON :: SPACE :: vtext ++ RBRACE :: rest))
    with (COLON :: SPACE :: vtext ++ RBRACE :: rest).
  change (COLON =? COLON) with true. cbv iota.
  change (skip_ws (SPACE :: vtext ++ RBRACE :: rest))
    with (skip_ws (vtext ++ RBRACE :: rest)).
  rewrite (proj1 (Hv (RBRACE :: rest))), (proj2 (Hv (RBRACE :: rest))).
  reflexivity.
Qed.

Lemma parse_object_items_more (n : nat) (d : dict) (key vtext : str)
    (v : pyval) (tail : str) :
  is_text key = true -> reads scan vtext v -> skip_ws tail = tail ->
  parse_object_items scan (S n) d
    (encode_basestring_ascii key ++ lit ": " ++ vtext ++ lit ", " ++ tail)
  = parse_object_items scan n (dict_setitem key v d) tail.
Proof.
  intros Hk Hv Ht. unfold encode_basestring_ascii.
  cbn [parse_object_items app]. change (QUOTE =? QUOTE) with true. cbv iota.
  rewrite <- app_assoc. cbn [app]. rewrite scanstring_encoded by exact Hk.
  change (lit ": " ++ vtext ++ lit ", " ++ tail)
    with (COLON :: SPACE :: vtext ++ lit ", " ++ tail).
  change (skip_ws (COLON :: SPACE :: vtext ++ lit ", " ++ tail))
    with (COLON :: SPACE :: vtext ++ lit ", " ++ tail).
  change (COLON =? COLON) with true. cbv iota.
  change (skip_ws (SPACE :: vtext ++ lit ", " ++ tail))
    with (skip_ws (vtext ++ lit ", " ++ tail)).
  rewrite (proj1 (Hv (lit ", " ++ tail))), (proj2 (Hv (lit ", " ++ tail))).
  change (lit ", " ++ tail) with (COMMA :: SPACE :: tail).
  change (skip_ws (COMMA :: SPACE :: tail)) with (COMMA :: SPACE :: tail).
  change (COMMA =? RBRACE) with false. change (COMMA =? COMMA) with true.
  cbv iota. change (skip_ws (SPACE :: tail)) with (skip_ws tail).
  now rewrite Ht.
Qed.

End Containers_steps.

Lemma reads_string (max_digits : N) (depth : nat) (s : str) :
  is_text s = true ->
  reads (scan_once max_digits depth) (encode_basestring_ascii s) (PStr s).
Proof.
  intros H rest. split; [reflexivity | now apply scan_once_string].
Qed.

(** *** Lists of strings *)

Lemma join_starts_with_quote (items : list str) (x : str) (rest : str) :
  skip_ws (join ", " (List.map item_text (x :: items)) ++ rest)
  = join ", " (List.map item_text (x :: items)) ++ rest.
Proof. destruct items; reflexivity. Qed.

Section Strings.

Variable scan : str -> scanned pyval.
Hypothesis scan_string :
  forall s, is_text s = true -> reads scan (encode_basestring_ascii s) (PStr s).

Lemma parse_array_items_strings (items : list str) :
  forall (x : str) (acc : list pyval) (rest : str),
    Forall (fun s => is_text s = true) (x :: items) ->
    parse_array_items scan (S (List.length items)) acc
      (join ", " (List.map item_text (x :: items)) ++ RBRACKET :: rest)
    = Scanned (PList (rev acc ++ List.map PStr (x :: items))) rest.
Proof.
  induction items as [|y items IH]; intros x acc rest H;
    inversion H as [|? ? Hx Hrest]; subst.
  - cbn [List.map join].
    rewrite (parse_array_items_last scan _ _ (item_text x) (PStr x))
      by now apply scan_string.
    reflexivity.
  - change (join ", " (List.map item_text (x :: y :: items)))
      with (item_text x ++ lit ", " ++ join ", " (List.map item_text (y :: items))).
    rewrite <- !app_assoc.
    change (List.length (y :: items)) with (S (List.length items)).
    rewrite (parse_array_items_more scan _ _ (item_text x) (PStr x));
      [| now apply scan_string | apply join_starts_with_quote].
    rewrite IH by exact Hrest. cbn [rev List.map]. now rewrite <- app_assoc.
Qed.

Lemma length_join_items (items : list str) :
  (List.length items <= List.length (join ", " (List.map item_text items)))%nat.
Proof.
  induction items as [|x [|y items] IH]; [simpl; lia | simpl; lia |].
  change (join ", " (List.map item_text (x :: y :: items)))
    with (item_text x ++ lit ", " ++ join ", " (List.map item_text (y :: items))).
  assert (1 <= List.length (item_text x))%nat by (simpl; lia).
  rewrite !length_app. cbn [List.length] in *. lia.
Qed.

Lemma parse_array_strings (items : list str) (rest : str) :
  Forall (fun s => is_text s = true) items ->
  parse_array scan (join ", " (List.map item_text items) ++ RBRACKET :: rest)
  = Scanned (PList (List.map PStr items)) rest.
Proof.
  intros H. destruct items as [|x items]; [reflexivity|].
  unfold parse_array. rewrite join_starts_with_quote.
  assert (Hq : exists t, join ", " (List.map item_text (x :: items)) ++ RBRACKET :: rest
                         = QUOTE :: t) by (destruct items; now eexists).
  destruct Hq as [t Hq]. rewrite Hq at 1.
  change (QUOTE =? RBRACKET) with false. cbv iota.
  apply parse_array_items_fuel with (n := S (List.length items)).
  - now apply parse_array_items_strings with (acc := []).
  - pose proof (length_join_items (x :: items)) as Hl.
    rewrite length_app. cbn [List.length] in *. lia.
Qed.

(** *** Dicts from strings to strings *)

Lemma join_pairs_starts_with_quote (items : list (str * str)) (x : str * str)
    (rest : str) :
  skip_ws (join ", " (List.map pair_text (x :: items)) ++ rest)
  = join ", " (List.map pair_text (x :: items)) ++ rest.
Proof. destruct items; reflexivity. Qed.

Lemma parse_object_items_strings (items : list (str * str)) :
  forall (x : str * str) (d : dict) (rest : str),
    Forall (fun kv => is_text (fst kv) = true /\ is_text (snd kv) = true)
           (x :: items) ->
    parse_object_items scan (S (List.length items)) d
      (join ", " (List.map pair_text (x :: items)) ++ RBRACE :: rest)
    = Scanned (PDict (fold_left set_pair (x :: items) d)) rest.
Proof.
  induction items as [|y items IH]; intros x d rest H;
    inversion H as [|? ? [Hk Hv] Hrest]; subst.
  - cbn [List.map join]. unfold pair_text. rewrite <- !app_assoc.
    rewrite (parse_object_items_last scan _ _ (fst x) _ (PStr (snd x)))
      by (assumption || now apply scan_string).
    reflexivity.
  - change (join ", " (List.map pair_text (x :: y :: items)))
      with (pair_text x ++ lit ", " ++ join ", " (List.map pair_text (y :: items))).
    unfold pair_text at 1. rewrite <- !app_assoc.
    change (List.length (y :: items)) with (S (List.length items)).
    rewrite (parse_object_items_more scan _ _ (fst x) _ (PStr (snd x)));
      [| assumption | now apply scan_string | apply join_pairs_starts_with_quote].
    now rewrite IH by exact Hrest.
Qed.

Lemma length_join_pairs (items : list (str * str)) :
  (List.length items <= List.length (join ", " (List.map pair_text items)))%nat.
Proof.
  induction items as [|x [|y items] IH]; [simpl; lia | simpl; lia |].
  change (join ", " (List.map pair_text (x :: y :: items)))
    with (pair_text x ++ lit ", " ++ join ", " (List.map pair_text (y :: items))).
  assert (1 <= List.length (pair_text x))%nat by (simpl; lia).
  rewrite !length_app. cbn [List.length] in *. lia.
Qed.

Lemma parse_object_strings (items : list (str * str)) (rest : str) :
  Forall (fun kv => is_text (fst kv) = true /\ is_text (snd kv) = true) items ->
  parse_object scan (join ", " (List.map pair_text items) ++ RBRACE :: rest)
  = Scanned (PDict (fold_left set_pair items [])) rest.
Proof.
  intros H. destruct items as [|x items]; [reflexivity|].
  unfold parse_object. rewrite join_pairs_starts_with_quote.
  assert (Hq : exists t, join ", " (List.map pair_text (x :: items)) ++ RBRACE :: rest
                         = QUOTE :: t) by (destruct items; now eexists).
  destruct Hq as [t Hq]. rewrite Hq at 1.
  change (QUOTE =? RBRACE) with false. cbv iota.
  apply parse_object_items_fuel with (n := S (List.length items)).
  - now apply parse_object_items_strings.
  - pose proof (length_join_pairs (x :: items)) as Hl.
    rewrite length_app. cbn [List.length] in *. lia.
Qed.

End Strings.

(** Setting distinct keys one after the other lists them in order. *)
Lemma dict_get_absent (k : str) (d : dict) :
  ~ In k (List.map fst d) -> dict_get k d = None.
Proof.
  induction d as [|[k' v'] d IH]; simpl; [reflexivity|].
  intros H. rewrite str_eqb_neq by (intros ->; apply H; now left).
  apply IH. intros Hin. apply H. now right.
Qed.

Lemma dict_setitem_new (k : str) (v : pyval) (d : dict) :
  ~ In k (List.map fst d) -> dict_setitem k v d = d ++ [(k, v)].
Proof.
  induction d as [|[k' v'] d IH]; simpl; [reflexivity|].
  intros H. rewrite str_eqb_neq by (intros ->; apply H; now left).
  f_equal. apply IH. intros Hin. apply H. now right.
Qed.

Lemma fold_set_pair_distinct (items : list (str * str)) :
  forall d : dict,
    NoDup (List.map fst d ++ List.map fst items) ->
    fold_left set_pair items d
    = d ++ List.map (fun kv => (fst kv, PStr (snd kv))) items.
Proof.
  induction items as [|[k v] items IH]; intros d H; simpl.
  - now rewrite app_nil_r.
  - unfold set_pair at 2. cbn [fst snd].
    rewrite dict_setitem_new.
    + rewrite IH.
      * now rewrite <- app_assoc.
      * rewrite map_app. cbn [List.map fst]. now rewrite <- app_assoc.
    + simpl in H. apply NoDup_remove_2 in H. intros Hin. apply H.
      apply in_or_app. now left.
Qed.

(** *** A whole result *)

Lemma reads_list (max_digits : N) (depth : nat) (items : list str) :
  Forall (fun s => is_text s = true) items ->
  reads (scan_once max_digits (S depth))
        (encode_list (List.map encode_basestring_ascii items))
        (PList (List.map PStr items)).
Proof.
  intros H rest. split; [reflexivity|].
  unfold encode_list. cbn [app]. rewrite scan_once_array.
  rewrite <- app_assoc. cbn [app].
  apply parse_array_strings; [|exact H].
  intros s Hs. now apply reads_string.
Qed.

Lemma reads_matrix (max_digits : N) (depth : nat) (items : list (str * str)) :
  Forall (fun kv => is_text (fst kv) = true /\ is_text (snd kv) = true) items ->
  NoDup (List.map fst items) ->
  reads (scan_once max_digits (S depth))
        (encode_dict
           (List.map (fun kv => (fst kv, encode_basestring_ascii (snd kv))) items))
        (PDict (List.map (fun kv => (fst kv, PStr (snd kv))) items)).
Proof.
  intros H Hd rest. split; [reflexivity|].
  unfold encode_dict. cbn [app]. rewrite scan_once_object.
  rewrite <- app_assoc. cbn [app]. rewrite map_map. cbn [fst snd].
  change (List.map
            (fun x : str * str =>
               encode_basestring_ascii (fst x) ++ lit ": " ++ encode_basestring_ascii (snd x))
            items)
    with (List.map pair_text items).
  rewrite (parse_object_strings (scan_once max_digits depth));
    [| intros s Hs; now apply reads_string | exact H].
  now rewrite (fold_set_pair_distinct items []).
Qed.

(** The text of a result, item after item. *)
Lemma json_dumps_items (r : AnalysisResult) :
  json_dumps r =
  LBRACE ::
    encode_basestring_ascii "summary" ++ lit ": "
      ++ encode_basestring_ascii (summary r) ++ lit ", "
    ++ encode_basestring_ascii "traceability_matrix" ++ lit ": "
      ++ encode_dict
           (List.map (fun kv => (fst kv, encode_basestring_ascii (snd kv)))
                     (traceability_matrix r)) ++ lit ", "
    ++ encode_basestring_ascii "missing_requirements" ++ lit ": "
      ++ encode_list (List.map encode_basestring_ascii (missing_requirements r))
      ++ lit ", "
    ++ encode_basestring_ascii "suggestions" ++ lit ": "
      ++ encode_list (List.map encode_basestring_ascii (suggestions r))
      ++ lit ", "
    ++ encode_basestring_ascii "detailed_analysis" ++ lit ": "
      ++ encode_basestring_ascii (detailed_analysis r) ++ [RBRACE].
Proof.
  unfold json_dumps. unfold encode_dict at 1.
  cbn [List.map join fst snd]. now rewrite <- !app_assoc.
Qed.

(** [json.loads(json.dumps(r))] is the mapping of [r]. *)
Lemma json_loads_json_dumps (py : interpreter) (r : AnalysisResult) :
  well_formed r -> (2 <= recursion_budget py)%nat ->
  json_loads py (PStr (json_dumps r)) = Return (result_mapping r).
Proof.
  intros (Hs & Hm & Hk & Hq & Hg & Hd) Hb.
  destruct (recursion_budget py) as [|[|depth]] eqn:Eb; [lia | lia |].
  unfold json_loads, decode. rewrite Eb. rewrite json_dumps_items.
  change (LBRACE =? 65279) with false. cbv iota.
  match goal with
  | |- context [skip_ws (LBRACE :: ?t)] =>
      change (skip_ws (LBRACE :: t)) with (LBRACE :: t)
  end.
  rewrite scan_once_object.
  set (scan := scan_once (int_max_str_digits py) (S depth)).
  unfold parse_object.
  match goal with
  | |- context [skip_ws ?t] =>
      change (skip_ws t) with t;
      assert (Hfuel : (5 <= S (List.length t))%nat)
        by (rewrite !length_app; simpl; lia)
  end.
  unfold encode_basestring_ascii at 1. cbn [app].
  change (QUOTE =? RBRACE) with false. cbv iota.
  fold (encode_basestring_ascii "summary").
  match goal with
  | |- match parse_object_items _ ?n ?d ?t with _ => _ end = _ =>
      rewrite (parse_object_items_fuel scan 5 n d t (result_mapping r) [])
  end; [reflexivity | | exact Hfuel].
  rewrite (parse_object_items_more scan _ _ "summary" _ (PStr (summary r)));
    [| reflexivity | now apply reads_string | reflexivity].
  rewrite (parse_object_items_more scan _ _ "traceability_matrix" _
             (PDict (List.map (fun kv => (fst kv, PStr (snd kv)))
                              (traceability_matrix r))));
    [| reflexivity | now apply reads_matrix | reflexivity].
  rewrite (parse_object_items_more scan _ _ "missing_requirements" _
             (PList (List.map PStr (missing_requirements r))));
    [| reflexivity | now apply reads_list | reflexivity].
  rewrite (parse_object_items_more scan _ _ "suggestions" _
             (PList (List.map PStr (suggestions r))));
    [| reflexivity | now apply reads_list | reflexivity].
  rewrite (parse_object_items_last scan _ _ "detailed_analysis" _
             (PStr (detailed_analysis r)));
    [| reflexivity | now apply reads_string].
  reflexivity.
Qed.

(** ** Computations that return a result *)

Lemma returns_result_if_returns (m : M pyval) :
  returns_result m -> result_if_returns m.
Proof.
  intros (t & d & -> & Hd) t' a Heq. injection Heq as _ <-. now exists d.
Qed.

Lemma result_if_returns_bind {A} (m : M A) (f : A -> M pyval) :
  (forall a, result_if_returns (f a)) -> result_if_returns (bind m f).
Proof.
  intros Hf t b. unfold bind. destruct m as [t1 [a|e]]; [|discriminate].
  destruct (f a) as [t2 r] eqn:Ef. intros Heq. injection Heq as _ ->.
  exact (Hf a t2 b Ef).
Qed.

Lemma returns_result_bind {A} (m : M A) (f : A -> M pyval) :
  (exists t a, m = (t, Return a)) -> (forall a, returns_result (f a)) ->
  returns_result (bind m f).
Proof.
  intros (t & a & ->) Hf. destruct (Hf a) as (t' & d & Heq & Hd).
  unfold bind. rewrite Heq. now exists (t ++ t'), d.
Qed.

Lemma returns_result_try_except (body : M pyval) (handler : exception -> M pyval) :
  result_if_returns body -> (forall e, returns_result (handler e)) ->
  returns_result (try_except body handler).
Proof.
  intros Hb Hh. unfold try_except. destruct body as [t [a|e]].
  - destruct (Hb t a eq_refl) as (d & -> & Hd). now exists t, d.
  - destruct (Hh e) as (t' & d & -> & Hd). now exists (t ++ t'), d.
Qed.

Lemma MockProvider_analyze_eq (prompt : str) :
  MockProvider_analyze prompt =
  ([Log INFO "Returning mock LLM response." []], Return example).
Proof. reflexivity. Qed.

Lemma MockProvider_returns_result (prompt : str) :
  returns_result (MockProvider_analyze prompt).
Proof. eexists _, _. split; reflexivity. Qed.

Lemma logged_then_mock_returns_result (note : M unit) (prompt : str) :
  (exists t, note = (t, Return tt)) ->
  returns_result (note ;;; MockProvider_analyze prompt).
Proof.
  intros (t & ->). apply returns_result_bind; [now exists t, tt|].
  intros _. apply MockProvider_returns_result.
Qed.

Create HintDb providers.

#[local] Hint Resolve MockProvider_returns_result parse_llm_json_returns
  returns_result_if_returns : providers.

Lemma OpenAIProvider_analyze_returns_result (w : world) (self : OpenAIProvider)
    (prompt : str) :
  returns_result (OpenAIProvider_analyze w self prompt).
Proof.
  unfold OpenAIProvider_analyze. destruct (openai_client self) as [key|].
  - apply returns_result_try_except.
    + do 2 (apply result_if_returns_bind; intros ?). auto with providers.
    + intros e. apply logged_then_mock_returns_result. now eexists.
  - apply logged_then_mock_returns_result. now eexists.
Qed.

Lemma AnthropicProvider_analyze_returns_result (w : world)
    (self : AnthropicProvider) (prompt : str) :
  returns_result (AnthropicProvider_analyze w self prompt).
Proof.
  unfold AnthropicProvider_analyze. destruct (anthropic_client self) as [key|].
  - apply returns_result_try_except.
    + do 2 (apply result_if_returns_bind; intros ?). auto with providers.
    + intros e. apply logged_then_mock_returns_result. now eexists.
  - apply logged_then_mock_returns_result. now eexists.
Qed.

Lemma OllamaProvider_analyze_returns_result (w : world) (self : OllamaProvider)
    (prompt : str) :
  returns_result (OllamaProvider_analyze w self prompt).
Proof.
  unfold OllamaProvider_analyze. apply returns_result_try_except.
  - do 4 (apply result_if_returns_bind; intros ?). auto with providers.
  - intros e. apply logged_then_mock_returns_result. now eexists.
Qed.

(** The constructors of the hosted providers always give an object. *)
Lemma OpenAIProvider_init_returns (w : world) (api_key : str) :
  exists t self, OpenAIProvider_init w api_key = (t, Return self).
Proof.
  unfold OpenAIProvider_init, call, bind, try_except.
  destruct (openai_OpenAI w api_key); simpl; now eexists _, _.
Qed.

Lemma AnthropicProvider_init_returns (w : world) (api_key : str) :
  exists t self, AnthropicProvider_init w api_key = (t, Return self).
Proof.
  unfold AnthropicProvider_init, call, bind, try_except.
  destruct (anthropic_Anthropic w api_key); simpl; now eexists _, _.
Qed.

(** ** Sample texts *)

Lemma not_json_at_all (py : interpreter) :
  json_loads py (PStr "not json at all") = Raise JSONDecodeError.
Proof.
  unfold json_loads, decode. destruct (recursion_budget py); reflexivity.
Qed.

(** A key written twice keeps its first place and its last value. *)
Example decode_repeated_key :
  json_loads cpython (PStr (quoted "{'a': 1, 'b': 2, 'a': 3}"))
  = Return (PDict [("a" : str, PInt 3); ("b" : str, PInt 2)]).
Proof. reflexivity. Qed.

(** Escapes: a letter escape, a [\u] escape and a surrogate pair. *)
Example decode_escapes :
  json_loads cpython (PStr (quoted "'a\n\u00e9\ud83d\ude00'"))
  = Return (PStr [97; 10; 233; 128512]).
Proof. reflexivity. Qed.

(** Numbers: an [int], a negative zero, floats kept as lexemes. *)
Example decode_numbers :
  json_loads cpython (PStr "[10, -0, 1.5, 2e3, -Infinity]")
  = Return (PList [PInt 10; PInt 0; PFloat "1.5"; PFloat "2e3";
                   PFloat "-Infinity"]).
Proof. reflexivity. Qed.

(** Refused: a comma before the bracket, a leading zero, an exponent
    without digits, text after the value, a bare word, nothing at all. *)
Example decode_refused :
  List.map (fun text : string => json_loads cpython (PStr text))
           ["[1, 2,]"; "01"; "1e"; "{} {}"; "None"; ""]
  = List.map (fun _ => Raise JSONDecodeError) (seq 0 6).
Proof. reflexivity. Qed.

(** A text that decodes with a budget of [depth] containers decodes in
    every interpreter whose budget is at least [depth]. *)
Lemma json_loads_within (depth : nat) (py : interpreter) (text : str) (v : pyval) :
  json_loads {| recursion_budget := depth;
                int_max_str_digits := int_max_str_digits py |} (PStr text)
    = Return v ->
  (depth <= recursion_budget py)%nat ->
  json_loads py (PStr text) = Return v.
Proof.
  intros H Hd. revert H. now apply json_loads_mono.
Qed.


(** A text nested one level deeper than the interpreter allows is
    normalised to the degraded result. *)
Lemma too_deep_text_is_degraded (w : world) (rest : str) :
  _parse_llm_json w
    (PStr (repeat LBRACKET (S (recursion_budget (py w))) ++ rest))
  = ([Log WARNING "LLM did not return valid JSON. Applying heuristic parse." []],
     Return (heuristic
               (PStr (repeat LBRACKET (S (recursion_budget (py w))) ++ rest)))).
Proof.
  apply parse_llm_json_heuristic. intros d.
  rewrite json_loads_too_deep. discriminate.
Qed.

(** ** The status check *)

(** [raise_for_status] raises for the statuses from 400 to 599, and for
    no other. *)
Lemma raise_for_status_raises (r : response) (e : exception) :
  raise_for_status r = Raise e <->
  (400 <= status_code r < 600)%Z /\ e = HTTPError (status_code r).
Proof.
  unfold raise_for_status.
  destruct (Z.leb_spec 400 (status_code r)) as [Hlo|Hlo],
           (Z.ltb_spec (status_code r) 600) as [Hhi|Hhi];
    cbn [andb]; split; try discriminate; try (intros [? _]; lia).
  - intros E. injection E as <-. split; [lia | reflexivity].
  - intros [_ ->]. reflexivity.
Qed.

(** ** The selector and the adapters, path by path *)

Lemma truthy_py_or (a b : str) : truthy a = true -> py_or a b = a.
Proof. unfold py_or. now intros ->. Qed.

Lemma truthy_nonempty (a : str) : a <> [] -> truthy a = true.
Proof. destruct a; [contradiction | reflexivity]. Qed.

(** ** Traces *)

Lemma fst_bind {A B} (m : M A) (f : A -> M B) :
  exists t', fst (bind m f) = fst m ++ t'.
Proof.
  destruct m as [t [a|e]]; unfold bind.
  - destruct (f a) as [t' r]. now exists t'.
  - exists []. now rewrite app_nil_r.
Qed.

Lemma fst_try_except {A} (body : M A) (handler : exception -> M A) :
  exists t', fst (try_except body handler) = fst body ++ t'.
Proof.
  destruct body as [t [a|e]]; unfold try_except.
  - exists []. now rewrite app_nil_r.
  - destruct (handler e) as [t' r]. now exists t'.
Qed.

(** ** The adapters, outcome by outcome *)

Lemma OpenAIProvider_analyze_cases (w : world) (key prompt : str) :
  analyze w {| openai_client := Some key |} prompt =
  match chat_completions_create w key (openai_kwargs prompt) with
  | Return (content :: _) =>
      normalised w [ChatCompletionsCreate key (openai_kwargs prompt)] content
  | Return [] =>
      fallen_back [ChatCompletionsCreate key (openai_kwargs prompt)]
                  "OpenAI analysis failed: %s" IndexError
  | Raise e =>
      fallen_back [ChatCompletionsCreate key (openai_kwargs prompt)]
                  "OpenAI analysis failed: %s" e
  end.
Proof.
  cbn [analyze OpenAIProvider_Provider]. unfold OpenAIProvider_analyze.
  cbn [openai_client]. unfold call.
  destruct (chat_completions_create w key (openai_kwargs prompt))
    as [[|content rest]|e]; try reflexivity.
  destruct (parse_llm_json_returns w content) as (t' & d & E & _).
  unfold normalised, bind, lift, try_except. cbn [first_choice].
  rewrite E. reflexivity.
Qed.

Lemma AnthropicProvider_analyze_cases (w : world) (key prompt : str) :
  analyze w {| anthropic_client := Some key |} prompt =
  match messages_create w key (anthropic_kwargs prompt) with
  | Return content =>
      match join_texts (block_texts content) with
      | Return text =>
          normalised w [MessagesCreate key (anthropic_kwargs prompt)] (PStr text)
      | Raise e =>
          fallen_back [MessagesCreate key (anthropic_kwargs prompt)]
                      "Anthropic analysis failed: %s" e
      end
  | Raise e =>
      fallen_back [MessagesCreate key (anthropic_kwargs prompt)]
                  "Anthropic analysis failed: %s" e
  end.
Proof.
  cbn [analyze AnthropicProvider_Provider]. unfold AnthropicProvider_analyze.
  cbn [anthropic_client]. unfold call.
  destruct (messages_create w key (anthropic_kwargs prompt)) as [content|e];
    [|reflexivity].
  destruct (join_texts (block_texts content)) as [text|e] eqn:E.
  - destruct (parse_llm_json_returns w (PStr text)) as (t' & d & Ep & _).
    unfold normalised, bind, lift, try_except. rewrite E, Ep. reflexivity.
  - unfold bind, lift, try_except. rewrite E. reflexivity.
Qed.

Lemma OllamaProvider_analyze_cases (w : world) (self : OllamaProvider)
    (prompt : str) :
  analyze w self prompt =
  let sent := [RequestsPost (ollama_url self) (ollama_payload self prompt) 120] in
  let note := "Ollama analysis failed (is Ollama running?): %s" in
  match requests_post w (ollama_url self) (ollama_payload self prompt) 120 with
  | Return resp =>
      match raise_for_status resp with
      | Return _ =>
          match json resp with
          | Return data =>
              match py_get data "response" (PStr "") with
              | Return text => normalised w sent text
              | Raise e => fallen_back sent note e
              end
          | Raise e => fallen_back sent note e
          end
      | Raise e => fallen_back sent note e
      end
  | Raise e => fallen_back sent note e
  end.
Proof.
  cbn [analyze OllamaProvider_Provider]. unfold OllamaProvider_analyze, call.
  cbv zeta.
  destruct (requests_post w (ollama_url self) (ollama_payload self prompt) 120)
    as [resp|e]; [|reflexivity].
  destruct (raise_for_status resp) as [[]|e] eqn:E1;
    [|unfold bind, lift, try_except; rewrite E1; reflexivity].
  destruct (json resp) as [data|e] eqn:E2;
    [|unfold bind, lift, try_except; rewrite E1, E2; reflexivity].
  destruct (py_get data "response" (PStr "")) as [text|e] eqn:E3;
    [|unfold bind, lift, try_except; rewrite E1, E2, E3; reflexivity].
  destruct (parse_llm_json_returns w text) as (t' & d & Ep & _).
  unfold normalised, bind, lift, try_except. rewrite E1, E2, E3, Ep.
  reflexivity.
Qed.

Lemma parse_llm_json_trace (w : world) (text : pyval) :
  fst (_parse_llm_json w text) = []
  \/ fst (_parse_llm_json w text) =
     [Log WARNING "LLM did not return valid JSON. Applying heuristic parse." []].
Proof.
  unfold _parse_llm_json, lift, bind, try_except.
  destruct (json_loads (py w) text) as [[]|]; cbn; auto.
Qed.







(** The selector, branch by branch. *)
Lemma analyze_with_llm_branches (w : world) (prompt model_name api_key : str) :
  let name := lower (strip model_name) in
  analyze_with_llm w prompt model_name api_key =
  if str_eqb name "gpt-4o" then
    let key := py_or api_key (os_getenv w "OPENAI_API_KEY" "") in
    match key with
    | [] => ([Log INFO "No OpenAI API key provided; using mock response." [];
              Log INFO "Returning mock LLM response." []], Return example)
    | _ :: _ =>
        match openai_OpenAI w key with
        | Return _ =>
            ([NewOpenAI key]
               ++ fst (analyze w {| openai_client := Some key |} prompt),
             snd (analyze w {| openai_client := Some key |} prompt))
        | Raise e =>
            ([NewOpenAI key;
              Log ERROR "Failed to initialize OpenAI client: %s" [ArgExc e];
              Log WARNING "OpenAI client unavailable; falling back to mock." [];
              Log INFO "Returning mock LLM response." []],
             Return example)
        end
    end
  else if str_eqb name "claude 3.5 sonnet" then
    let key := py_or api_key (os_getenv w "ANTHROPIC_API_KEY" "") in
    match key with
    | [] => ([Log INFO "No Anthropic API key provided; using mock response." [];
              Log INFO "Returning mock LLM response." []], Return example)
    | _ :: _ =>
        match anthropic_Anthropic w key with
        | Return _ =>
            ([NewAnthropic key]
               ++ fst (analyze w {| anthropic_client := Some key |} prompt),
             snd (analyze w {| anthropic_client := Some key |} prompt))
        | Raise e =>
            ([NewAnthropic key;
              Log ERROR "Failed to initialize Anthropic client: %s" [ArgExc e];
              Log WARNING "Anthropic client unavailable; falling back to mock." [];
              Log INFO "Returning mock LLM response." []],
             Return example)
        end
    end
  else if str_eqb name "local llama 3" then
    analyze w OllamaProvider_init prompt
  else
    ([Log INFO "Unknown model '%s'; defaulting to mock." [ArgStr name];
      Log INFO "Returning mock LLM response." []], Return example).
Proof.
  cbv zeta. unfold analyze_with_llm. rewrite py_or_empty.
  destruct (str_eqb _ "gpt-4o").
  { destruct (py_or api_key _) as [|c key'] eqn:Ek; [reflexivity|].
    cbn [truthy negb]. unfold OpenAIProvider_init, call, bind, try_except.
    destruct (openai_OpenAI w (c :: key')) as [[]|e]; [|reflexivity].
    cbn [analyze OpenAIProvider_Provider]. unfold ret. cbn [app].
    now destruct (OpenAIProvider_analyze w _ prompt). }
  destruct (str_eqb _ "claude 3.5 sonnet").
  { destruct (py_or api_key _) as [|c key'] eqn:Ek; [reflexivity|].
    cbn [truthy negb]. unfold AnthropicProvider_init, call, bind, try_except.
    destruct (anthropic_Anthropic w (c :: key')) as [[]|e]; [|reflexivity].
    cbn [analyze AnthropicProvider_Provider]. unfold ret. cbn [app].
    now destruct (AnthropicProvider_analyze w _ prompt). }
  destruct (str_eqb _ "local llama 3"); reflexivity.
Qed.

Lemma origin_normalised (w : world) (t : list event) (text : pyval) :
  mock_or_normalised w (normalised w t text).
Proof. right. now exists text. Qed.

Lemma origin_fallen_back (w : world) (t : list event) (note : string)
    (e : exception) :
  mock_or_normalised w (fallen_back t note e).
Proof. now left. Qed.

Create HintDb origin.

#[local] Hint Resolve origin_normalised origin_fallen_back : origin.

Lemma join_texts_text_blocks (items : list (option str)) :
  join_texts (block_texts (text_blocks items)) = Return (joined items).
Proof.
  induction items as [|[s|] items IH]; cbn; [reflexivity | | exact IH].
  unfold text_blocks in IH. now rewrite IH.
Qed.

Lemma join_texts_not_a_string (content : list content_block) (v : pyval) :
  In (Block (Some v)) content -> (forall s, v <> PStr s) ->
  join_texts (block_texts content) = Raise TypeError.
Proof.
  intros Hin Hv. induction content as [|[[t|]] content IH]; [contradiction| |].
  - cbn [block_texts join_texts]. destruct Hin as [Heq|Hin].
    + injection Heq as ->. destruct v; try reflexivity. now contradiction (Hv s).
    + rewrite (IH Hin). now destruct t.
  - cbn [block_texts]. destruct Hin as [Heq|Hin]; [discriminate | now apply IH].
Qed.

Lemma dict_contains_get (k : str) (d : dict) :
  dict_contains k d = true -> exists v, dict_get k d = Some v.
Proof.
  unfold dict_contains. destruct (dict_get k d) as [v|]; [now exists v | discriminate].
Qed.

(** The selector always returns a result. *)
Lemma selector_returns_result (w : world) (prompt model_name api_key : str) :
  returns_result (analyze_with_llm w prompt model_name api_key).
Proof.
  rewrite analyze_with_llm_branches. cbv zeta.
  assert (Hm : forall t, returns_result (t, Return example))
    by (intros t; now exists t, match example with PDict d => d | _ => [] end).
  assert (Hp : forall (t : list event) (m : M pyval),
             returns_result m -> returns_result (t ++ fst m, snd m)).
  { intros t m (t' & d & -> & Hd). now exists (t ++ t'), d. }
  destruct (str_eqb _ "gpt-4o").
  { destruct (py_or api_key _) as [|c key']; [apply Hm|].
    destruct (openai_OpenAI w (c :: key')); [|apply Hm].
    apply Hp, OpenAIProvider_analyze_returns_result. }
  destruct (str_eqb _ "claude 3.5 sonnet").
  { destruct (py_or api_key _) as [|c key']; [apply Hm|].
    destruct (anthropic_Anthropic w (c :: key')); [|apply Hm].
    apply Hp, AnthropicProvider_analyze_returns_result. }
  destruct (str_eqb _ "local llama 3"); [|apply Hm].
  apply OllamaProvider_analyze_returns_result.
Qed.

Lemma no_unknown_record_normalised (w : world) (t : list event) (text : pyval) :
  existsb is_unknown_model_record t = false ->
  existsb is_unknown_model_record (fst (normalised w t text)) = false.
Proof.
  intros H. unfold normalised. cbn [fst]. rewrite existsb_app, H.
  now destruct (parse_llm_json_trace w text) as [-> | ->].
Qed.

Lemma no_unknown_record_fallen_back (t : list event) (note : string)
    (e : exception) :
  existsb is_unknown_model_record t = false ->
  existsb is_unknown_model_record (fst (fallen_back t note e)) = false.
Proof.
  intros H. unfold fallen_back. cbn [fst]. rewrite existsb_app, H. reflexivity.
Qed.

Lemma no_unknown_record_OpenAI (w : world) (key prompt : str) :
  existsb is_unknown_model_record
    (fst (analyze w {| openai_client := Some key |} prompt)) = false.
Proof.
  rewrite OpenAIProvider_analyze_cases.
  destruct (chat_completions_create w key (openai_kwargs prompt)) as [[|c ?]|e];
    now rewrite ?no_unknown_record_normalised, ?no_unknown_record_fallen_back.
Qed.

Lemma no_unknown_record_Anthropic (w : world) (key prompt : str) :
  existsb is_unknown_model_record
    (fst (analyze w {| anthropic_client := Some key |} prompt)) = false.
Proof.
  rewrite AnthropicProvider_analyze_cases.
  destruct (messages_create w key (anthropic_kwargs prompt)) as [content|e];
    [destruct (join_texts (block_texts content))|];
    now rewrite ?no_unknown_record_normalised, ?no_unknown_record_fallen_back.
Qed.

Lemma no_unknown_record_Ollama (w : world) (self : OllamaProvider)
    (prompt : str) :
  existsb is_unknown_model_record (fst (analyze w self prompt)) = false.
Proof.
  rewrite OllamaProvider_analyze_cases. cbv zeta.
  destruct (requests_post w _ _ 120) as [resp|e];
    [destruct (raise_for_status resp);
     [destruct (json resp) as [data|];
      [destruct (py_get data "response" (PStr ""))|]|]|];
    now rewrite ?no_unknown_record_normalised, ?no_unknown_record_fallen_back.
Qed.

(** ** The loops of [read_source_code] *)

Lemma read_file_collect (fs : filesystem) (root file : str) (st : reading) :
  snd (read_file fs root file st)
  = collect fs (if supported fs file then [os_path_join fs root file] else [])
            st.
Proof.
  unfold read_file. destruct st as [acc total].
  destruct (supported fs file); [|reflexivity].
  cbn [collect]. unfold readable.
  destruct (os_path_getsize fs _) as [size|e]; [|reflexivity].
  destruct (MAX_FILE_SIZE_BYTES <? size); [reflexivity|].
  destruct (read_text fs _) as [content|e]; [|reflexivity].
  cbn [fst snd].
  now destruct (MAX_TOTAL_CODE_CHARS <? total + N.of_nat (List.length content)).
Qed.

Lemma collect_app (fs : filesystem) (a b : list str) (st : reading) :
  collect fs (a ++ b) st
  = match collect fs a st with
    | (st', Break) => (st', Break)
    | (st', Next) => collect fs b st'
    end.
Proof.
  revert st. induction a as [|path a IH]; intros st; [reflexivity|].
  cbn [app collect]. destruct (readable fs path) as [content|]; [|apply IH].
  destruct (MAX_TOTAL_CODE_CHARS <? _); [reflexivity | apply IH].
Qed.

Lemma collect_break (fs : filesystem) (paths : list str) (st st' : reading) :
  collect fs paths st = (st', Break) ->
  (MAX_TOTAL_CODE_CHARS <? snd st') = true.
Proof.
  revert st. induction paths as [|path paths IH]; intros st; [discriminate|].
  cbn [collect]. destruct (readable fs path) as [content|]; [|apply IH].
  destruct (MAX_TOTAL_CODE_CHARS <? snd st + N.of_nat (List.length content))
    eqn:E; [|apply IH].
  intros H. injection H as <-. exact E.
Qed.

Lemma read_files_collect (fs : filesystem) (root : str) (files : list str)
    (st : reading) :
  snd (read_files fs root files st)
  = collect fs (List.map (os_path_join fs root) (filter (supported fs) files)) st.
Proof.
  revert st. induction files as [|file files IH]; intros st; [reflexivity|].
  cbn [read_files filter].
  pose proof (read_file_collect fs root file st) as H.
  destruct (read_file fs root file st) as [t [st' s]]. cbn [snd] in H.
  destruct (supported fs file).
  - cbn [List.map]. change (?x :: ?l) with ([x] ++ l). rewrite collect_app, <- H.
    destruct s; [|reflexivity].
    rewrite <- IH. now destruct (read_files fs root files st').
  - cbn [collect] in H. injection H as -> ->.
    rewrite <- IH. now destruct (read_files fs root files st).
Qed.

Lemma read_directories_collect (fs : filesystem) (walk : list (str * list str))
    (st : reading) :
  snd (read_directories fs walk st)
  = collect fs
      (flat_map (fun d => List.map (os_path_join fs (fst d))
                                   (filter (supported fs) (snd d))) walk)
      st.
Proof.
  revert st. induction walk as [|[root files] walk IH]; intros st; [reflexivity|].
  cbn [read_directories flat_map fst snd]. rewrite collect_app.
  pose proof (read_files_collect fs root files st) as H.
  destruct (read_files fs root files st) as [t [st' s]]. cbn [snd] in H.
  rewrite <- H. destruct s.
  - rewrite <- IH. now destruct (read_directories fs walk st').
  - symmetry in H. apply collect_break in H. now rewrite H.
Qed.

(** What [collect] leaves in [source_files]. *)
Lemma collect_within_budget (fs : filesystem) (paths : list str) (st : reading) :
  fst (fst (collect fs paths st))
  = fst st ++ List.map (fun f => source_entry (fst f) (snd f))
                       (within_budget (snd st) (readable_files fs paths)).
Proof.
  revert st. induction paths as [|path paths IH]; intros st.
  - cbn. now rewrite app_nil_r.
  - cbn [collect readable_files].
    destruct (readable fs path) as [content|]; [|apply IH].
    cbn [within_budget].
    destruct (MAX_TOTAL_CODE_CHARS <? _).
    + cbn. now rewrite app_nil_r.
    + rewrite IH. cbn [fst snd List.map]. now rewrite <- app_assoc.
Qed.

Lemma total_content_chars_app (a b : list pyval) :
  total_content_chars (a ++ b) = total_content_chars a + total_content_chars b.
Proof.
  unfold total_content_chars. induction a as [|x a IH]; [reflexivity|].
  cbn [app fold_right]. rewrite IH. lia.
Qed.

Lemma within_budget_chars (total : N) (files : list (str * str)) :
  total <= MAX_TOTAL_CODE_CHARS ->
  total
  + total_content_chars
      (List.map (fun f => source_entry (fst f) (snd f)) (within_budget total files))
  <= MAX_TOTAL_CODE_CHARS.
Proof.
  revert total. induction files as [|[path content] files IH]; intros total H.
  - cbn. lia.
  - cbn [within_budget].
    destruct (MAX_TOTAL_CODE_CHARS <? _) eqn:E.
    + cbn. lia.
    + apply N.ltb_ge in E. specialize (IH _ E).
      cbn [List.map fst snd]. unfold total_content_chars in *.
      cbn [fold_right]. change (content_chars (source_entry path content))
        with (N.of_nat (List.length content)). lia.
Qed.

(** How [collect] ends. *)
Lemma collect_step (fs : filesystem) (paths : list str) (st : reading) :
  snd (collect fs paths st)
  = if exceeds_budget (snd st) (readable_files fs paths) then Break else Next.
Proof.
  revert st. induction paths as [|path paths IH]; intros st; [reflexivity|].
  cbn [collect readable_files].
  destruct (readable fs path) as [content|]; [|apply IH].
  cbn [exceeds_budget].
  destruct (MAX_TOTAL_CODE_CHARS <? snd st + N.of_nat (List.length content));
    [reflexivity|].
  now rewrite IH.
Qed.

(** The result of the function, whatever the walk does. *)
Lemma read_source_code_result (fs : filesystem) (directory : str) :
  snd (read_source_code fs directory)
  = match snd (os_walk fs directory) with
    | Some e =>
        if exceeds_budget 0 (readable_files fs (candidates fs directory))
        then inl (List.map (fun f => source_entry (fst f) (snd f))
                    (within_budget 0
                       (readable_files fs (candidates fs directory))))
        else inr e
    | None =>
        inl (List.map (fun f => source_entry (fst f) (snd f))
               (within_budget 0 (readable_files fs (candidates fs directory))))
    end.
Proof.
  unfold read_source_code, candidates.
  pose proof (read_directories_collect fs (fst (os_walk fs directory)) ([], 0))
    as H.
  pose proof (collect_within_budget fs
                (flat_map (fun d => List.map (os_path_join fs (fst d))
                                      (filter (supported fs) (snd d)))
                          (fst (os_walk fs directory))) ([], 0)) as Hc.
  pose proof (collect_step fs
                (flat_map (fun d => List.map (os_path_join fs (fst d))
                                      (filter (supported fs) (snd d)))
                          (fst (os_walk fs directory))) ([], 0)) as Hs.
  destruct (os_walk fs directory) as [walk failure]. cbn [fst snd] in *.
  destruct (read_directories fs walk ([], 0)) as [t [[acc total] s]].
  cbn [snd] in H. rewrite <- H in Hc, Hs. cbn [fst snd app] in Hc, Hs.
  subst acc s.
  now destruct (exceeds_budget 0 _), failure as [e|].
Qed.

(** *** The trace *)

Lemma read_file_trace (fs : filesystem) (root file : str) (st : reading) :
  match snd (snd (read_file fs root file st)) with
  | Next => ~ In limit_record (fst (read_file fs root file st))
  | Break => exists t, fst (read_file fs root file st) = t ++ [limit_record]
                       /\ ~ In limit_record t
  end.
Proof.
  unfold read_file. destruct st as [acc total].
  destruct (supported fs file); [|cbn; tauto].
  destruct (os_path_getsize fs _) as [size|e].
  - destruct (MAX_FILE_SIZE_BYTES <? size).
    + cbn. intros [H|[H|[]]]; discriminate.
    + destruct (read_text fs _) as [content|e].
      * destruct (MAX_TOTAL_CODE_CHARS <? _); cbn.
        -- eexists [_; _]. split; [reflexivity|].
           intros [H|[H|[]]]; discriminate.
        -- intros [H|[H|[]]]; discriminate.
      * cbn. intros [H|[H|[H|[]]]]; discriminate.
  - cbn. intros [H|[H|[]]]; discriminate.
Qed.

Lemma read_files_trace (fs : filesystem) (root : str) (files : list str)
    (st : reading) :
  match snd (snd (read_files fs root files st)) with
  | Next => ~ In limit_record (fst (read_files fs root files st))
  | Break => exists t, fst (read_files fs root files st) = t ++ [limit_record]
                       /\ ~ In limit_record t
  end.
Proof.
  revert st. induction files as [|file files IH]; intros st; [cbn; tauto|].
  cbn [read_files]. pose proof (read_file_trace fs root file st) as H.
  destruct (read_file fs root file st) as [t [st' s]]. cbn [fst snd] in H.
  destruct s; [|exact H].
  specialize (IH st'). destruct (read_files fs root files st') as [t' [st'' s']].
  cbn [fst snd] in *. destruct s'.
  - rewrite in_app_iff. tauto.
  - destruct IH as (t0 & -> & Hn). exists (t ++ t0).
    split; [now rewrite app_assoc|]. rewrite in_app_iff. tauto.
Qed.

Lemma read_directories_trace (fs : filesystem) (walk : list (str * list str))
    (st : reading) :
  match snd (snd (read_directories fs walk st)) with
  | Next => ~ In limit_record (fst (read_directories fs walk st))
  | Break => exists t, fst (read_directories fs walk st) = t ++ [limit_record]
                       /\ ~ In limit_record t
  end.
Proof.
  revert st. induction walk as [|[root files] walk IH]; intros st; [cbn; tauto|].
  cbn [read_directories].
  pose proof (read_files_trace fs root files st) as H.
  pose proof (read_files_collect fs root files st) as Hc.
  destruct (read_files fs root files st) as [t [st' s]]. cbn [fst snd] in H, Hc.
  destruct s.
  - specialize (IH st').
    destruct (read_directories fs walk st') as [t' [st'' s']].
    cbn [fst snd] in *. destruct s'.
    + rewrite in_app_iff. tauto.
    + destruct IH as (t0 & -> & Hn). exists (t ++ t0).
      split; [now rewrite app_assoc|]. rewrite in_app_iff. tauto.
  - symmetry in Hc. apply collect_break in Hc. rewrite Hc. exact H.
Qed.

(** The first occurrence of an event splits a trace in one way. *)
Lemma first_occurrence {A} (x : A) (t t1 t2 rest : list A) :
  ~ In x t -> ~ In x rest -> t ++ x :: rest = t1 ++ x :: t2 -> t2 = rest.
Proof.
  revert t1. induction t as [|y t IH]; intros t1 Ht Hr E.
  - destruct t1 as [|z t1]; cbn in E.
    + now injection E.
    + injection E as <- E. contradiction Hr. rewrite E. apply in_elt.
  - destruct t1 as [|z t1]; cbn in E.
    + injection E as -> _. contradiction Ht. now left.
    + injection E as _ E. apply (IH t1); [|assumption..].
      intros Hin. apply Ht. now right.
Qed.

Lemma read_file_touches (fs : filesystem) (root file : str) (st : reading)
    (path : str) (ev : fp_event) :
  In ev (fst (read_file fs root file st)) -> touches path ev ->
  supported fs file = true /\ path = os_path_join fs root file
  /\ (ev = Open path ->
      exists size, os_path_getsize fs path = inl size
                   /\ size <= MAX_FILE_SIZE_BYTES).
Proof.
  unfold read_file, touches. destruct st as [acc total].
  destruct (supported fs file); [|intros []].
  destruct (os_path_getsize fs _) as [size|e] eqn:Es;
    [destruct (MAX_FILE_SIZE_BYTES <? size) eqn:El;
     [|apply N.ltb_ge in El;
       destruct (read_text fs _) as [content|e];
       [destruct (MAX_TOTAL_CODE_CHARS <? _)|]]|];
    cbn [fst In]; intros Hin Ht;
    repeat (destruct Hin as [<-|Hin]); try contradiction;
    destruct Ht as [H|H]; try discriminate; injection H as H; subst path;
    (split; [reflexivity|]); (split; [reflexivity|]);
    try discriminate; intros _; now exists size.
Qed.

Lemma read_files_touches (fs : filesystem) (root : str) (files : list str)
    (st : reading) (path : str) (ev : fp_event) :
  In ev (fst (read_files fs root files st)) -> touches path ev ->
  In path (List.map (os_path_join fs root) (filter (supported fs) files))
  /\ (ev = Open path ->
      exists size, os_path_getsize fs path = inl size
                   /\ size <= MAX_FILE_SIZE_BYTES).
Proof.
  revert st. induction files as [|file files IH]; intros st; [intros []|].
  cbn [read_files filter].
  pose proof (read_file_touches fs root file st path ev) as H.
  destruct (read_file fs root file st) as [t [st' s]]. cbn [fst] in H.
  assert (Hhere : In ev t -> touches path ev ->
            In path (List.map (os_path_join fs root)
                       (if supported fs file
                        then file :: filter (supported fs) files
                        else filter (supported fs) files))
            /\ (ev = Open path ->
                exists size, os_path_getsize fs path = inl size
                             /\ size <= MAX_FILE_SIZE_BYTES)).
  { intros Hin Ht. destruct (H Hin Ht) as (-> & -> & Ho).
    split; [now left | exact Ho]. }
  destruct s; [|exact Hhere].
  specialize (IH st'). destruct (read_files fs root files st') as [t' r].
  cbn [fst] in *. intros Hin Ht. apply in_app_iff in Hin as [Hin|Hin].
  - now apply Hhere.
  - destruct (IH Hin Ht) as [Hp Ho]. split; [|exact Ho].
    destruct (supported fs file); [now right | exact Hp].
Qed.

Lemma read_directories_touches (fs : filesystem)
    (walk : list (str * list str)) (st : reading) (path : str)
    (ev : fp_event) :
  In ev (fst (read_directories fs walk st)) -> touches path ev ->
  In path (flat_map (fun d => List.map (os_path_join fs (fst d))
                                       (filter (supported fs) (snd d))) walk)
  /\ (ev = Open path ->
      exists size, os_path_getsize fs path = inl size
                   /\ size <= MAX_FILE_SIZE_BYTES).
Proof.
  revert st. induction walk as [|[root files] walk IH]; intros st; [intros []|].
  cbn [read_directories flat_map fst snd].
  pose proof (read_files_touches fs root files st path ev) as H.
  destruct (read_files fs root files st) as [t [st' s]]. cbn [fst] in H.
  assert (Hrest : forall t' r, read_directories fs walk st' = (t', r) ->
            In ev (t ++ t') -> touches path ev ->
            In path (List.map (os_path_join fs root)
                              (filter (supported fs) files) ++
                     flat_map (fun d => List.map (os_path_join fs (fst d))
                                          (filter (supported fs) (snd d))) walk)
            /\ (ev = Open path ->
                exists size, os_path_getsize fs path = inl size
                             /\ size <= MAX_FILE_SIZE_BYTES)).
  { intros t' r E Hin Ht. specialize (IH st'). rewrite E in IH. cbn [fst] in IH.
    rewrite in_app_iff. apply in_app_iff in Hin as [Hin|Hin].
    - destruct (H Hin Ht). tauto.
    - destruct (IH Hin Ht). tauto. }
  destruct s.
  - destruct (read_directories fs walk st') as [t' r] eqn:E. cbn [fst].
    now apply (Hrest t' r).
  - destruct (MAX_TOTAL_CODE_CHARS <? snd st').
    + cbn [fst]. intros Hin Ht. rewrite in_app_iff. destruct (H Hin Ht). tauto.
    + destruct (read_directories fs walk st') as [t' r] eqn:E. cbn [fst].
      now apply (Hrest t' r).
Qed.

(** ** Stripping, once more *)

Lemma lstrip_head (s t : str) (c : char) :
  lstrip s = c :: t -> isspace c = false.
Proof.
  induction s as [|x s IH]; [discriminate|]. cbn [lstrip].
  destruct (isspace x) eqn:E; [exact IH|]. intros H. now injection H as <- _.
Qed.

Lemma lstrip_lstrip (s : str) : lstrip (lstrip s) = lstrip s.
Proof.
  destruct (lstrip s) as [|c t] eqn:E; [reflexivity|].
  cbn [lstrip]. now rewrite (lstrip_head s t c E).
Qed.

Lemma lstrip_nil (s : str) : lstrip s = [] -> forallb isspace s = true.
Proof.
  induction s as [|x s IH]; [reflexivity|]. cbn [lstrip forallb].
  destruct (isspace x); [exact IH | discriminate].
Qed.

Lemma rstrip_cons (c : char) (s : str) :
  rstrip (c :: s)
  = match rstrip s with
    | [] => if isspace c then [] else [c]
    | r => c :: r
    end.
Proof.
  unfold rstrip. cbn [rev]. rewrite lstrip_app.
  destruct (forallb isspace (rev s)) eqn:E.
  - rewrite (lstrip_spaces _ E). cbn. now destruct (isspace c).
  - destruct (lstrip (rev s)) as [|x t] eqn:El.
    + apply lstrip_nil in El. congruence.
    + rewrite rev_app_distr. cbn [rev app].
      now destruct (rev t ++ [x]) eqn:Er; [destruct (rev t); discriminate|].
Qed.

Lemma rstrip_rstrip (s : str) : rstrip (rstrip s) = rstrip s.
Proof. unfold rstrip. now rewrite rev_involutive, lstrip_lstrip. Qed.

Lemma length_lstrip (s : str) : (List.length (lstrip s) <= List.length s)%nat.
Proof.
  induction s as [|x s IH]; [reflexivity|]. cbn [lstrip].
  destruct (isspace x); cbn [List.length]; lia.
Qed.

Lemma length_rstrip (s : str) : (List.length (rstrip s) <= List.length s)%nat.
Proof.
  unfold rstrip. rewrite length_rev.
  etransitivity; [apply length_lstrip|]. now rewrite length_rev.
Qed.

Lemma lstrip_rstrip (s : str) : lstrip s = s -> lstrip (rstrip s) = rstrip s.
Proof.
  destruct s as [|c s]; [reflexivity|]. intros H.
  assert (Hc : isspace c = false) by exact (lstrip_head _ _ _ H).
  rewrite rstrip_cons, Hc. destruct (rstrip s); cbn [lstrip]; now rewrite Hc.
Qed.

Lemma strip_strip (s : str) : strip (strip s) = strip s.
Proof.
  unfold strip.
  rewrite (lstrip_rstrip (lstrip s) (lstrip_lstrip s)). apply rstrip_rstrip.
Qed.

Lemma rstrip_of_stripped (s : str) : strip s = s -> rstrip s = s.
Proof. intros H. rewrite <- H. unfold strip. apply rstrip_rstrip. Qed.

(** A stripped text does not end with white space. *)
Lemma stripped_end (s a ws : str) :
  strip s = s -> s = a ++ ws -> forallb isspace ws = true -> ws = [].
Proof.
  intros Hs -> Hw. apply rstrip_of_stripped in Hs.
  rewrite (rstrip_app_spaces a ws Hw) in Hs.
  pose proof (length_rstrip a) as Hl. rewrite Hs, length_app in Hl.
  destruct ws; [reflexivity | cbn in Hl; lia].
Qed.

Lemma strip_nil (s : str) : strip s = [] -> forallb isspace s = true.
Proof.
  unfold strip, rstrip. intros H.
  assert (H' : lstrip (rev (lstrip s)) = []).
  { destruct (lstrip (rev (lstrip s))); [reflexivity|].
    apply (f_equal (@List.length _)) in H. rewrite length_rev in H.
    discriminate. }
  apply lstrip_nil in H'. rewrite forallb_rev in H'.
  induction s as [|x s IH]; [reflexivity|]. cbn [lstrip forallb] in *.
  destruct (isspace x) eqn:E; [now apply IH|].
  cbn [forallb] in H'. now rewrite E in H'.
Qed.

(** The end of a stripped text, stripped again, is not empty. *)
Lemma trimmed_end (s a text : str) :
  strip s = s -> s = a ++ text -> text <> [] -> trimmed (strip text).
Proof.
  intros Hs E Ht. split; [|apply strip_strip].
  intros Hn. apply strip_nil in Hn. now apply Ht, (stripped_end s a text).
Qed.

Lemma in_lstrip (c : char) (s : str) : In c (lstrip s) -> In c s.
Proof.
  induction s as [|x s IH]; [intros []|]. cbn [lstrip].
  destruct (isspace x); [right; now apply IH | trivial].
Qed.

Lemma in_strip (c : char) (s : str) : In c (strip s) -> In c s.
Proof.
  unfold strip, rstrip. intros H. apply in_rev, in_lstrip, in_rev in H.
  now apply in_lstrip.
Qed.

Lemma non_blank_trimmed (paragraphs : list str) :
  Forall trimmed (non_blank paragraphs).
Proof.
  induction paragraphs as [|p ps IH]; [constructor|]. cbn [non_blank].
  destruct (strip p) as [|c t] eqn:E; cbn [truthy]; [exact IH|].
  constructor; [|exact IH]. split; [discriminate|].
  rewrite <- E. apply strip_strip.
Qed.

Lemma non_blank_in (paragraphs : list str) (line : str) :
  In line (non_blank paragraphs) ->
  exists para, In para paragraphs /\ line = strip para.
Proof.
  induction paragraphs as [|p ps IH]; [intros []|]. cbn [non_blank].
  destruct (truthy (strip p)).
  - intros [<-|H]; [exists p; split; [now left | reflexivity]|].
    destruct (IH H) as (q & Hq & ->). exists q. split; [now right | reflexivity].
  - intros H. destruct (IH H) as (q & Hq & ->). exists q.
    split; [now right | reflexivity].
Qed.

Lemma length_non_blank (paragraphs : list str) :
  (List.length (non_blank paragraphs) <= List.length paragraphs)%nat.
Proof.
  induction paragraphs as [|p ps IH]; [reflexivity|]. cbn [non_blank].
  destruct (truthy (strip p)); cbn [List.length]; lia.
Qed.

(** ** The matcher *)

Lemma exec_Seq r1 r2 pos s gs k :
  exec (Seq r1 r2) pos s gs k
  = exec r1 pos s gs (fun pos' s' gs' => exec r2 pos' s' gs' k).
Proof. reflexivity. Qed.

Lemma exec_Group n r pos s gs k :
  exec (Group n r) pos s gs k
  = exec r pos s gs
         (fun pos' s' gs' => k pos' s' ((n, firstn (pos' - pos) s) :: gs')).
Proof. reflexivity. Qed.

Lemma exec_Char c pos s gs k :
  exec (Char c) pos s gs k
  = match s with
    | x :: s' => if x =? c then k (S pos) s' gs else None
    | [] => None
    end.
Proof. reflexivity. Qed.

Lemma exec_OneOf p pos s gs k :
  exec (OneOf p) pos s gs k
  = match s with
    | x :: s' => if p x then k (S pos) s' gs else None
    | [] => None
    end.
Proof. reflexivity. Qed.

Lemma exec_Bol s gs k : exec Bol 0 s gs k = k 0%nat s gs.
Proof. reflexivity. Qed.

Lemma exec_Eol pos s gs k :
  exec Eol pos s gs k
  = match s with
    | [] => k pos s gs
    | [x] => if x =? 10 then k pos s gs else None
    | _ => None
    end.
Proof. reflexivity. Qed.

(** What a match has consumed is a prefix of the subject that the pattern
    describes, the position moves by its length, and the only groups set
    are those of the pattern. *)
Lemma exec_advance (r : regex) :
  forall pos s gs k g,
    exec r pos s gs k = Some g ->
    exists c s' new,
      s = c ++ s'
      /\ lang r c
      /\ k (pos + List.length c)%nat s' (new ++ gs) = Some g
      /\ incl (List.map fst new) (group_ids r).
Proof.
  induction r as [c|p| |r1 IH1 r2 IH2|r1 IH1 r2 IH2|r IH|n r IH| |];
    intros pos s gs k g H.
  - rewrite exec_Char in H. destruct s as [|x s']; [discriminate|].
    destruct (x =? c) eqn:E; [|discriminate]. apply N.eqb_eq in E. subst x.
    exists [c], s', []. cbn [List.length app List.map group_ids].
    rewrite Nat.add_1_r.
    repeat split; [constructor | assumption | apply incl_refl].
  - rewrite exec_OneOf in H. destruct s as [|x s']; [discriminate|].
    destruct (p x) eqn:E; [|discriminate].
    exists [x], s', []. cbn [List.length app List.map group_ids].
    rewrite Nat.add_1_r.
    repeat split; [now constructor | assumption | apply incl_refl].
  - cbn [exec] in H. exists [], s, []. cbn [List.length app List.map].
    rewrite Nat.add_0_r.
    repeat split; [constructor | assumption | apply incl_refl].
  - rewrite exec_Seq in H.
    apply IH1 in H. destruct H as (c1 & s1 & new1 & E1 & L1 & H & Hn1).
    apply IH2 in H. destruct H as (c2 & s2 & new2 & E2 & L2 & H & Hn2).
    subst s s1. exists (c1 ++ c2), s2, (new2 ++ new1).
    rewrite <- !app_assoc, length_app, Nat.add_assoc.
    repeat split; [now constructor | assumption |].
    cbn [group_ids]. rewrite map_app. intros x Hx.
    apply in_app_iff in Hx as [Hx|Hx]; apply in_app_iff; auto.
  - cbn [exec] in H. cbn [group_ids].
    destruct (exec r1 pos s gs k) as [g'|] eqn:E1.
    + injection H as H. subst g'. apply IH1 in E1.
      destruct E1 as (c & s' & new & E & L & H & Hn). subst s.
      exists c, s', new. repeat split; [now apply lang_Alt_l | assumption |].
      intros x Hx. apply in_app_iff. auto.
    + apply IH2 in H. destruct H as (c & s' & new & E & L & H & Hn). subst s.
      exists c, s', new. repeat split; [now apply lang_Alt_r | assumption |].
      intros x Hx. apply in_app_iff. auto.
  - cbn [exec] in H. cbn [group_ids]. revert H.
    generalize (List.length s) as n. intros n. revert pos s gs.
    induction n as [|n IHn]; intros pos s gs H.
    + exists [], s, []. cbn [List.length app List.map].
      rewrite Nat.add_0_r.
      repeat split; [constructor | assumption | intros x []].
    + cbn beta iota fix in H.
      match type of H with
      | match ?e with _ => _ end = _ => destruct e as [g'|] eqn:E
      end.
      * injection H as H. subst g'. apply IH in E.
        destruct E as (c1 & s1 & new1 & E1 & L1 & H & Hn1). subst s.
        destruct (Nat.ltb pos (pos + List.length c1)); [|discriminate].
        apply IHn in H. destruct H as (c2 & s2 & new2 & E2 & L2 & H & Hn2).
        subst s1. exists (c1 ++ c2), s2, (new2 ++ new1).
        rewrite <- !app_assoc, length_app, Nat.add_assoc.
        repeat split; [now constructor | assumption |].
        rewrite map_app. intros x Hx. apply in_app_iff in Hx as [Hx|Hx]; auto.
      * exists [], s, []. cbn [List.length app List.map].
        rewrite Nat.add_0_r.
        repeat split; [constructor | assumption | intros x []].
  - rewrite exec_Group in H. apply IH in H.
    destruct H as (c & s' & new & E & L & H & Hn). subst s.
    exists c, s', ((n, firstn (pos + List.length c - pos) (c ++ s')) :: new).
    repeat split; [now constructor | assumption |].
    cbn [List.map fst group_ids].
    intros x [<-|Hx]; [now left | right; auto].
  - cbn [exec] in H. destruct (Nat.eqb pos 0); [|discriminate].
    exists [], s, []. cbn [List.length app List.map].
    rewrite Nat.add_0_r.
    repeat split; [constructor | assumption | apply incl_refl].
  - rewrite exec_Eol in H.
    assert (Hk : k pos s gs = Some g)
      by (destruct s as [|x [|y s']]; [assumption| |discriminate];
          destruct (x =? 10); [assumption | discriminate]).
    exists [], s, []. cbn [List.length app List.map].
    rewrite Nat.add_0_r.
    repeat split; [constructor | assumption | apply incl_refl].
Qed.

(** A pattern without groups sets none. *)
Lemma exec_advance_plain (r : regex) pos s gs k g :
  group_ids r = [] ->
  exec r pos s gs k = Some g ->
  exists c s',
    s = c ++ s' /\ lang r c /\ k (pos + List.length c)%nat s' gs = Some g.
Proof.
  intros Hg H. apply exec_advance in H.
  destruct H as (c & s' & new & E & L & H & Hn). subst s.
  rewrite Hg in Hn.
  destruct new as [|x new]; [|contradiction (Hn (fst x)); now left].
  now exists c, s'.
Qed.

Lemma firstn_length_app {A} (a b : list A) (n : nat) :
  firstn (n + List.length a - n) (a ++ b) = a.
Proof.
  replace (n + List.length a - n)%nat with (List.length a + 0)%nat by lia.
  rewrite firstn_app_2. cbn. apply app_nil_r.
Qed.

(** The shape of a line the pattern matches: an identifier, a backslash,
    the letter s some number of times, and a text that ends the line. *)
Lemma req_pattern_shape (h : libraries) (line : str) (m : groups) :
  re_match (req_pattern h) line = Some m ->
  exists id s_run text tail,
    line = id ++ BACKSLASH :: s_run ++ text ++ tail
    /\ lang (id_pattern h) id
    /\ lang (Star (Char 115)) s_run
    /\ lang (Plus (OneOf not_newline)) text
    /\ text <> [] /\ (tail = [] \/ tail = [10])
    /\ m = [(2%nat, text); (1%nat, id)].
Proof.
  unfold re_match, req_pattern.
  set (A := id_pattern h).
  assert (HA : group_ids A = []) by reflexivity. clearbody A.
  intros H. rewrite exec_Seq, exec_Bol, exec_Seq, exec_Group in H.
  apply (exec_advance_plain A _ _ _ _ _ HA) in H.
  destruct H as (id & s1 & E & Lid & H). subst line.
  rewrite (firstn_length_app id s1 0), exec_Seq, exec_Char in H.
  destruct s1 as [|x s2]; [discriminate|].
  destruct (x =? BACKSLASH) eqn:Ex; [|discriminate].
  apply N.eqb_eq in Ex. subst x.
  rewrite exec_Seq in H. apply exec_advance_plain in H; [|reflexivity].
  destruct H as (s_run & s3 & E & Lrun & H). subst s2.
  set (p := (S (0 + List.length id) + List.length s_run)%nat) in *.
  rewrite exec_Seq, exec_Group in H. unfold Plus in H.
  rewrite exec_Seq, exec_OneOf in H.
  destruct s3 as [|y s4]; [discriminate|].
  destruct (not_newline y) eqn:Ey; [|discriminate].
  apply exec_advance_plain in H; [|reflexivity].
  destruct H as (c & tail & E & Lc & H). subst s4.
  replace (S p + List.length c - p)%nat with (S (List.length c + 0)) in H by lia.
  cbn [firstn] in H. rewrite firstn_app_2 in H. cbn [firstn] in H.
  rewrite app_nil_r, exec_Eol in H.
  exists id, s_run, (y :: c), tail.
  assert (Ht : (tail = [] \/ tail = [10]) /\ m = [(2%nat, y :: c); (1%nat, id)]).
  { destruct tail as [|z [|z' tail]].
    - injection H as <-. auto.
    - destruct (z =? 10) eqn:Ez; [|discriminate].
      apply N.eqb_eq in Ez. subst z. injection H as <-. auto.
    - discriminate. }
  destruct Ht as [Ht Em]. subst m.
  repeat split; [exact Lid | exact Lrun | | discriminate | exact Ht].
  change (y :: c) with ([y] ++ c). constructor; [now constructor | exact Lc].
Qed.

(** ** The loops of [parse_requirements] *)

Lemma no_backslash_no_match (h : libraries) (line : str) :
  ~ In BACKSLASH line -> re_match (req_pattern h) line = None.
Proof.
  intros Hn. destruct (re_match (req_pattern h) line) as [m|] eqn:E;
    [|reflexivity].
  apply req_pattern_shape in E. destruct E as (id & s_run & text & tail & E & _).
  contradiction Hn. rewrite E. apply in_elt.
Qed.

Lemma match_lines_unmatched (h : libraries) (lines : list str)
    (requirements : list pyval) :
  (forall line, In line lines -> re_match (req_pattern h) line = None) ->
  match_lines h lines requirements = inl requirements.
Proof.
  induction lines as [|line lines IH]; intros H; [reflexivity|].
  cbn [match_lines]. rewrite (H line) by now left.
  apply IH. intros l Hl. apply H. now right.
Qed.

Lemma startswith_app (prefix s : str) : startswith (prefix ++ s) prefix = true.
Proof.
  unfold startswith. induction prefix as [|c prefix IH]; [reflexivity|].
  cbn [app strip_prefix]. rewrite N.eqb_refl. exact IH.
Qed.

(** The second loop returns, and keeps the requirements well formed. *)
Lemma match_lines_labelled (h : libraries) (lines : list str) :
  Forall trimmed lines ->
  forall requirements,
    Forall labelled requirements ->
    exists found,
      match_lines h lines requirements = inl (requirements ++ found)
      /\ Forall labelled found
      /\ (List.length found <= List.length lines)%nat.
Proof.
  induction 1 as [|line lines [Hne Hs] Hl IH]; intros requirements Hr.
  - exists []. rewrite app_nil_r. repeat split; [constructor | reflexivity].
  - cbn [match_lines].
    destruct (re_match (req_pattern h) line) as [m|] eqn:E.
    + apply req_pattern_shape in E.
      destruct E
        as (id & s_run & text & tail & E & _ & _ & _ & Ht & Htail & Em).
      subst m. cbn [group Nat.eqb].
      assert (Htail' : tail = []).
      { destruct Htail as [Htail|Htail]; [exact Htail|]. subst tail.
        apply (stripped_end line (id ++ BACKSLASH :: s_run ++ text) [10] Hs);
          [|reflexivity].
        rewrite E, <- app_assoc. cbn [app]. now rewrite <- app_assoc. }
      subst tail. rewrite app_nil_r in E.
      assert (Htext : trimmed (strip text)).
      { apply (trimmed_end line (id ++ BACKSLASH :: s_run) text Hs);
          [|exact Ht].
        now rewrite E, <- app_assoc. }
      set (id' := if negb (startswith id "R-") then _ else id).
      assert (Hid : startswith id' "R-" = true).
      { subst id'. destruct (startswith id "R-") eqn:Ei; [exact Ei|].
        apply startswith_app. }
      assert (Hnew : labelled (requirement id' (strip text)))
        by (now exists id', (strip text)).
      destruct (IH (requirements ++ [requirement id' (strip text)]))
        as (found & Ef & Hf & Hlen).
      { apply Forall_app. split; [exact Hr | now constructor]. }
      exists (requirement id' (strip text) :: found).
      rewrite Ef, <- app_assoc. repeat split.
      * now constructor.
      * cbn [List.length]. lia.
    + destruct (IH requirements Hr) as (found & Ef & Hf & Hlen).
      exists found. repeat split; [exact Ef | exact Hf |].
      cbn [List.length]. lia.
Qed.

Lemma number_lines_labelled (lines : list str) :
  Forall trimmed lines -> forall i, Forall labelled (number_lines i lines).
Proof.
  induction 1 as [|line lines Ht Hl IH]; intros i; [constructor|].
  cbn [number_lines]. constructor; [|apply IH].
  exists (lit "R-" ++ decimal i), line.
  split; [reflexivity|]. split; [apply startswith_app | exact Ht].
Qed.

Lemma length_number_lines (lines : list str) (i : nat) :
  List.length (number_lines i lines) = List.length lines.
Proof.
  revert i. induction lines as [|line lines IH]; intros i; [reflexivity|].
  cbn [number_lines List.length]. now rewrite IH.
Qed.

(** *** Decimal numerals *)

Lemma decimal_digits_value (fuel : nat) :
  forall n acc,
    (N.to_nat n < fuel)%nat ->
    fold_left (fun a c => 10 * a + (c - 48)) (decimal_digits fuel n acc) 0
    = fold_left (fun a c => 10 * a + (c - 48)) acc n.
Proof.
  induction fuel as [|fuel IH]; intros n acc Hf; [lia|].
  cbn [decimal_digits].
  pose proof (N.mod_lt n 10) as Hm.
  pose proof (N.div_mod n 10) as Hd.
  destruct (n / 10 =? 0) eqn:E.
  - apply N.eqb_eq in E. cbn [fold_left]. f_equal. lia.
  - apply N.eqb_neq in E. rewrite IH by lia. cbn [fold_left]. f_equal. lia.
Qed.

Lemma digits_value_decimal (n : nat) : digits_value (decimal n) = N.of_nat n.
Proof.
  unfold digits_value, decimal. rewrite decimal_digits_value by lia.
  reflexivity.
Qed.

Lemma decimal_injective (a b : nat) : decimal a = decimal b -> a = b.
Proof.
  intros H. apply (f_equal digits_value) in H.
  rewrite !digits_value_decimal in H. lia.
Qed.

Lemma number_lines_ids (lines : list str) (i : nat) :
  List.map requirement_id (number_lines i lines)
  = List.map (fun j => Some (PStr (lit "R-" ++ decimal j)))
             (seq i (List.length lines)).
Proof.
  revert i. induction lines as [|line lines IH]; intros i; [reflexivity|].
  cbn [number_lines List.length seq List.map]. now rewrite IH.
Qed.

Lemma NoDup_map_injective {A B} (f : A -> B) (l : list A) :
  (forall a b, f a = f b -> a = b) -> NoDup l -> NoDup (List.map f l).
Proof.
  intros Hf. induction 1 as [|x l Hx Hl IH]; cbn [List.map]; constructor;
    [|exact IH].
  intros Hin. apply in_map_iff in Hin as (y & E & Hy).
  apply Hf in E. now subst y.
Qed.

Lemma number_lines_distinct (lines : list str) (i : nat) :
  NoDup (List.map requirement_id (number_lines i lines)).
Proof.
  rewrite number_lines_ids. apply NoDup_map_injective; [|apply seq_NoDup].
  intros a b H. injection H as H. now apply decimal_injective.
Qed.

(** *** Opening the document *)

Lemma open_document_cases (h : libraries) (uploaded_file : upload) :
  snd (open_document h uploaded_file)
  = match docx_Document h (Direct uploaded_file), uploaded_file with
    | inl paragraphs, _ => inl paragraphs
    | inr e, FileLike _ => inr e
    | inr _, ByteString data => docx_Document h (BytesIO data)
    end.
Proof.
  unfold open_document.
  now destruct (docx_Document h (Direct uploaded_file)), uploaded_file.
Qed.

(** The function, once the document is open. *)
Lemma parse_requirements_opened (h : libraries) (uploaded_file : upload)
    (paragraphs : list str) :
  snd (open_document h uploaded_file) = inl paragraphs ->
  exists found,
    match_lines h (non_blank paragraphs) [] = inl found
    /\ Forall labelled found
    /\ (List.length found <= List.length (non_blank paragraphs))%nat
    /\ snd (parse_requirements h uploaded_file)
       = inl match found with
             | [] => number_lines 1 (non_blank paragraphs)
             | _ => found
             end.
Proof.
  intros Ho. unfold parse_requirements.
  destruct (open_document h uploaded_file) as [t [ps|e]]; [|discriminate].
  cbn [snd] in Ho. injection Ho as ->. cbv zeta.
  destruct (match_lines_labelled h (non_blank paragraphs)
              (non_blank_trimmed paragraphs) [] (Forall_nil _))
    as (found & E & Hf & Hl).
  cbn [app] in E. rewrite E. exists found. now repeat split.
Qed.

Lemma parse_requirements_unopened (h : libraries) (uploaded_file : upload)
    (e : library_exception) :
  snd (open_document h uploaded_file) = inr e ->
  snd (parse_requirements h uploaded_file) = inr e.
Proof.
  intros Ho. unfold parse_requirements.
  destruct (open_document h uploaded_file) as [t [ps|e']]; [discriminate|].
  cbn [snd] in *. now injection Ho as ->.
Qed.

(** *** Repetitions are greedy *)

(** A repetition of one character takes every character it can, when
    what follows then matches. *)
Lemma exec_Star_OneOf (p : char -> bool) (run rest : str) :
  forallb p run = true ->
  match rest with
  | [] => True
  | c :: _ => p c = false
  end ->
  forall pos gs k g,
    k (pos + List.length run)%nat rest gs = Some g ->
    exec (Star (OneOf p)) pos (run ++ rest) gs k = Some g.
Proof.
  intros Hrun Hrest pos gs k g Hk. cbn [exec].
  assert (Hn : (List.length run <= List.length (run ++ rest))%nat)
    by (rewrite length_app; lia).
  revert Hn. generalize (List.length (run ++ rest)) as n.
  revert pos Hk. induction run as [|d run IH]; intros pos Hk n Hn.
  - rewrite Nat.add_0_r in Hk. cbn [app].
    destruct n as [|n]; [exact Hk|].
    destruct rest as [|c rest]; [exact Hk|]. now rewrite Hrest.
  - cbn [forallb] in Hrun. apply andb_true_iff in Hrun as [Hd Hrun].
    destruct n as [|n]; [cbn in Hn; lia|].
    cbn [app]. rewrite Hd.
    assert (Hlt : Nat.ltb pos (S pos) = true) by (apply Nat.ltb_lt; lia).
    rewrite Hlt. rewrite (IH Hrun (S pos)); [reflexivity| |cbn in Hn; lia].
    cbn [List.length] in Hk.
    now replace (pos + S (List.length run))%nat
      with (S pos + List.length run)%nat in Hk by lia.
Qed.

Lemma exec_Star_OneOf_all (p : char -> bool) (run : str) :
  forallb p run = true ->
  forall pos gs k g,
    k (pos + List.length run)%nat [] gs = Some g ->
    exec (Star (OneOf p)) pos run gs k = Some g.
Proof.
  intros Hrun pos gs k g Hk.
  pose proof (exec_Star_OneOf p run [] Hrun I pos gs k g Hk) as H.
  now rewrite app_nil_r in H.
Qed.

(** A repetition of a character the subject does not start with takes
    nothing. *)
Lemma exec_Star_Char_none (c : char) (s : str) pos gs k :
  match s with
  | [] => True
  | x :: _ => (x =? c) = false
  end ->
  exec (Star (Char c)) pos s gs k = k pos s gs.
Proof.
  intros H. cbn [exec]. destruct s as [|x s]; [reflexivity|].
  cbn [List.length]. now rewrite H.
Qed.

Lemma exec_Alt_l r1 r2 pos s gs k g :
  exec r1 pos s gs k = Some g -> exec (Alt r1 r2) pos s gs k = Some g.
Proof. intros H. cbn [exec]. now rewrite H. Qed.

Lemma is_decimal_backslash (h : libraries) : is_decimal h BACKSLASH = false.
Proof. reflexivity. Qed.

(** A line the pattern does match: [R-], digits, a backslash and a text
    that does not start with the letter s. *)
Lemma req_pattern_numbered (h : libraries) (digits text : str) :
  digits <> [] -> forallb (is_decimal h) digits = true ->
  text <> [] -> forallb not_newline text = true ->
  match text with
  | [] => True
  | x :: _ => (x =? 115) = false
  end ->
  re_match (req_pattern h) (lit "R-" ++ digits ++ BACKSLASH :: text)
  = Some [(2%nat, text); (1%nat, lit "R-" ++ digits)].
Proof.
  intros Hd Hds Ht Hts Hs.
  destruct digits as [|d digits]; [contradiction|].
  destruct text as [|y text]; [contradiction|].
  cbn [forallb] in Hds, Hts.
  apply andb_true_iff in Hds as [Hd0 Hds].
  apply andb_true_iff in Hts as [Hy Hts].
  unfold re_match, req_pattern, id_pattern.
  rewrite exec_Seq, exec_Bol, exec_Seq, exec_Group.
  change (lit "R-" ++ (d :: digits) ++ BACKSLASH :: y :: text)
    with (82 :: 45 :: d :: digits ++ BACKSLASH :: y :: text).
  set (line := 82 :: 45 :: d :: digits ++ BACKSLASH :: y :: text).
  apply exec_Alt_l. unfold line at 1.
  rewrite exec_Seq, exec_Char. cbn [N.eqb Pos.eqb].
  rewrite exec_Seq, exec_Char. cbn [N.eqb Pos.eqb]. unfold Plus.
  rewrite exec_Seq, exec_OneOf, Hd0.
  apply (exec_Star_OneOf (is_decimal h) digits (BACKSLASH :: y :: text) Hds
           (is_decimal_backslash h)).
  replace (3 + List.length digits - 0)%nat
    with (S (S (S (List.length digits + 0)))) by lia.
  unfold line. cbn [firstn]. rewrite firstn_app_2. cbn [firstn].
  rewrite app_nil_r, exec_Seq, exec_Char. cbn [N.eqb Pos.eqb BACKSLASH].
  rewrite exec_Seq, (exec_Star_Char_none 115 (y :: text) _ _ _ Hs).
  rewrite exec_Seq, exec_Group, exec_Seq, exec_OneOf, Hy.
  set (p := (3 + List.length digits)%nat).
  apply (exec_Star_OneOf_all not_newline text Hts).
  rewrite exec_Eol.
  replace (S (S p) + List.length text - S p)%nat
    with (S (List.length text)) by lia.
  cbn [firstn]. now rewrite firstn_all.
Qed.

(** ** Lines *)

Lemma join_lines (lines : list str) :
  join NEWLINE (lines ++ [[]]) = flat_map (fun l => l ++ NEWLINE) lines.
Proof.
  induction lines as [|l lines IH]; [reflexivity|].
  cbn [app flat_map]. rewrite <- IH.
  destruct (lines ++ [[]]) as [|y rest] eqn:E; [destruct lines; discriminate|].
  change (join NEWLINE (l :: y :: rest))
    with (l ++ NEWLINE ++ join NEWLINE (y :: rest)).
  now rewrite <- app_assoc.
Qed.

Lemma splitlines_newline (rest : str) :
  splitlines (10 :: rest) = [] :: splitlines rest.
Proof. now destruct rest. Qed.

Lemma splitlines_line (l rest : str) :
  single_line l = true ->
  splitlines (l ++ NEWLINE ++ rest) = l :: splitlines rest.
Proof.
  induction l as [|c l IH]; intros H.
  - apply splitlines_newline.
  - cbn [single_line forallb] in H. apply andb_true_iff in H as [Hc Hl].
    apply negb_true_iff in Hc. cbn [app splitlines]. rewrite Hc.
    change (l ++ 10 :: rest) with (l ++ NEWLINE ++ rest).
    now rewrite (IH Hl).
Qed.

Lemma splitlines_lines (lines : list str) :
  Forall (fun l => single_line l = true) lines ->
  splitlines (join NEWLINE (lines ++ [[]])) = lines.
Proof.
  rewrite join_lines.
  induction 1 as [|l lines Hl _ IH]; [reflexivity|].
  cbn [flat_map]. rewrite <- app_assoc, (splitlines_line l _ Hl). now rewrite IH.
Qed.

Lemma single_line_app (a b : str) :
  single_line (a ++ b) = single_line a && single_line b.
Proof. apply forallb_app. Qed.

Lemma single_line_py_or (a : str) (b : string) :
  single_line a = true -> single_line b = true -> single_line (py_or a b) = true.
Proof. intros Ha Hb. unfold py_or. now destruct (truthy a). Qed.

Lemma section_lines_single {A} (items : list A) (entry : A -> str)
    (placeholder : str) (P : A -> Prop) :
  Forall P items -> (forall x, P x -> single_line (entry x) = true) ->
  single_line placeholder = true ->
  Forall (fun l => single_line l = true) (section_lines items entry placeholder).
Proof.
  intros Hi He Hp. destruct items as [|x items]; [now repeat constructor|].
  unfold section_lines. apply Forall_map. revert Hi. apply Forall_impl. exact He.
Qed.

(** The lines of a report, but for the empty one that ends them. *)
Lemma report_lines_body (summary : str) (matrix : list (str * str))
    (missing suggestions : list str) (detail : str) :
  report_lines summary matrix missing suggestions detail
  = ([ "Requirements Verification Report" : str;
       List.repeat 61 35%nat;
       "" : str;
       "Summary:" : str;
       py_or summary "No summary provided.";
       "" : str;
       "Traceability Matrix:" : str ]
     ++ section_lines matrix
          (fun item => lit "- " ++ fst item ++ lit ": " ++ snd item)
          "(No traceability data)"
     ++ [ "" : str; "Missing/Unimplemented Requirements:" : str ]
     ++ section_lines missing (fun rid => lit "- " ++ rid) "(None)"
     ++ [ "" : str; "Actionable Suggestions:" : str ]
     ++ section_lines suggestions (fun s => lit "- " ++ s) "(No suggestions)"
     ++ [ "" : str;
          "Detailed Analysis:" : str;
          py_or detail "(No detailed analysis)" ])
    ++ [[]].
Proof. unfold report_lines. now rewrite <- !app_assoc. Qed.

Lemma single_line_entry (a : string) (x : str) :
  single_line a = true -> single_line x = true -> single_line (lit a ++ x) = true.
Proof. intros Ha Hx. now rewrite single_line_app, Ha, Hx. Qed.

(** The lines of the report of a single-lined result are single lines. *)
Lemma report_body_single (r : AnalysisResult) :
  single_lined r ->
  Forall (fun l => single_line l = true)
    (removelast (report_lines (summary r) (traceability_matrix r)
                   (missing_requirements r) (suggestions r)
                   (detailed_analysis r))).
Proof.
  intros (Hs & Hm & Hq & Hg & Hd).
  rewrite report_lines_body, removelast_last.
  repeat (apply Forall_app; split).
  - repeat constructor. now apply single_line_py_or.
  - apply (section_lines_single _ _ _ _ Hm); [|reflexivity].
    intros [k v] [Hk Hv]. cbn [fst snd] in *.
    apply single_line_entry; [reflexivity|].
    rewrite single_line_app, Hk. now apply single_line_entry.
  - now repeat constructor.
  - apply (section_lines_single _ _ _ _ Hq); [|reflexivity].
    intros x Hx. now apply single_line_entry.
  - now repeat constructor.
  - apply (section_lines_single _ _ _ _ Hg); [|reflexivity].
    intros x Hx. now apply single_line_entry.
  - repeat constructor. now apply single_line_py_or.
Qed.

Lemma splitlines_report (r : AnalysisResult) :
  single_lined r ->
  splitlines (report_of r)
  = removelast (report_lines (summary r) (traceability_matrix r)
                  (missing_requirements r) (suggestions r)
                  (detailed_analysis r)).
Proof.
  intros H. apply report_body_single in H. unfold report_of, generate_report_text.
  rewrite report_lines_body in *. rewrite removelast_last in *.
  now apply splitlines_lines.
Qed.

(** ** The story *)

Lemma add_lines_laid_out (rl : reportlab) (lines : list str) :
  forall story story',
    add_lines rl lines story = inl story' ->
    story' = story ++ flat_map laid_out lines.
Proof.
  induction lines as [|line lines IH]; intros story story' H.
  - injection H as <-. cbn. now rewrite app_nil_r.
  - cbn [add_lines flat_map] in *. unfold laid_out.
    destruct (str_eqb (strip line) "").
    + apply IH in H. now rewrite H, <- app_assoc.
    + destruct (endswith line ":" && negb (startswith line "-")).
      * destruct (new_Paragraph rl _ Heading4); [discriminate|].
        apply IH in H. now rewrite H, <- app_assoc.
      * destruct (new_Paragraph rl _ BodyText); [discriminate|].
        apply IH in H. now rewrite H, <- app_assoc.
Qed.

Lemma add_lines_accepted (rl : reportlab) (lines : list str) :
  (forall text st, new_Paragraph rl text st = None) ->
  forall story, add_lines rl lines story = inl (story ++ flat_map laid_out lines).
Proof.
  intros Hp. induction lines as [|line lines IH]; intros story.
  - cbn. now rewrite app_nil_r.
  - cbn [add_lines flat_map]. unfold laid_out. rewrite !Hp.
    destruct (str_eqb (strip line) "");
      [|destruct (endswith line ":" && negb (startswith line "-"))];
      now rewrite IH, <- app_assoc.
Qed.

(** The loop stops at the first paragraph the constructor refuses. *)
Lemma add_lines_refused (rl : reportlab) (lines : list str) :
  forall story,
    add_lines rl lines story
    = match refused rl (flat_map laid_out lines) with
      | Some e => inr e
      | None => inl (story ++ flat_map laid_out lines)
      end.
Proof.
  induction lines as [|line lines IH]; intros story.
  - cbn. now rewrite app_nil_r.
  - cbn [add_lines flat_map]. unfold laid_out at 1 3.
    destruct (str_eqb (strip line) "").
    + rewrite IH. cbn [blank app refused].
      destruct (refused rl (flat_map laid_out lines)); [reflexivity|].
      now rewrite <- app_assoc.
    + destruct (endswith line ":" && negb (startswith line "-")).
      * cbn [heading app refused].
        destruct (new_Paragraph rl _ Heading4); [reflexivity|].
        rewrite IH. destruct (refused rl (flat_map laid_out lines));
          [reflexivity|]. now rewrite <- app_assoc.
      * cbn [body app refused].
        destruct (new_Paragraph rl _ BodyText); [reflexivity|].
        rewrite IH. destruct (refused rl (flat_map laid_out lines));
          [reflexivity|]. now rewrite <- app_assoc.
Qed.

(** A line that starts with a hyphen is body text. *)
Lemma laid_out_entry (x : str) : laid_out (lit "- " ++ x) = body (lit "- " ++ x).
Proof.
  unfold laid_out. change (lit "- " ++ x) with (45 :: 32 :: x).
  assert (Hs : str_eqb (strip (45 :: 32 :: x)) "" = false).
  { unfold strip. change (lstrip (45 :: 32 :: x)) with (45 :: 32 :: x).
    rewrite rstrip_cons. change (isspace 45) with false.
    now destruct (rstrip (32 :: x)). }
  rewrite Hs. change (startswith (45 :: 32 :: x) "-") with true.
  now rewrite andb_false_r.
Qed.

Lemma laid_out_section {A} (items : list A) (entry : A -> str)
    (placeholder : str) :
  (forall x, exists y, entry x = lit "- " ++ y) ->
  laid_out placeholder = body placeholder ->
  flat_map laid_out (section_lines items entry placeholder)
  = flat_map body (section_lines items entry placeholder).
Proof.
  intros He Hp. destruct items as [|x items].
  - cbn. now rewrite Hp.
  - unfold section_lines. generalize (x :: items). intros l.
    induction l as [|y l IH]; [reflexivity|]. cbn [List.map flat_map].
    destruct (He y) as [z ->]. now rewrite laid_out_entry, IH.
Qed.

(** The story of the report of a single-lined result. *)
Lemma laid_out_report (r : AnalysisResult) :
  single_lined r ->
  flat_map laid_out (splitlines (report_of r)) = report_story r.
Proof.
  intros H. rewrite (splitlines_report r H), report_lines_body, removelast_last.
  rewrite !flat_map_app. unfold report_story.
  rewrite !laid_out_section;
    try reflexivity; try (intros x; eexists; reflexivity).
  cbn [flat_map].
  change (laid_out "Requirements Verification Report")
    with (body "Requirements Verification Report").
  change (laid_out (List.repeat 61 35%nat)) with (body (List.repeat 61 35%nat)).
  change (laid_out "") with blank.
  change (laid_out "Summary:") with (heading "Summary:").
  change (laid_out "Traceability Matrix:") with (heading "Traceability Matrix:").
  change (laid_out "Missing/Unimplemented Requirements:")
    with (heading "Missing/Unimplemented Requirements:").
  change (laid_out "Actionable Suggestions:")
    with (heading "Actionable Suggestions:").
  change (laid_out "Detailed Analysis:") with (heading "Detailed Analysis:").
  rewrite !app_nil_r. now rewrite <- !app_assoc.
Qed.

Lemma sample_result_single_lined : single_lined sample_result.
Proof. repeat split; repeat constructor. Qed.

(** * Properties *)

(** C1. For every prompt, model name and credential, and whatever the
    environment, the client libraries and the transport do,
    [analyze_with_llm] returns: no exception reaches the caller, and the
    value returned is a mapping with the five fields of the schema. *)
Theorem analyze_with_llm_never_raises (w : world) (prompt model_name api_key : str) :
  returns_result (analyze_with_llm w prompt model_name api_key).
Proof.
  unfold analyze_with_llm.
  destruct (str_eqb _ "gpt-4o").
  { destruct (negb _).
    - apply logged_then_mock_returns_result. now eexists.
    - apply returns_result_bind; [apply OpenAIProvider_init_returns|].
      intros self. apply OpenAIProvider_analyze_returns_result. }
  destruct (str_eqb _ "claude 3.5 sonnet").
  { destruct (negb _).
    - apply logged_then_mock_returns_result. now eexists.
    - apply returns_result_bind; [apply AnthropicProvider_init_returns|].
      intros self. apply AnthropicProvider_analyze_returns_result. }
  destruct (str_eqb _ "local llama 3").
  { apply OllamaProvider_analyze_returns_result. }
  apply logged_then_mock_returns_result. now eexists.
Qed.

(** C2. For every input string the normaliser returns, and what it returns
    is a mapping that has the five fields [summary], [traceability_matrix],
    [missing_requirements], [suggestions] and [detailed_analysis]. *)
Theorem parse_llm_json_never_raises (w : world) (text : str) :
  exists t d,
    _parse_llm_json w (PStr text) = (t, Return (PDict d))
    /\ dict_contains "summary" d = true
    /\ dict_contains "traceability_matrix" d = true
    /\ dict_contains "missing_requirements" d = true
    /\ dict_contains "suggestions" d = true
    /\ dict_contains "detailed_analysis" d = true.
Proof.
  destruct (parse_llm_json_returns w (PStr text)) as (t & d & Heq & Hd).
  exists t, d. split; [exact Heq|].
  unfold has_required_keys in Hd.
  repeat (apply andb_true_iff in Hd; destruct Hd as [Hd ?]). tauto.
Qed.

(** C3. When the model name, once stripped and lowercased, is none of
    ["gpt-4o"], ["claude 3.5 sonnet"] and ["local llama 3"],
    [analyze_with_llm] returns the fixed response of the mock provider, for
    every prompt and credential, and all it does on the way is write two log
    records: no client is constructed and no request is sent. *)
Theorem unknown_model_gives_mock (w : world) (prompt model_name api_key : str) :
  lower (strip model_name) <> "gpt-4o" ->
  lower (strip model_name) <> "claude 3.5 sonnet" ->
  lower (strip model_name) <> "local llama 3" ->
  analyze_with_llm w prompt model_name api_key =
    ([Log INFO "Unknown model '%s'; defaulting to mock."
          [ArgStr (lower (strip model_name))];
      Log INFO "Returning mock LLM response." []],
     Return example)
  /\ no_external_call (analyze_with_llm w prompt model_name api_key).
Proof.
  intros H1 H2 H3.
  assert (E : analyze_with_llm w prompt model_name api_key =
              ([Log INFO "Unknown model '%s'; defaulting to mock."
                    [ArgStr (lower (strip model_name))];
                Log INFO "Returning mock LLM response." []],
               Return example)).
  { unfold analyze_with_llm. rewrite py_or_empty.
    now rewrite !str_eqb_neq by assumption. }
  split; [exact E|]. unfold no_external_call. now rewrite E.
Qed.

Lemma unknown_model_gives_mock_witness :
  lower (strip "Mistral 7B") <> "gpt-4o"
  /\ lower (strip "Mistral 7B") <> "claude 3.5 sonnet"
  /\ lower (strip "Mistral 7B") <> "local llama 3"
  /\ snd (analyze_with_llm (answering "{}") "prompt" "Mistral 7B" "sk-1")
     = Return example.
Proof.
  assert (H1 : lower (strip "Mistral 7B") <> "gpt-4o") by (vm_compute; discriminate).
  assert (H2 : lower (strip "Mistral 7B") <> "claude 3.5 sonnet")
    by (vm_compute; discriminate).
  assert (H3 : lower (strip "Mistral 7B") <> "local llama 3")
    by (vm_compute; discriminate).
  split; [exact H1|]. split; [exact H2|]. split; [exact H3|].
  now rewrite (proj1 (unknown_model_gives_mock (answering "{}") "prompt"
                        "Mistral 7B" "sk-1" H1 H2 H3)).
Defined.

(** C4. For a hosted model name (["gpt-4o"] or ["claude 3.5 sonnet"] once
    stripped and lowercased), an empty explicit credential and the
    provider's environment variable unset or empty, [analyze_with_llm]
    returns exactly the response of the mock provider; it writes two log
    records and neither constructs a client nor sends a request. *)
Theorem hosted_without_credential_gives_mock (w : world) (prompt model_name : str) :
  (lower (strip model_name) = "gpt-4o" /\ unset_or_empty w "OPENAI_API_KEY")
  \/ (lower (strip model_name) = "claude 3.5 sonnet"
      /\ unset_or_empty w "ANTHROPIC_API_KEY") ->
  (exists provider_note,
     analyze_with_llm w prompt model_name "" =
       ([Log INFO provider_note []; Log INFO "Returning mock LLM response." []],
        Return example))
  /\ no_external_call (analyze_with_llm w prompt model_name "").
Proof.
  intros H.
  assert (E : exists provider_note,
             analyze_with_llm w prompt model_name "" =
               ([Log INFO provider_note []; Log INFO "Returning mock LLM response." []],
                Return example)).
  { unfold analyze_with_llm. rewrite py_or_empty.
    destruct H as [[-> Henv] | [-> Henv]].
    - exists "No OpenAI API key provided; using mock response.".
      unfold os_getenv. now destruct Henv as [-> | ->].
    - exists "No Anthropic API key provided; using mock response.".
      unfold os_getenv. now destruct Henv as [-> | ->]. }
  split; [exact E|]. destruct E as [note E]. unfold no_external_call.
  now rewrite E.
Qed.

Lemma hosted_without_credential_gives_mock_witness :
  lower (strip " GPT-4o ") = "gpt-4o"
  /\ unset_or_empty (answering "{}") "OPENAI_API_KEY"
  /\ no_external_call (analyze_with_llm (answering "{}") "prompt" " GPT-4o " "").
Proof.
  assert (H1 : lower (strip " GPT-4o ") = "gpt-4o") by reflexivity.
  assert (H2 : unset_or_empty (answering "{}") "OPENAI_API_KEY")
    by (left; reflexivity).
  split; [exact H1|]. split; [exact H2|].
  exact (proj2 (hosted_without_credential_gives_mock (answering "{}") "prompt"
                  " GPT-4o " (or_introl (conj H1 H2)))).
Defined.

(** C5. When the call to the backend made inside a provider's [analyze]
    raises (a timeout, a refused connection, an error status, a rejected
    credential: any exception [e]), [analyze] logs the failure and returns
    the response of the mock provider; the exception does not propagate.
    This holds for the OpenAI call, for the Anthropic call, for the POST
    to the local daemon, and for the status check on its response; with
    [e] a timeout it is the case of the local daemon timing out. *)
Theorem backend_failure_gives_mock (w : world) (prompt : str) (e : exception) :
  (forall key,
     chat_completions_create w key (openai_kwargs prompt) = Raise e ->
     analyze w {| openai_client := Some key |} prompt =
       ([ChatCompletionsCreate key (openai_kwargs prompt);
         Log ERROR "OpenAI analysis failed: %s" [ArgExc e];
         Log INFO "Returning mock LLM response." []],
        Return example))
  /\ (forall key,
        messages_create w key (anthropic_kwargs prompt) = Raise e ->
        analyze w {| anthropic_client := Some key |} prompt =
          ([MessagesCreate key (anthropic_kwargs prompt);
            Log ERROR "Anthropic analysis failed: %s" [ArgExc e];
            Log INFO "Returning mock LLM response." []],
           Return example))
  /\ (forall self : OllamaProvider,
        requests_post w (ollama_url self) (ollama_payload self prompt) 120
          = Raise e ->
        analyze w self prompt =
          ([RequestsPost (ollama_url self) (ollama_payload self prompt) 120;
            Log ERROR "Ollama analysis failed (is Ollama running?): %s" [ArgExc e];
            Log INFO "Returning mock LLM response." []],
           Return example))
  /\ (forall (self : OllamaProvider) (resp : response),
        requests_post w (ollama_url self) (ollama_payload self prompt) 120
          = Return resp ->
        raise_for_status resp = Raise e ->
        analyze w self prompt =
          ([RequestsPost (ollama_url self) (ollama_payload self prompt) 120;
            Log ERROR "Ollama analysis failed (is Ollama running?): %s" [ArgExc e];
            Log INFO "Returning mock LLM response." []],
           Return example)).
Proof.
  repeat split.
  - intros key H. simpl. unfold OpenAIProvider_analyze. simpl.
    unfold call, bind, try_except. now rewrite H.
  - intros key H. simpl. unfold AnthropicProvider_analyze. simpl.
    unfold call, bind, try_except. now rewrite H.
  - intros self H. simpl. unfold OllamaProvider_analyze.
    unfold call, bind, try_except. now rewrite H.
  - intros self resp H Hs. simpl. unfold OllamaProvider_analyze.
    unfold call, lift, bind, try_except. rewrite H. now rewrite Hs.
Qed.

Lemma backend_failure_gives_mock_witness :
  requests_post offline (ollama_url OllamaProvider_init)
                (ollama_payload OllamaProvider_init "prompt") 120 = Raise Timeout
  /\ snd (analyze offline OllamaProvider_init "prompt") = Return example.
Proof.
  assert (H : requests_post offline (ollama_url OllamaProvider_init)
                (ollama_payload OllamaProvider_init "prompt") 120 = Raise Timeout)
    by reflexivity.
  split; [exact H|].
  now rewrite (proj1 (proj2 (proj2 (backend_failure_gives_mock offline "prompt"
                                       Timeout))) OllamaProvider_init H).
Defined.

(** C6. When decoding the input string fails, or gives a value that is
    not a mapping, the normaliser returns the degraded result: the fixed
    summary, an empty matrix, no missing requirements, the single fixed
    suggestion, and the input text itself as the detailed analysis.  The
    text [not json at all] is such an input, in every interpreter. *)
Theorem undecodable_text_gives_degraded_result (w : world) :
  (forall text : str,
     (exists e, json_loads (py w) (PStr text) = Raise e)
     \/ (exists v, json_loads (py w) (PStr text) = Return v
                   /\ forall d, v <> PDict d) ->
     _parse_llm_json w (PStr text) =
       ([Log WARNING "LLM did not return valid JSON. Applying heuristic parse." []],
        Return
          (PDict
             [ ("summary" : str, PStr "Model returned non-JSON output.");
               ("traceability_matrix" : str, PDict []);
               ("missing_requirements" : str, PList []);
               ("suggestions" : str,
                PList [PStr "Ensure the model is instructed to output strict JSON."]);
               ("detailed_analysis" : str, PStr text) ])))
  /\ (exists t r,
        _parse_llm_json w (PStr "not json at all") = (t, Return (PDict r))
        /\ dict_get "detailed_analysis" r = Some (PStr "not json at all")
        /\ dict_get "suggestions" r =
           Some (PList [PStr "Ensure the model is instructed to output strict JSON."])).
Proof.
  assert (G : forall text : str,
             (exists e, json_loads (py w) (PStr text) = Raise e)
             \/ (exists v, json_loads (py w) (PStr text) = Return v
                           /\ forall d, v <> PDict d) ->
             _parse_llm_json w (PStr text) =
               ([Log WARNING "LLM did not return valid JSON. Applying heuristic parse." []],
                Return (heuristic (PStr text)))).
  { intros text H. apply parse_llm_json_heuristic. intros d Hd.
    destruct H as [[e He] | (v & Hv & Hn)].
    - rewrite He in Hd. discriminate.
    - rewrite Hv in Hd. injection Hd as ->. now apply (Hn d). }
  split; [exact G|].
  eexists _, _. split; [|split].
  - apply G. left. exists JSONDecodeError. apply not_json_at_all.
  - reflexivity.
  - reflexivity.
Qed.

Lemma undecodable_text_gives_degraded_result_witness :
  (exists v, json_loads (py offline) (PStr "[1, 2]") = Return v
             /\ forall d, v <> PDict d)
  /\ snd (_parse_llm_json offline (PStr "[1, 2]")) =
     Return (heuristic (PStr "[1, 2]")).
Proof.
  assert (H : exists v, json_loads (py offline) (PStr "[1, 2]") = Return v
                        /\ forall d, v <> PDict d).
  { exists (PList [PInt 1; PInt 2]). split; [reflexivity | discriminate]. }
  split; [exact H|].
  now rewrite (proj1 (undecodable_text_gives_degraded_result offline)
                 "[1, 2]" (or_intror H)).
Defined.

(** C7. When the input string decodes to a mapping, the normaliser returns
    that mapping completed: a field that is present keeps the value it has,
    whatever its type, and each of the five required fields that is absent
    is given its default, the empty string for [summary] and
    [detailed_analysis], the empty mapping for [traceability_matrix], the
    empty list for [missing_requirements] and [suggestions].  For the text
    [{"summary": "ok"}], in an interpreter that can still enter one
    container, the result has [summary] equal to [ok] and the four other
    fields at their defaults. *)
Theorem mapping_text_is_completed (w : world) :
  (forall (text : str) (d : dict),
     json_loads (py w) (PStr text) = Return (PDict d) ->
     exists r,
       _parse_llm_json w (PStr text) = ([], Return (PDict r))
       /\ (forall k v, dict_get k d = Some v -> dict_get k r = Some v)
       /\ (dict_get "summary" d = None ->
           dict_get "summary" r = Some (PStr ""))
       /\ (dict_get "traceability_matrix" d = None ->
           dict_get "traceability_matrix" r = Some (PDict []))
       /\ (dict_get "missing_requirements" d = None ->
           dict_get "missing_requirements" r = Some (PList []))
       /\ (dict_get "suggestions" d = None ->
           dict_get "suggestions" r = Some (PList []))
       /\ (dict_get "detailed_analysis" d = None ->
           dict_get "detailed_analysis" r = Some (PStr "")))
  /\ ((1 <= recursion_budget (py w))%nat ->
      _parse_llm_json w (PStr (quoted "{'summary': 'ok'}")) =
        ([], Return
               (PDict
                  [ ("summary" : str, PStr "ok");
                    ("traceability_matrix" : str, PDict []);
                    ("missing_requirements" : str, PList []);
                    ("suggestions" : str, PList []);
                    ("detailed_analysis" : str, PStr "") ]))).
Proof.
  split.
  - intros text d H. exists (ensure_required_keys d).
    split; [now apply parse_llm_json_mapping|].
    split; [intros k v; apply ensure_required_keys_kept|].
    repeat split; now apply ensure_required_keys_filled.
  - intros Hb.
    rewrite (parse_llm_json_mapping w _ [("summary" : str, PStr "ok")]);
      [reflexivity|].
    now apply (json_loads_within 1).
Qed.

Lemma mapping_text_is_completed_witness :
  (1 <= recursion_budget (py offline))%nat
  /\ json_loads (py offline) (PStr (quoted "{'summary': 'ok', 'suggestions': 7}"))
     = Return (PDict [("summary" : str, PStr "ok"); ("suggestions" : str, PInt 7)])
  /\ exists r,
       _parse_llm_json offline (PStr (quoted "{'summary': 'ok', 'suggestions': 7}"))
         = ([], Return (PDict r))
       /\ dict_get "suggestions" r = Some (PInt 7)
       /\ dict_get "missing_requirements" r = Some (PList []).
Proof.
  assert (Hb : (1 <= recursion_budget (py offline))%nat) by (simpl; lia).
  assert (H : json_loads (py offline)
                (PStr (quoted "{'summary': 'ok', 'suggestions': 7}"))
              = Return (PDict [("summary" : str, PStr "ok");
                               ("suggestions" : str, PInt 7)]))
    by reflexivity.
  split; [exact Hb|]. split; [exact H|].
  destruct (proj1 (mapping_text_is_completed offline) _ _ H)
    as (r & Hr & Hkept & _ & _ & Hmiss & _).
  exists r. split; [exact Hr|]. split.
  - now apply Hkept.
  - now apply Hmiss.
Defined.

(** C8. Normalisation changes nothing in a result that is already complete.
    Whenever the input text decodes to a mapping that has the five required
    fields, the normaliser returns that very mapping; so normalising a
    text that decodes to a result of the normaliser gives that result
    again.  And for every result [r] of the schema (its strings text in
    the sense of [is_text], which every string of Unicode scalar values
    is, the keys of its matrix distinct), in an interpreter that can still
    enter two containers, normalising the text [json.dumps] writes for [r]
    returns the mapping of [r]. *)
Theorem normalisation_is_idempotent (w : world) :
  (forall (text : str) (d : dict),
     json_loads (py w) (PStr text) = Return (PDict d) ->
     has_required_keys d = true ->
     _parse_llm_json w (PStr text) = ([], Return (PDict d)))
  /\ (forall (text text' : str) (t : list event) (d : dict),
        _parse_llm_json w (PStr text) = (t, Return (PDict d)) ->
        json_loads (py w) (PStr text') = Return (PDict d) ->
        _parse_llm_json w (PStr text') = ([], Return (PDict d)))
  /\ (forall r : AnalysisResult,
        well_formed r -> (2 <= recursion_budget (py w))%nat ->
        _parse_llm_json w (PStr (json_dumps r)) = ([], Return (result_mapping r))).
Proof.
  assert (G : forall (text : str) (d : dict),
             json_loads (py w) (PStr text) = Return (PDict d) ->
             has_required_keys d = true ->
             _parse_llm_json w (PStr text) = ([], Return (PDict d))).
  { intros text d H Hd. rewrite (parse_llm_json_mapping w _ d H).
    now rewrite ensure_required_keys_id. }
  split; [exact G|]. split.
  - intros text text' t d H H'. apply G; [exact H'|].
    destruct (parse_llm_json_returns w (PStr text)) as (t0 & d0 & E & Hd).
    rewrite E in H. now injection H as _ <-.
  - intros r Hr Hb. apply G; [|reflexivity].
    now apply json_loads_json_dumps.
Qed.

Lemma normalisation_is_idempotent_witness :
  well_formed sample_result
  /\ (2 <= recursion_budget (py offline))%nat
  /\ _parse_llm_json offline (PStr (json_dumps sample_result))
     = ([], Return (result_mapping sample_result)).
Proof.
  assert (Hr : well_formed sample_result).
  { unfold well_formed, sample_result. cbn [summary traceability_matrix
      missing_requirements suggestions detailed_analysis].
    split; [reflexivity|]. split.
    { repeat (apply Forall_cons; [split; reflexivity|]). apply Forall_nil. }
    split.
    { repeat (apply NoDup_cons;
              [cbn; intros H;
               repeat (destruct H as [H|H]; [discriminate H|]); exact H|]).
      apply NoDup_nil. }
    split.
    { repeat (apply Forall_cons; [reflexivity|]). apply Forall_nil. }
    split; [|reflexivity].
    repeat (apply Forall_cons; [reflexivity|]). apply Forall_nil. }
  assert (Hb : (2 <= recursion_budget (py offline))%nat) by (simpl; lia).
  split; [exact Hr|]. split; [exact Hb|].
  exact (proj2 (proj2 (normalisation_is_idempotent offline)) sample_result Hr Hb).
Defined.




(** C10. When the input string decodes to a mapping, the result of the
    normaliser starts with the items of that mapping, in their order and
    with their values, followed by the defaults of the required fields
    that were absent: no key is removed or renamed, and a key outside the
    schema stays in the result, which may so have more than five
    fields. *)
Theorem decoded_mapping_is_kept (w : world) (text : str) (d : dict) :
  json_loads (py w) (PStr text) = Return (PDict d) ->
  exists extra,
    _parse_llm_json w (PStr text) = ([], Return (PDict (d ++ extra)))
    /\ (forall k v, In (k, v) d -> In (k, v) (d ++ extra))
    /\ (forall k v, dict_get k d = Some v -> dict_get k (d ++ extra) = Some v)
    /\ (List.length d <= List.length (d ++ extra))%nat.
Proof.
  intros H. destruct (ensure_required_keys_extends d) as [extra E].
  exists extra. split; [|split; [|split]].
  - rewrite <- E. now apply parse_llm_json_mapping.
  - intros k v Hin. apply in_or_app. now left.
  - intros k v Hk. now rewrite dict_get_app, Hk.
  - rewrite length_app. lia.
Qed.

Lemma decoded_mapping_is_kept_witness :
  json_loads (py offline) (PStr (quoted "{'reviewer': 'n/a'}"))
    = Return (PDict [("reviewer" : str, PStr "n/a")])
  /\ exists r,
       snd (_parse_llm_json offline (PStr (quoted "{'reviewer': 'n/a'}")))
         = Return (PDict r)
       /\ dict_get "reviewer" r = Some (PStr "n/a")
       /\ List.length r = 6%nat.
Proof.
  assert (H : json_loads (py offline) (PStr (quoted "{'reviewer': 'n/a'}"))
              = Return (PDict [("reviewer" : str, PStr "n/a")])) by reflexivity.
  split; [exact H|].
  destruct (decoded_mapping_is_kept offline _ _ H) as (extra & Hr & _ & Hk & _).
  exists ([("reviewer" : str, PStr "n/a")] ++ extra).
  split; [now rewrite Hr|]. split; [now apply Hk|].
  assert (Hc : snd (_parse_llm_json offline (PStr (quoted "{'reviewer': 'n/a'}")))
               = Return (PDict (ensure_required_keys
                                  [("reviewer" : str, PStr "n/a")])))
    by reflexivity.
  rewrite Hr in Hc. injection Hc as ->. reflexivity.
Defined.

(** * Further properties *)

(** X1. When the model is a hosted one and a credential is at hand, but
    the constructor of the client raises, the selector sends no request:
    it records the failure of the constructor, then that the client is
    unavailable, and returns the mock result. *)
Theorem construction_failure_gives_mock (w : world)
    (prompt model_name api_key key : str) (e : exception) :
  key <> [] ->
  (lower (strip model_name) = "gpt-4o" ->
   py_or api_key (os_getenv w "OPENAI_API_KEY" "") = key ->
   openai_OpenAI w key = Raise e ->
   analyze_with_llm w prompt model_name api_key =
     ([NewOpenAI key;
       Log ERROR "Failed to initialize OpenAI client: %s" [ArgExc e];
       Log WARNING "OpenAI client unavailable; falling back to mock." [];
       Log INFO "Returning mock LLM response." []],
      Return example))
  /\ (lower (strip model_name) = "claude 3.5 sonnet" ->
      py_or api_key (os_getenv w "ANTHROPIC_API_KEY" "") = key ->
      anthropic_Anthropic w key = Raise e ->
      analyze_with_llm w prompt model_name api_key =
        ([NewAnthropic key;
          Log ERROR "Failed to initialize Anthropic client: %s" [ArgExc e];
          Log WARNING "Anthropic client unavailable; falling back to mock." [];
          Log INFO "Returning mock LLM response." []],
         Return example)).
Proof.
  intros Hkey. apply truthy_nonempty in Hkey. split.
  - intros Hn Hk He. unfold analyze_with_llm. rewrite py_or_empty, Hn.
    cbn [str_eqb]. change (str_eqb "gpt-4o" "gpt-4o") with true. cbv iota.
    rewrite Hk, Hkey. cbn [negb].
    unfold OpenAIProvider_init, call, bind, try_except. now rewrite He.
  - intros Hn Hk He. unfold analyze_with_llm. rewrite py_or_empty, Hn.
    change (str_eqb "claude 3.5 sonnet" "gpt-4o") with false.
    change (str_eqb "claude 3.5 sonnet" "claude 3.5 sonnet") with true. cbv iota.
    rewrite Hk, Hkey. cbn [negb].
    unfold AnthropicProvider_init, call, bind, try_except. now rewrite He.
Qed.

Lemma construction_failure_gives_mock_witness :
  lit "sk-1" <> []
  /\ lower (strip "GPT-4o") = "gpt-4o"
  /\ py_or "sk-1" (os_getenv offline "OPENAI_API_KEY" "") = "sk-1"
  /\ openai_OpenAI offline "sk-1" = Raise ImportError
  /\ snd (analyze_with_llm offline "prompt" "GPT-4o" "sk-1") = Return example.
Proof.
  assert (H0 : lit "sk-1" <> []) by discriminate.
  assert (H1 : lower (strip "GPT-4o") = "gpt-4o") by reflexivity.
  assert (H2 : py_or "sk-1" (os_getenv offline "OPENAI_API_KEY" "") = "sk-1")
    by reflexivity.
  assert (H3 : openai_OpenAI offline "sk-1" = Raise ImportError) by reflexivity.
  split; [exact H0|]. split; [exact H1|]. split; [exact H2|]. split; [exact H3|].
  now rewrite (proj1 (construction_failure_gives_mock offline "prompt" "GPT-4o"
                        "sk-1" "sk-1" ImportError H0) H1 H2 H3).
Defined.

(** X2. A credential passed by the caller hides the environment: with a
    non-empty [api_key] the selector does the same, event by event, in
    whatever process environment it runs. *)
Theorem explicit_credential_hides_environment (w : world)
    (env : str -> option str) (prompt model_name api_key : str) :
  api_key <> [] ->
  analyze_with_llm (with_environ w env) prompt model_name api_key
  = analyze_with_llm w prompt model_name api_key.
Proof.
  intros H. apply truthy_nonempty in H. unfold analyze_with_llm.
  rewrite !(truthy_py_or api_key) by exact H. reflexivity.
Qed.

Lemma explicit_credential_hides_environment_witness :
  lit "sk-1" <> []
  /\ analyze_with_llm (with_environ (answering "{}") (fun _ => Some (lit "sk-2")))
       "prompt" "gpt-4o" "sk-1"
     = analyze_with_llm (answering "{}") "prompt" "gpt-4o" "sk-1".
Proof.
  assert (H0 : lit "sk-1" <> []) by discriminate.
  split; [exact H0|].
  exact (explicit_credential_hides_environment (answering "{}")
           (fun _ => Some (lit "sk-2")) "prompt" "gpt-4o" "sk-1" H0).
Defined.

(** X3. With an empty [api_key], the selector of a hosted model behaves as
    if the caller had passed the value of that model's environment
    variable. *)
Theorem environment_credential_is_used (w : world)
    (prompt model_name key : str) :
  (lower (strip model_name) = "gpt-4o" /\ environ w "OPENAI_API_KEY" = Some key)
  \/ (lower (strip model_name) = "claude 3.5 sonnet"
      /\ environ w "ANTHROPIC_API_KEY" = Some key) ->
  analyze_with_llm w prompt model_name ""
  = analyze_with_llm w prompt model_name key.
Proof.
  intros H. unfold analyze_with_llm. rewrite !py_or_empty. unfold os_getenv.
  destruct H as [[-> ->] | [-> ->]].
  - change (str_eqb "gpt-4o" "gpt-4o") with true. cbv iota.
    change (py_or "" key) with key. now destruct key.
  - change (str_eqb "claude 3.5 sonnet" "gpt-4o") with false.
    change (str_eqb "claude 3.5 sonnet" "claude 3.5 sonnet") with true. cbv iota.
    change (py_or "" key) with key. now destruct key.
Qed.

Lemma environment_credential_is_used_witness :
  lower (strip "gpt-4o") = "gpt-4o"
  /\ environ (with_environ (answering "{}") (fun _ => Some (lit "sk-2")))
       "OPENAI_API_KEY" = Some (lit "sk-2")
  /\ analyze_with_llm (with_environ (answering "{}") (fun _ => Some (lit "sk-2")))
       "prompt" "gpt-4o" ""
     = analyze_with_llm (with_environ (answering "{}") (fun _ => Some (lit "sk-2")))
         "prompt" "gpt-4o" "sk-2".
Proof.
  assert (H1 : lower (strip "gpt-4o") = "gpt-4o") by reflexivity.
  assert (H2 : environ (with_environ (answering "{}") (fun _ => Some (lit "sk-2")))
                 "OPENAI_API_KEY" = Some (lit "sk-2")) by reflexivity.
  split; [exact H1|]. split; [exact H2|].
  exact (environment_credential_is_used _ "prompt" "gpt-4o" "sk-2"
           (or_introl (conj H1 H2))).
Defined.

(** X4. The local model reads neither the credential nor the environment,
    and its first event is the request to the local server: a POST to
    [http://localhost:11434/api/generate] with the model [llama3], the
    prompt, no streaming, and a timeout of 120 seconds. *)
Theorem local_model_ignores_credential (w : world) (env : str -> option str)
    (prompt model_name api_key api_key' : str) :
  lower (strip model_name) = "local llama 3" ->
  analyze_with_llm (with_environ w env) prompt model_name api_key'
  = analyze_with_llm w prompt model_name api_key
  /\ exists t,
       fst (analyze_with_llm w prompt model_name api_key) =
       RequestsPost "http://localhost:11434/api/generate"
         (PDict [ ("model" : str, PStr "llama3");
                  ("prompt" : str, PStr prompt);
                  ("stream" : str, PBool false) ])
         120 :: t.
Proof.
  intros H. unfold analyze_with_llm. rewrite !py_or_empty, H.
  change (str_eqb "local llama 3" "gpt-4o") with false.
  change (str_eqb "local llama 3" "claude 3.5 sonnet") with false.
  change (str_eqb "local llama 3" "local llama 3") with true. cbv iota.
  split; [reflexivity|].
  unfold OllamaProvider_analyze.
  match goal with
  | |- context [try_except (bind ?m ?f) ?h] =>
      destruct (fst_try_except (bind m f) h) as [t2 ->];
      destruct (fst_bind m f) as [t1 ->]
  end.
  now exists (t1 ++ t2).
Qed.

Lemma local_model_ignores_credential_witness :
  lower (strip "Local Llama 3") = "local llama 3"
  /\ analyze_with_llm (with_environ offline (fun _ => Some (lit "sk-2")))
       "prompt" "Local Llama 3" "sk-1"
     = analyze_with_llm offline "prompt" "Local Llama 3" "".
Proof.
  assert (H : lower (strip "Local Llama 3") = "local llama 3") by reflexivity.
  split; [exact H|].
  exact (proj1 (local_model_ignores_credential offline
                  (fun _ => Some (lit "sk-2")) "prompt" "Local Llama 3" ""
                  "sk-1" H)).
Defined.


(** X6. The result of the selector is either the mock result or what the
    normaliser returns for some text; and when no request was sent it is
    the mock result. *)
Theorem result_is_mock_or_normalised (w : world)
    (prompt model_name api_key : str) :
  mock_or_normalised w (analyze_with_llm w prompt model_name api_key)
  /\ (filter is_request (fst (analyze_with_llm w prompt model_name api_key)) = []
      -> snd (analyze_with_llm w prompt model_name api_key) = Return example).
Proof.
  rewrite analyze_with_llm_branches. cbv zeta.
  destruct (str_eqb _ "gpt-4o").
  { destruct (py_or api_key _) as [|c key']; [split; [now left | reflexivity]|].
    destruct (openai_OpenAI w (c :: key')); [|split; [now left | reflexivity]].
    rewrite OpenAIProvider_analyze_cases.
    destruct (chat_completions_create w _ _) as [[|content ?]|e];
      (split; [unfold mock_or_normalised; cbn [snd]; auto; right; now eexists|]);
      try reflexivity.
    cbn. discriminate. }
  destruct (str_eqb _ "claude 3.5 sonnet").
  { destruct (py_or api_key _) as [|c key']; [split; [now left | reflexivity]|].
    destruct (anthropic_Anthropic w (c :: key')); [|split; [now left | reflexivity]].
    rewrite AnthropicProvider_analyze_cases.
    destruct (messages_create w _ _) as [content|e];
      [destruct (join_texts (block_texts content))|];
      (split; [unfold mock_or_normalised; cbn [snd]; auto; right; now eexists|]);
      try reflexivity.
    cbn. discriminate. }
  destruct (str_eqb _ "local llama 3"); [|split; [now left | reflexivity]].
  rewrite OllamaProvider_analyze_cases. cbv zeta.
  destruct (requests_post w _ _ 120) as [resp|e];
    [destruct (raise_for_status resp);
     [destruct (json resp) as [data|];
      [destruct (py_get data "response" (PStr ""))|]|]|];
    (split; [auto with origin|]); cbn; discriminate.
Qed.

Lemma result_is_mock_or_normalised_witness :
  filter is_request (fst (analyze_with_llm offline "prompt" "gpt-4o" "")) = []
  /\ snd (analyze_with_llm offline "prompt" "gpt-4o" "") = Return example.
Proof.
  assert (H : filter is_request
                (fst (analyze_with_llm offline "prompt" "gpt-4o" "")) = [])
    by reflexivity.
  split; [exact H|].
  exact (proj2 (result_is_mock_or_normalised offline "prompt" "gpt-4o" "") H).
Defined.

(** X7. When the chat completion answers with at least one choice, the
    OpenAI adapter normalises the content of the first choice, whatever
    the other choices hold, and does nothing else. *)
Theorem openai_first_choice_is_normalised (w : world) (key prompt : str)
    (content : pyval) (others : list pyval) :
  chat_completions_create w key (openai_kwargs prompt)
    = Return (content :: others) ->
  analyze w {| openai_client := Some key |} prompt =
    (ChatCompletionsCreate key (openai_kwargs prompt)
       :: fst (_parse_llm_json w content),
     snd (_parse_llm_json w content)).
Proof. intros H. now rewrite OpenAIProvider_analyze_cases, H. Qed.

Lemma openai_first_choice_is_normalised_witness :
  chat_completions_create (answering "{}") "sk-1" (openai_kwargs "prompt")
    = Return [PStr "{}"]
  /\ snd (analyze (answering "{}") {| openai_client := Some (lit "sk-1") |} "prompt")
     = snd (_parse_llm_json (answering "{}") (PStr "{}")).
Proof.
  assert (H : chat_completions_create (answering "{}") "sk-1"
                (openai_kwargs "prompt") = Return [PStr "{}"]) by reflexivity.
  split; [exact H|].
  now rewrite (openai_first_choice_is_normalised (answering "{}") "sk-1"
                 "prompt" (PStr "{}") [] H).
Defined.

(** X8. When every block of the message is a text block or has no text,
    the Anthropic adapter normalises the texts joined in order, with
    nothing between them; blocks without a text are skipped. *)
Theorem anthropic_text_blocks_are_joined (w : world) (key prompt : str)
    (items : list (option str)) :
  messages_create w key (anthropic_kwargs prompt) = Return (text_blocks items) ->
  analyze w {| anthropic_client := Some key |} prompt =
    (MessagesCreate key (anthropic_kwargs prompt)
       :: fst (_parse_llm_json w (PStr (joined items))),
     snd (_parse_llm_json w (PStr (joined items)))).
Proof.
  intros H.
  now rewrite AnthropicProvider_analyze_cases, H, join_texts_text_blocks.
Qed.

Lemma anthropic_text_blocks_are_joined_witness :
  messages_create (answering "{}") "sk-1" (anthropic_kwargs "prompt")
    = Return (text_blocks [Some (lit "{}")])
  /\ snd (analyze (answering "{}") {| anthropic_client := Some (lit "sk-1") |}
            "prompt")
     = snd (_parse_llm_json (answering "{}") (PStr "{}")).
Proof.
  assert (H : messages_create (answering "{}") "sk-1" (anthropic_kwargs "prompt")
              = Return (text_blocks [Some (lit "{}")])) by reflexivity.
  split; [exact H|].
  now rewrite (anthropic_text_blocks_are_joined (answering "{}") "sk-1" "prompt"
                 [Some (lit "{}")] H).
Defined.

(** X9. When the local server answers with a status outside 400..599 and
    a JSON object, the Ollama adapter normalises the value under
    [response], or the empty string when the key is absent; in that last
    case the result is the degraded one of an undecodable text. *)
Theorem ollama_response_field_is_normalised (w : world) (self : OllamaProvider)
    (prompt : str) (resp : response) (d : dict) :
  requests_post w (ollama_url self) (ollama_payload self prompt) 120
    = Return resp ->
  ((status_code resp < 400)%Z \/ (600 <= status_code resp)%Z) ->
  json resp = Return (PDict d) ->
  let text := match dict_get "response" d with
              | Some v => v
              | None => PStr ""
              end in
  analyze w self prompt =
    (RequestsPost (ollama_url self) (ollama_payload self prompt) 120
       :: fst (_parse_llm_json w text),
     snd (_parse_llm_json w text))
  /\ (dict_get "response" d = None ->
      snd (analyze w self prompt) = Return (heuristic (PStr ""))).
Proof.
  intros Hp Hs Hj. cbv zeta.
  assert (E : analyze w self prompt =
              (RequestsPost (ollama_url self) (ollama_payload self prompt) 120
                 :: fst (_parse_llm_json w
                           match dict_get "response" d with
                           | Some v => v
                           | None => PStr ""
                           end),
               snd (_parse_llm_json w
                      match dict_get "response" d with
                      | Some v => v
                      | None => PStr ""
                      end))).
  { rewrite OllamaProvider_analyze_cases. cbv zeta. rewrite Hp.
    unfold raise_for_status.
    replace ((400 <=? status_code resp)%Z && (status_code resp <? 600)%Z)
      with false
      by (symmetry; apply andb_false_iff;
          destruct Hs; [left; apply Z.leb_gt | right; apply Z.ltb_ge]; lia).
    rewrite Hj. cbn [py_get]. now destruct (dict_get "response" d). }
  split; [exact E|]. intros Hn. rewrite E, Hn. cbn [snd].
  rewrite parse_llm_json_heuristic; [reflexivity|].
  intros d'. unfold json_loads, decode.
  destruct (recursion_budget (py w)); discriminate.
Qed.

Lemma ollama_response_field_is_normalised_witness :
  requests_post (answering "{}") (ollama_url OllamaProvider_init)
                (ollama_payload OllamaProvider_init "prompt") 120
    = Return {| status_code := 200;
                json := Return (PDict [("response" : str, PStr "{}")]) |}
  /\ snd (analyze (answering "{}") OllamaProvider_init "prompt")
     = snd (_parse_llm_json (answering "{}") (PStr "{}")).
Proof.
  assert (H : requests_post (answering "{}") (ollama_url OllamaProvider_init)
                (ollama_payload OllamaProvider_init "prompt") 120
              = Return {| status_code := 200;
                          json := Return (PDict [("response" : str, PStr "{}")]) |})
    by reflexivity.
  split; [exact H|].
  assert (Hs : (status_code {| status_code := 200;
                               json := Return (PDict [("response" : str, PStr "{}")]) |}
                < 400)%Z) by (simpl; lia).
  now rewrite (proj1 (ollama_response_field_is_normalised (answering "{}")
                        OllamaProvider_init "prompt" _
                        [("response" : str, PStr "{}")] H
                        (or_introl Hs) eq_refl)).
Defined.

(** X10. The normaliser accepts [None], a bool, a number, a list or a
    dict in place of a text: it warns and returns the degraded result,
    with the value itself, unconverted, under [detailed_analysis]; so
    does the OpenAI adapter when the content of the first choice is such
    a value.  These are the values of [pyval] that are not a string; a
    [bytes] or [bytearray] text, which [json.loads] decodes, is outside
    the model. *)
Theorem none_or_decoded_value_is_degraded (w : world) (text : pyval) :
  not_a_string text = true ->
  _parse_llm_json w text =
    ([Log WARNING "LLM did not return valid JSON. Applying heuristic parse." []],
     Return
       (PDict
          [ ("summary" : str, PStr "Model returned non-JSON output.");
            ("traceability_matrix" : str, PDict []);
            ("missing_requirements" : str, PList []);
            ("suggestions" : str,
             PList [PStr "Ensure the model is instructed to output strict JSON."]);
            ("detailed_analysis" : str, text) ]))
  /\ forall key prompt others,
       chat_completions_create w key (openai_kwargs prompt)
         = Return (text :: others) ->
       snd (analyze w {| openai_client := Some key |} prompt) =
       Return
         (PDict
            [ ("summary" : str, PStr "Model returned non-JSON output.");
              ("traceability_matrix" : str, PDict []);
              ("missing_requirements" : str, PList []);
              ("suggestions" : str,
               PList [PStr "Ensure the model is instructed to output strict JSON."]);
              ("detailed_analysis" : str, text) ]).
Proof.
  intros H.
  assert (E : _parse_llm_json w text =
              ([Log WARNING "LLM did not return valid JSON. Applying heuristic parse." []],
               Return (heuristic text))).
  { apply parse_llm_json_heuristic. intros d.
    destruct text; try discriminate. }
  split; [exact E|]. intros key prompt others Hc.
  rewrite OpenAIProvider_analyze_cases, Hc. unfold normalised. cbn [snd].
  now rewrite E.
Qed.

Lemma none_or_decoded_value_is_degraded_witness :
  not_a_string PNone = true
  /\ dict_get "detailed_analysis"
       match snd (_parse_llm_json offline PNone) with
       | Return (PDict d) => d
       | _ => []
       end = Some PNone.
Proof.
  assert (H : not_a_string PNone = true) by reflexivity.
  split; [exact H|].
  now rewrite (proj1 (none_or_decoded_value_is_degraded offline PNone H)).
Defined.

(** X11. A response the adapter cannot read gives the mock result, after
    one request and one error record: no choice at all (an [IndexError]),
    a block whose text is not a string (a [TypeError]), a body of the
    local server that is not JSON (the error of the decoder) or that is
    JSON but no object (an [AttributeError]). *)
Theorem unreadable_response_gives_mock (w : world) (prompt : str) :
  (forall key,
     chat_completions_create w key (openai_kwargs prompt) = Return [] ->
     analyze w {| openai_client := Some key |} prompt =
       ([ChatCompletionsCreate key (openai_kwargs prompt);
         Log ERROR "OpenAI analysis failed: %s" [ArgExc IndexError];
         Log INFO "Returning mock LLM response." []],
        Return example))
  /\ (forall key content v,
        messages_create w key (anthropic_kwargs prompt) = Return content ->
        In (Block (Some v)) content -> (forall s, v <> PStr s) ->
        analyze w {| anthropic_client := Some key |} prompt =
          ([MessagesCreate key (anthropic_kwargs prompt);
            Log ERROR "Anthropic analysis failed: %s" [ArgExc TypeError];
            Log INFO "Returning mock LLM response." []],
           Return example))
  /\ (forall (self : OllamaProvider) resp e,
        requests_post w (ollama_url self) (ollama_payload self prompt) 120
          = Return resp ->
        raise_for_status resp = Return tt ->
        json resp = Raise e ->
        analyze w self prompt =
          ([RequestsPost (ollama_url self) (ollama_payload self prompt) 120;
            Log ERROR "Ollama analysis failed (is Ollama running?): %s" [ArgExc e];
            Log INFO "Returning mock LLM response." []],
           Return example))
  /\ (forall (self : OllamaProvider) resp data,
        requests_post w (ollama_url self) (ollama_payload self prompt) 120
          = Return resp ->
        raise_for_status resp = Return tt ->
        json resp = Return data -> (forall d, data <> PDict d) ->
        analyze w self prompt =
          ([RequestsPost (ollama_url self) (ollama_payload self prompt) 120;
            Log ERROR "Ollama analysis failed (is Ollama running?): %s"
                [ArgExc AttributeError];
            Log INFO "Returning mock LLM response." []],
           Return example)).
Proof.
  split; [|split; [|split]].
  - intros key H. now rewrite OpenAIProvider_analyze_cases, H.
  - intros key content v H Hin Hv.
    now rewrite AnthropicProvider_analyze_cases, H,
      (join_texts_not_a_string content v Hin Hv).
  - intros self resp e H Hs Hj.
    rewrite OllamaProvider_analyze_cases. cbv zeta. now rewrite H, Hs, Hj.
  - intros self resp data H Hs Hj Hd.
    rewrite OllamaProvider_analyze_cases. cbv zeta. rewrite H, Hs, Hj.
    destruct data; try reflexivity. now contradiction (Hd d).
Qed.

Lemma unreadable_response_gives_mock_witness :
  chat_completions_create silent "sk-1" (openai_kwargs "prompt") = Return []
  /\ snd (analyze silent {| openai_client := Some (lit "sk-1") |} "prompt")
     = Return example.
Proof.
  assert (H : chat_completions_create silent "sk-1" (openai_kwargs "prompt")
              = Return []) by reflexivity.
  split; [exact H|].
  now rewrite (proj1 (unreadable_response_gives_mock silent "prompt") "sk-1" H).
Defined.

(** X12. The five values [main.py] reads from the result of the selector
    are always stored ones: the result is a dict that holds the five keys,
    so no [get] falls back to its default and none raises. *)
Theorem report_arguments_are_stored_values (w : world)
    (prompt model_name api_key : str) :
  exists t d summary matrix missing suggestions detail,
    analyze_with_llm w prompt model_name api_key = (t, Return (PDict d))
    /\ dict_get "summary" d = Some summary
    /\ dict_get "traceability_matrix" d = Some matrix
    /\ dict_get "missing_requirements" d = Some missing
    /\ dict_get "suggestions" d = Some suggestions
    /\ dict_get "detailed_analysis" d = Some detail
    /\ report_arguments (PDict d)
       = Return (summary, matrix, missing, suggestions, detail).
Proof.
  destruct (selector_returns_result w prompt model_name api_key)
    as (t & d & E & Hk).
  unfold has_required_keys in Hk.
  repeat (apply andb_true_iff in Hk; destruct Hk as [Hk ?]).
  destruct (dict_contains_get "summary" d) as [v1 E1]; [assumption|].
  destruct (dict_contains_get "traceability_matrix" d) as [v2 E2]; [assumption|].
  destruct (dict_contains_get "missing_requirements" d) as [v3 E3]; [assumption|].
  destruct (dict_contains_get "suggestions" d) as [v4 E4]; [assumption|].
  destruct (dict_contains_get "detailed_analysis" d) as [v5 E5]; [assumption|].
  exists t, d, v1, v2, v3, v4, v5. repeat (split; [assumption|]).
  unfold report_arguments, py_get. now rewrite E1, E2, E3, E4, E5.
Qed.

(** X13. Every choice of the select box of
    [ui/analysis_control_section.py] is a model the selector knows: the
    name, stripped and in lower case, is one of the three it compares
    with, and the record of an unknown model is never written. *)
Theorem model_options_are_known (w : world) (prompt model_name api_key : str) :
  In model_name MODEL_OPTIONS ->
  existsb is_unknown_model_record
    (fst (analyze_with_llm w prompt model_name api_key)) = false
  /\ (lower (strip model_name) = "gpt-4o"
      \/ lower (strip model_name) = "claude 3.5 sonnet"
      \/ lower (strip model_name) = "local llama 3").
Proof.
  intros Hin.
  assert (Hk : lower (strip model_name) = "gpt-4o"
               \/ lower (strip model_name) = "claude 3.5 sonnet"
               \/ lower (strip model_name) = "local llama 3").
  { destruct Hin as [<-|[<-|[<-|[]]]]; [left | right; left | right; right];
      reflexivity. }
  split; [|exact Hk].
  rewrite analyze_with_llm_branches. cbv zeta.
  destruct Hk as [-> | [-> | ->]].
  - change (str_eqb "gpt-4o" "gpt-4o") with true. cbv iota.
    destruct (py_or api_key _) as [|c key']; [reflexivity|].
    destruct (openai_OpenAI w (c :: key')); [|reflexivity].
    cbn [fst]. rewrite existsb_app, no_unknown_record_OpenAI. reflexivity.
  - change (str_eqb "claude 3.5 sonnet" "gpt-4o") with false.
    change (str_eqb "claude 3.5 sonnet" "claude 3.5 sonnet") with true. cbv iota.
    destruct (py_or api_key _) as [|c key']; [reflexivity|].
    destruct (anthropic_Anthropic w (c :: key')); [|reflexivity].
    cbn [fst]. rewrite existsb_app, no_unknown_record_Anthropic. reflexivity.
  - change (str_eqb "local llama 3" "gpt-4o") with false.
    change (str_eqb "local llama 3" "claude 3.5 sonnet") with false.
    change (str_eqb "local llama 3" "local llama 3") with true. cbv iota.
    apply no_unknown_record_Ollama.
Qed.

Lemma model_options_are_known_witness :
  In (lit "Claude 3.5 Sonnet") MODEL_OPTIONS
  /\ existsb is_unknown_model_record
       (fst (analyze_with_llm offline "prompt" "Claude 3.5 Sonnet" "sk-1")) = false.
Proof.
  assert (H : In (lit "Claude 3.5 Sonnet") MODEL_OPTIONS) by (right; left; reflexivity).
  split; [exact H|].
  exact (proj1 (model_options_are_known offline "prompt" "Claude 3.5 Sonnet" "sk-1" H)).
Defined.

(** X14. [read_source_code] returns, in the order of the walk, the files
    with a supported extension that can be measured, are at most 800 KiB
    large and can be read, up to the last one before the total number of
    characters read passes 200000: a file that fails is skipped, and the
    file that passes the budget ends the collection.  When the walk
    itself raises, the function returns that same list if the budget was
    passed in the directories the walk had given, and lets the exception
    pass if it was not. *)
Theorem read_source_code_collects (fs : filesystem) (directory : str) :
  let files := readable_files fs (candidates fs directory) in
  let collected :=
    List.map (fun f => source_entry (fst f) (snd f)) (within_budget 0 files) in
  snd (read_source_code fs directory)
  = match snd (os_walk fs directory) with
    | None => inl collected
    | Some e => if exceeds_budget 0 files then inl collected else inr e
    end.
Proof.
  cbv zeta. rewrite read_source_code_result.
  now destruct (snd (os_walk fs directory)).
Qed.

Lemma read_source_code_collects_witness :
  (exists files,
     snd (read_source_code (interrupted sample_tree PermissionError) "/app")
     = inl files
     /\ List.map (fun entry => match entry with
                               | PDict d => dict_get "path" d
                               | _ => None
                               end) files
        = [Some (PStr "/app/main.py"); Some (PStr "/app/lib/big.C")])
  /\ snd (read_source_code (interrupted small_tree PermissionError) "/app")
     = inr PermissionError.
Proof.
  split.
  - eexists. split.
    + rewrite (read_source_code_collects
                 (interrupted sample_tree PermissionError) "/app").
      reflexivity.
    + vm_compute. reflexivity.
  - rewrite (read_source_code_collects
               (interrupted small_tree PermissionError) "/app").
    reflexivity.
Defined.

(** X15. The texts [read_source_code] returns have at most 200000
    characters in all, whatever the file system holds. *)
Theorem read_source_code_within_budget (fs : filesystem) (directory : str)
    (files : list pyval) :
  snd (read_source_code fs directory) = inl files ->
  total_content_chars files <= MAX_TOTAL_CODE_CHARS.
Proof.
  intros H. rewrite read_source_code_result in H.
  assert (E : files
              = List.map (fun f => source_entry (fst f) (snd f))
                  (within_budget 0
                     (readable_files fs (candidates fs directory)))).
  { destruct (snd (os_walk fs directory));
      [destruct (exceeds_budget 0 _); [|discriminate]|];
      now injection H as <-. }
  subst files.
  pose proof (within_budget_chars 0
                (readable_files fs (candidates fs directory))) as Hb.
  assert (H0 : 0 <= MAX_TOTAL_CODE_CHARS) by (unfold MAX_TOTAL_CODE_CHARS; lia).
  specialize (Hb H0). lia.
Qed.

Lemma read_source_code_within_budget_witness :
  exists files,
    snd (read_source_code sample_tree "/app") = inl files
    /\ List.length files = 2%nat
    /\ total_content_chars files <= MAX_TOTAL_CODE_CHARS.
Proof.
  assert (H : snd (read_source_code sample_tree "/app")
              = inl (List.map (fun f => source_entry (fst f) (snd f))
                       (within_budget 0
                          (readable_files sample_tree
                             (candidates sample_tree "/app")))))
    by (rewrite read_source_code_result; reflexivity).
  eexists. split; [exact H|]. split.
  - vm_compute. reflexivity.
  - exact (read_source_code_within_budget sample_tree "/app" _ H).
Defined.

(** X16. Once the record of the limit is written nothing is touched any
    more: the only event after it is the record of the number of files
    collected, and the function returns its list, whatever is left of the
    walk. *)
Theorem nothing_is_read_after_the_limit (fs : filesystem) (directory : str)
    (t1 t2 : list fp_event) :
  fst (read_source_code fs directory) = t1 ++ limit_record :: t2 ->
  exists files,
    snd (read_source_code fs directory) = inl files
    /\ t2 = [FLog INFO "Collected %d source files"
                  [FInt (N.of_nat (List.length files))]].
Proof.
  unfold read_source_code.
  pose proof (read_directories_trace fs (fst (os_walk fs directory)) ([], 0))
    as H.
  destruct (os_walk fs directory) as [walk failure]. cbn [fst] in H.
  destruct (read_directories fs walk ([], 0)) as [t [[acc total] s]].
  cbn [fst snd] in H.
  assert (Hc : forall n, ~ In limit_record
                           [FLog INFO "Collected %d source files" [FInt n]])
    by (intros n [E|[]]; discriminate).
  destruct s.
  - assert (Hno : forall n t1 t2,
               t ++ [FLog INFO "Collected %d source files" [FInt n]]
               <> t1 ++ limit_record :: t2).
    { intros n u1 u2 E.
      assert (Hin : In limit_record
                      (t ++ [FLog INFO "Collected %d source files" [FInt n]]))
        by (rewrite E; apply in_elt).
      apply in_app_iff in Hin as [Hin|Hin]; [now apply H | now apply (Hc n)]. }
    destruct failure as [e|]; cbn [fst]; intros E.
    + contradiction H. rewrite E. apply in_elt.
    + now apply Hno in E.
  - destruct H as (t0 & -> & Hn).
    assert (E0 : forall x, (t0 ++ [limit_record]) ++ [x]
                           = t0 ++ limit_record :: [x])
      by (intros x; now rewrite <- app_assoc).
    destruct failure as [e|]; cbn [fst snd]; rewrite E0; intros E;
      exists acc; (split; [reflexivity|]);
      exact (first_occurrence _ _ _ _ _ Hn (Hc _) E).
Qed.

Lemma nothing_is_read_after_the_limit_witness :
  fst (read_source_code sample_tree "/app")
  = [ Getsize "/app/main.py"; Open "/app/main.py";
      Getsize "/app/gone.js";
      FLog ERROR "Failed reading file %s: %s"
           [FStr "/app/gone.js"; FExc FileNotFoundError];
      Getsize "/app/lib/big.C"; Open "/app/lib/big.C";
      Getsize "/app/lib/huge.go"; Open "/app/lib/huge.go" ]
    ++ limit_record :: [FLog INFO "Collected %d source files" [FInt 2]]
  /\ exists files,
       snd (read_source_code sample_tree "/app") = inl files
       /\ List.length files = 2%nat.
Proof.
  assert (H : fst (read_source_code sample_tree "/app")
              = [ Getsize "/app/main.py"; Open "/app/main.py";
                  Getsize "/app/gone.js";
                  FLog ERROR "Failed reading file %s: %s"
                       [FStr "/app/gone.js"; FExc FileNotFoundError];
                  Getsize "/app/lib/big.C"; Open "/app/lib/big.C";
                  Getsize "/app/lib/huge.go"; Open "/app/lib/huge.go" ]
                ++ limit_record
                   :: [FLog INFO "Collected %d source files" [FInt 2]])
    by (vm_compute; reflexivity).
  split; [exact H|].
  destruct (nothing_is_read_after_the_limit sample_tree "/app" _ _ H)
    as (files & E & Ht).
  exists files. split; [exact E|].
  injection Ht as Ht. now apply Nat2N.inj.
Defined.

(** X17. [read_source_code] touches only the files the walk offers with a
    supported extension, and opens a file only after it has measured it
    at 800 KiB or less. *)
Theorem only_supported_files_are_touched (fs : filesystem) (directory : str)
    (path : str) (ev : fp_event) :
  In ev (fst (read_source_code fs directory)) -> touches path ev ->
  (exists root files file,
     In (root, files) (fst (os_walk fs directory)) /\ In file files
     /\ supported fs file = true /\ path = os_path_join fs root file)
  /\ (ev = Open path ->
      exists size, os_path_getsize fs path = inl size
                   /\ size <= MAX_FILE_SIZE_BYTES).
Proof.
  unfold read_source_code.
  pose proof (read_directories_touches fs (fst (os_walk fs directory)) ([], 0)
                path ev) as H.
  destruct (os_walk fs directory) as [walk failure]. cbn [fst] in H |- *.
  destruct (read_directories fs walk ([], 0)) as [t [[acc total] s]].
  cbn [fst] in H.
  assert (Hin : In ev t -> touches path ev ->
            (exists root files file,
               In (root, files) walk /\ In file files
               /\ supported fs file = true /\ path = os_path_join fs root file)
            /\ (ev = Open path ->
                exists size, os_path_getsize fs path = inl size
                             /\ size <= MAX_FILE_SIZE_BYTES)).
  { intros Hin Ht. destruct (H Hin Ht) as [Hp Ho]. split; [|exact Ho].
    apply in_flat_map in Hp as ([root files] & Hd & Hp). cbn [fst snd] in Hp.
    apply in_map_iff in Hp as (file & <- & Hf).
    apply filter_In in Hf as [Hf Hs]. now exists root, files, file. }
  assert (Hlast : forall n, In ev (t ++ [FLog INFO "Collected %d source files"
                                              [FInt n]]) ->
                            touches path ev -> In ev t).
  { intros n Hi Ht. apply in_app_iff in Hi as [Hi|[<-|[]]]; [exact Hi|].
    destruct Ht; discriminate. }
  destruct s, failure as [e|]; cbn [fst]; intros Hi Ht;
    try (apply Hin; [|exact Ht]); try exact Hi; now apply (Hlast _ Hi).
Qed.

Lemma only_supported_files_are_touched_witness :
  In (Open "/app/lib/huge.go") (fst (read_source_code sample_tree "/app"))
  /\ touches "/app/lib/huge.go" (Open "/app/lib/huge.go")
  /\ exists size, os_path_getsize sample_tree "/app/lib/huge.go" = inl size
                  /\ size <= MAX_FILE_SIZE_BYTES.
Proof.
  assert (H : In (Open "/app/lib/huge.go")
                 (fst (read_source_code sample_tree "/app")))
    by (vm_compute; tauto).
  assert (Ht : touches "/app/lib/huge.go" (Open "/app/lib/huge.go"))
    by (right; reflexivity).
  split; [exact H|]. split; [exact Ht|].
  pose proof (only_supported_files_are_touched sample_tree "/app"
                "/app/lib/huge.go" (Open "/app/lib/huge.go") H Ht) as P.
  exact (proj2 P eq_refl).
Defined.

(** X18. The pattern of [parse_requirements] matches a line only when a
    backslash follows the identifier: group 1 is what stands before that
    backslash, one of the five forms of an identifier, and group 2 is the
    end of the line, not empty and free of newlines, after the backslash
    and the letters s that follow it. *)
Theorem req_pattern_needs_a_backslash (h : libraries) (line : str)
    (m : groups) :
  re_match (req_pattern h) line = Some m ->
  exists id s_run text tail,
    line = id ++ BACKSLASH :: s_run ++ text ++ tail
    /\ group 1 m = Some id
    /\ group 2 m = Some text
    /\ lang (id_pattern h) id
    /\ lang (Star (Char 115)) s_run
    /\ lang (Plus (OneOf not_newline)) text
    /\ text <> []
    /\ (tail = [] \/ tail = [10]).
Proof.
  intros H. apply req_pattern_shape in H.
  destruct H
    as (id & s_run & text & tail & E & Lid & Lrun & Lt & Ht & Htail & Em).
  subst m. exists id, s_run, text, tail. now repeat split.
Qed.

Lemma req_pattern_needs_a_backslash_witness :
  re_match (req_pattern (office [])) (lit "R-7\ssDo it.")
    = Some [(2%nat, lit "Do it."); (1%nat, lit "R-7")]
  /\ exists id s_run text tail,
       lit "R-7\ssDo it." = id ++ BACKSLASH :: s_run ++ text ++ tail
       /\ group 1 [(2%nat, lit "Do it."); (1%nat, lit "R-7")] = Some id
       /\ text <> [].
Proof.
  assert (H : re_match (req_pattern (office [])) (lit "R-7\ssDo it.")
              = Some [(2%nat, lit "Do it."); (1%nat, lit "R-7")])
    by (vm_compute; reflexivity).
  split; [exact H|].
  destruct (req_pattern_needs_a_backslash _ _ _ H)
    as (id & s_run & text & tail & E & H1 & _ & _ & _ & _ & Ht & _).
  now exists id, s_run, text, tail.
Defined.

(** X19. When no paragraph of the document holds a backslash, no line is
    matched and [parse_requirements] numbers the paragraphs that are not
    blank, stripped, in order: [R-1], [R-2], ...; an identifier written
    in a paragraph stays in the text.  The identifiers it gives are
    pairwise distinct. *)
Theorem lines_without_backslash_are_numbered (h : libraries)
    (uploaded_file : upload) (paragraphs : list str) :
  snd (open_document h uploaded_file) = inl paragraphs ->
  (forall para, In para paragraphs -> ~ In BACKSLASH para) ->
  snd (parse_requirements h uploaded_file)
    = inl (number_lines 1 (non_blank paragraphs))
  /\ NoDup (List.map requirement_id (number_lines 1 (non_blank paragraphs))).
Proof.
  intros Ho Hb. split; [|apply number_lines_distinct].
  destruct (parse_requirements_opened h uploaded_file paragraphs Ho)
    as (found & Em & _ & _ & ->).
  rewrite match_lines_unmatched in Em.
  - now injection Em as <-.
  - intros line Hl. apply no_backslash_no_match. intros Hin.
    apply non_blank_in in Hl as (para & Hp & ->).
    apply (Hb para Hp). now apply in_strip.
Qed.

Lemma lines_without_backslash_are_numbered_witness :
  snd (open_document (office usual_document) (FileLike 0)) = inl usual_document
  /\ (forall para, In para usual_document -> ~ In BACKSLASH para)
  /\ snd (parse_requirements (office usual_document) (FileLike 0))
     = inl [ requirement "R-1" "Requirements";
             requirement "R-2" "R-7 The system shall log in.";
             requirement "R-3" "2. It shall log out." ].
Proof.
  assert (Ho : snd (open_document (office usual_document) (FileLike 0))
               = inl usual_document) by reflexivity.
  assert (Hb : forall para, In para usual_document -> ~ In BACKSLASH para).
  { intros para Hp Hin.
    repeat (destruct Hp as [<-|Hp];
            [repeat (destruct Hin as [Hin|Hin]; [discriminate Hin|]);
             exact Hin|]).
    exact Hp. }
  split; [exact Ho|]. split; [exact Hb|].
  exact (proj1 (lines_without_backslash_are_numbered _ _ _ Ho Hb)).
Defined.

(** X20. Every requirement [parse_requirements] returns is a dict with an
    identifier that starts with [R-] and a text that is not empty and
    has no white space at either end. *)
Theorem requirements_are_labelled (h : libraries) (uploaded_file : upload)
    (requirements : list pyval) :
  snd (parse_requirements h uploaded_file) = inl requirements ->
  Forall labelled requirements.
Proof.
  intros H.
  destruct (snd (open_document h uploaded_file)) as [paragraphs|e] eqn:Ho.
  - destruct (parse_requirements_opened h uploaded_file paragraphs Ho)
      as (found & _ & Hf & _ & E).
    rewrite E in H. injection H as <-.
    destruct found; [|exact Hf].
    apply number_lines_labelled, non_blank_trimmed.
  - rewrite (parse_requirements_unopened h uploaded_file e Ho) in H.
    discriminate.
Qed.

Lemma requirements_are_labelled_witness :
  snd (parse_requirements (office backslash_document) (ByteString []))
  = inl [ requirement "R-7" "The system shall log in.";
          requirement "R-2" "It shall log out." ]
  /\ Forall labelled [ requirement "R-7" "The system shall log in.";
                       requirement "R-2" "It shall log out." ].
Proof.
  assert (H : snd (parse_requirements (office backslash_document)
                     (ByteString []))
              = inl [ requirement "R-7" "The system shall log in.";
                      requirement "R-2" "It shall log out." ])
    by (vm_compute; reflexivity).
  split; [exact H|].
  exact (requirements_are_labelled _ _ _ H).
Defined.

(** X21. Once the document is open [parse_requirements] returns a list,
    with at most one requirement for each paragraph; the list is empty
    only when every paragraph is blank. *)
Theorem requirements_follow_the_paragraphs (h : libraries)
    (uploaded_file : upload) (paragraphs : list str) :
  snd (open_document h uploaded_file) = inl paragraphs ->
  exists requirements,
    snd (parse_requirements h uploaded_file) = inl requirements
    /\ (List.length requirements <= List.length paragraphs)%nat
    /\ (requirements = [] <-> forall para, In para paragraphs -> strip para = []).
Proof.
  intros Ho.
  destruct (parse_requirements_opened h uploaded_file paragraphs Ho)
    as (found & _ & _ & Hl & E).
  pose proof (length_non_blank paragraphs) as Hn.
  assert (Hblank : non_blank paragraphs = []
                   <-> forall para, In para paragraphs -> strip para = []).
  { clear. induction paragraphs as [|p ps IH]; [split; [intros _ ? [] | easy]|].
    cbn [non_blank]. destruct (strip p) eqn:Ep; cbn [truthy].
    - rewrite IH. split.
      + intros H para [<-|Hp]; [exact Ep | now apply H].
      + intros H para Hp. apply H. now right.
    - split; [discriminate|]. intros H. specialize (H p (or_introl eq_refl)).
      congruence. }
  eexists. split; [exact E|]. destruct found as [|r found].
  - rewrite length_number_lines. split; [exact Hn|].
    rewrite <- Hblank. destruct (non_blank paragraphs); [easy|].
    cbn [number_lines]. split; discriminate.
  - split; [lia|]. rewrite <- Hblank. split; [discriminate|].
    intros Hb. rewrite Hb in Hl. cbn in Hl. lia.
Qed.

Lemma requirements_follow_the_paragraphs_witness :
  snd (open_document (office backslash_document) (ByteString []))
  = inl backslash_document
  /\ exists requirements,
       snd (parse_requirements (office backslash_document) (ByteString []))
       = inl requirements
       /\ (List.length requirements <= 4)%nat.
Proof.
  assert (Ho : snd (open_document (office backslash_document) (ByteString []))
               = inl backslash_document) by reflexivity.
  split; [exact Ho|].
  destruct (requirements_follow_the_paragraphs _ _ _ Ho)
    as (requirements & E & Hl & _).
  now exists requirements.
Defined.

(** X22. [parse_requirements] raises exactly when the document cannot be
    opened, and then what [Document] raised: for an upload that is not
    bytes, the exception of the call on the upload; for bytes, the
    exception of the second call, on [io.BytesIO] of the upload, when the
    first call failed.  Nothing after the opening raises. *)
Theorem parse_requirements_raises_with_the_document (h : libraries)
    (uploaded_file : upload) (e : library_exception) :
  snd (parse_requirements h uploaded_file) = inr e
  <-> match docx_Document h (Direct uploaded_file), uploaded_file with
      | inl _, _ => False
      | inr e1, FileLike _ => e = e1
      | inr _, ByteString data => docx_Document h (BytesIO data) = inr e
      end.
Proof.
  pose proof (open_document_cases h uploaded_file) as Hc.
  destruct (snd (open_document h uploaded_file)) as [paragraphs|e'] eqn:Ho.
  - destruct (parse_requirements_opened h uploaded_file paragraphs Ho)
      as (found & _ & _ & _ & E).
    rewrite E.
    destruct (docx_Document h (Direct uploaded_file)), uploaded_file;
      split; try discriminate; try contradiction; congruence.
  - rewrite (parse_requirements_unopened h uploaded_file e' Ho).
    destruct (docx_Document h (Direct uploaded_file)), uploaded_file;
      try discriminate; split; intros H; try congruence.
Qed.

(** X23. A line made of [R-], decimal digits, a backslash and a text that
    has no newline and does not start with the letter s is matched: the
    second loop of [parse_requirements] keeps its identifier, and takes
    for its text what follows the backslash, stripped. *)
Theorem numbered_lines_keep_their_id (h : libraries) (digits text : str)
    (lines : list str) (requirements : list pyval) :
  digits <> [] -> forallb (is_decimal h) digits = true ->
  text <> [] -> forallb not_newline text = true ->
  startswith text "s" = false ->
  re_match (req_pattern h) (lit "R-" ++ digits ++ BACKSLASH :: text)
  = Some [(2%nat, text); (1%nat, lit "R-" ++ digits)]
  /\ match_lines h ((lit "R-" ++ digits ++ BACKSLASH :: text) :: lines)
       requirements
     = match_lines h lines
         (requirements ++ [requirement (lit "R-" ++ digits) (strip text)]).
Proof.
  intros Hd Hds Ht Hts Hs.
  assert (E : re_match (req_pattern h) (lit "R-" ++ digits ++ BACKSLASH :: text)
              = Some [(2%nat, text); (1%nat, lit "R-" ++ digits)]).
  { apply req_pattern_numbered; try assumption.
    destruct text as [|x text]; [exact I|].
    unfold startswith in Hs. change (lit "s") with [115] in Hs.
    cbn [strip_prefix] in Hs. rewrite N.eqb_sym. now destruct (115 =? x). }
  split; [exact E|].
  cbn [match_lines]. rewrite E. cbn [group Nat.eqb].
  now rewrite startswith_app.
Qed.

Lemma numbered_lines_keep_their_id_witness :
  lit "7" <> [] /\ forallb (is_decimal (office [])) (lit "7") = true
  /\ lit " Log in." <> [] /\ forallb not_newline (lit " Log in.") = true
  /\ startswith " Log in." "s" = false
  /\ match_lines (office []) [lit "R-7\ Log in."] []
     = inl [requirement "R-7" "Log in."].
Proof.
  assert (H1 : lit "7" <> []) by discriminate.
  assert (H2 : forallb (is_decimal (office [])) (lit "7") = true) by reflexivity.
  assert (H3 : lit " Log in." <> []) by discriminate.
  assert (H4 : forallb not_newline (lit " Log in.") = true) by reflexivity.
  assert (H5 : startswith " Log in." "s" = false) by reflexivity.
  repeat (split; [assumption|]).
  exact (proj2 (numbered_lines_keep_their_id (office []) "7" " Log in." [] []
                  H1 H2 H3 H4 H5)).
Defined.

(** X24. [splitlines] gives back the lines [generate_report_text] joined,
    but for the empty line that ends them, when no string of the result
    holds a line boundary: the report ends with a newline, which opens no
    line. *)
Theorem report_lines_are_recovered (r : AnalysisResult) :
  single_lined r ->
  splitlines (generate_report_text (summary r) (traceability_matrix r)
                (missing_requirements r) (suggestions r)
                (detailed_analysis r))
  = removelast (report_lines (summary r) (traceability_matrix r)
                  (missing_requirements r) (suggestions r)
                  (detailed_analysis r)).
Proof. exact (splitlines_report r). Qed.

Lemma report_lines_are_recovered_witness :
  single_lined sample_result
  /\ List.length (splitlines (report_of sample_result)) = 19%nat.
Proof.
  split; [exact sample_result_single_lined|].
  unfold report_of.
  now rewrite (report_lines_are_recovered sample_result
                 sample_result_single_lined).
Defined.

(** X25. [export_to_pdf] makes the directory of the path, then one blank,
    one heading or one body paragraph for each line of the content, then
    builds the document from them, writes its record and returns the
    path it was given.  When the directory cannot be made, or the
    constructor refuses a paragraph, the exception passes and nothing is
    built; when the build raises, that exception passes; in each of
    these cases no record is written. *)
Theorem export_to_pdf_builds_the_story (rl : reportlab)
    (content filepath : str) :
  let directory := os_path_dirname rl filepath in
  let story := flat_map laid_out (splitlines content) in
  export_to_pdf rl content filepath
  = match os_makedirs rl directory with
    | Some e => ([MakeDirs directory], inr e)
    | None =>
        match refused rl story with
        | Some e => ([MakeDirs directory], inr e)
        | None =>
            match doc_build rl filepath story with
            | Some e => ([MakeDirs directory; Build filepath story], inr e)
            | None =>
                ([ MakeDirs directory; Build filepath story;
                   RLog INFO "PDF report saved: %s" [filepath] ],
                 inl filepath)
            end
        end
    end.
Proof.
  cbv zeta. unfold export_to_pdf.
  destruct (os_makedirs rl (os_path_dirname rl filepath)); [reflexivity|].
  rewrite add_lines_refused.
  now destruct (refused rl (flat_map laid_out (splitlines content))).
Qed.

Lemma export_to_pdf_builds_the_story_witness :
  snd (export_to_pdf accepting (report_of sample_result) "/out/report.pdf")
  = inl (lit "/out/report.pdf")
  /\ export_to_pdf strict (lit "Summary:" ++ NEWLINE ++ lit "a < b")
       "/out/report.pdf"
     = ([MakeDirs "/out"], inr (OtherException "ValueError")).
Proof.
  split.
  - now rewrite (export_to_pdf_builds_the_story accepting
                   (report_of sample_result) "/out/report.pdf").
  - now rewrite (export_to_pdf_builds_the_story strict
                   (lit "Summary:" ++ NEWLINE ++ lit "a < b")
                   "/out/report.pdf").
Defined.

(** X26. The story [export_to_pdf] builds for the report of a result
    whose strings are single lines: the title and the rule are body
    text, each of the five section titles is a heading after a blank,
    and every entry of the matrix, of the missing requirements and of
    the suggestions is a body paragraph, never a heading, whatever it
    ends with; only the summary and the detailed analysis are laid out
    by what they hold. *)
Theorem pdf_story_of_a_report (rl : reportlab) (r : AnalysisResult)
    (filepath : str) (story : list flowable) :
  single_lined r ->
  In (Build filepath story) (fst (export_to_pdf rl (report_of r) filepath)) ->
  story = report_story r.
Proof.
  intros Hr. unfold export_to_pdf.
  destruct (os_makedirs rl _);
    [cbn [fst In]; intros [H|[]]; discriminate|].
  pose proof (add_lines_laid_out rl (splitlines (report_of r)) []) as Hs.
  destruct (add_lines rl (splitlines (report_of r)) []) as [story'|e];
    [|cbn [fst In]; intros [H|[]]; discriminate].
  specialize (Hs story' eq_refl). cbn [app] in Hs.
  rewrite (laid_out_report r Hr) in Hs. subst story'.
  destruct (doc_build rl filepath _); cbn [fst In]; intros H;
    repeat (destruct H as [H|H]); try discriminate; try contradiction;
    now injection H.
Qed.

Lemma pdf_story_of_a_report_witness :
  single_lined sample_result
  /\ In (Build "/out/report.pdf"
               (flat_map laid_out (splitlines (report_of sample_result))))
        (fst (export_to_pdf accepting (report_of sample_result)
                "/out/report.pdf"))
  /\ flat_map laid_out (splitlines (report_of sample_result))
     = report_story sample_result.
Proof.
  assert (H : In (Build "/out/report.pdf"
                    (flat_map laid_out (splitlines (report_of sample_result))))
                 (fst (export_to_pdf accepting (report_of sample_result)
                         "/out/report.pdf")))
    by (right; left; reflexivity).
  split; [exact sample_result_single_lined|]. split; [exact H|].
  exact (pdf_story_of_a_report accepting sample_result "/out/report.pdf"
           _ sample_result_single_lined H).
Defined.
